(** * pyburg: a bottom-up rewrite system generator

    A verification development for [ppci/pyburg.py].  The generator takes a
    [BurgSystem] (terminals, non-terminals, rules, goal) and prints the source
    of a [Matcher] class.  The development has three layers:

    - the grammar model and its construction API ([BurgSystem]);
    - the generator ([BurgGenerator]), which here returns the emitted code as
      a small syntax tree of the Python fragments it prints, together with
      the printer that gives back the text of the source's [print] calls;
    - the meaning of the emitted code ([Matcher]) on top of the run-time
      classes of [ppci.tree] ([Tree], [State], [BaseMatcher]).

    Python exceptions are values of [exn]; a computation that may raise has
    type [Res A]. *)

From Stdlib Require Import ZArith Lia.
From stdpp Require Import base option list strings gmap pretty.

Open Scope string_scope.
Open Scope Z_scope.
Open Scope list_scope.

(** ** Python strings

    A character of a Rocq [string] stands for the code point of the same
    number (U+0000 to U+00FF). *)

Module PyStr.

(** The double quote character, as the source writes it inside its
    format strings. *)
Definition dquote : string := String (Ascii.ascii_of_nat 34) EmptyString.

(** The separator of the statements of a template. *)
Definition semicolon : Ascii.ascii := Ascii.ascii_of_nat 59.

(** [str.isspace] on one character of that range. *)
Definition isspace (c : Ascii.ascii) : bool :=
  let n := Ascii.nat_of_ascii c in
  ((9 <=? n) && (n <=? 13) || (28 <=? n) && (n <=? 32)
   || (n =? 133) || (n =? 160))%nat.

Fixpoint lstrip (s : string) : string :=
  match s with
  | String c s' => if isspace c then lstrip s' else s
  | EmptyString => EmptyString
  end.

Definition rstrip (s : string) : string := String.rev (lstrip (String.rev s)).

(** [s.strip()] *)
Definition strip (s : string) : string := rstrip (lstrip s).

(** [s.split(sep)] for a one-character separator. *)
Fixpoint split (sep : Ascii.ascii) (s : string) : list string :=
  match s with
  | EmptyString => [EmptyString]
  | String c s' =>
      if Ascii.eqb c sep then EmptyString :: split sep s'
      else match split sep s' with
           | p :: ps => String c p :: ps
           | [] => [String c EmptyString]
           end
  end.

(** [sep.join(l)] *)
Fixpoint join (sep : string) (l : list string) : string :=
  match l with
  | [] => ""
  | [x] => x
  | x :: l' => x +:+ sep +:+ join sep l'
  end.

(** Every character of [s] is white space. *)
Fixpoint all_space (s : string) : bool :=
  match s with
  | EmptyString => true
  | String c s' => isspace c && all_space s'
  end.

(** Truth value of a string: [if s:] *)
Definition truthy (s : string) : bool :=
  match s with EmptyString => false | _ => true end.

(** [repr] of a list of identifiers, as [str.format] prints it. *)
Definition repr_list (l : list string) : string :=
  "[" +:+ join ", " (map (fun s => "'" +:+ s +:+ "'") l) +:+ "]".

End PyStr.

(** ** State

    Modelled from the spec: [ppci.tree.State] is imported by the emitted
    matcher and is not part of the sources.  The spec describes it as a
    mapping from non-terminal name to [(best_cost, winning_rule_id)]; an
    entry is written when none exists yet or when the candidate cost is
    strictly lower than the recorded one. *)

Module State.

Abbreviation t := (gmap string (Z * nat)).

Definition empty : t := ∅.

Definition has_goal (st : t) (goal : string) : bool :=
  bool_decide (is_Some (st !! goal)).

Definition get_cost (st : t) (goal : string) : option Z := fst <$> st !! goal.

Definition get_rule (st : t) (goal : string) : option nat := snd <$> st !! goal.

Definition set_cost (st : t) (goal : string) (cost : Z) (rule : nat) : t :=
  match st !! goal with
  | Some (old, _) => if cost <? old then <[goal := (cost, rule)]> st else st
  | None => <[goal := (cost, rule)]> st
  end.

End State.

(** ** Tree

    Modelled from the spec: [ppci.tree.Tree] is not part of the sources.
    The generator reads [name] and [children] of a pattern; the emitted
    code reads [name], [children] and [state] of a concrete node, and the
    actions of the spec's example read [value].  [state] is [None] until
    the node has been labelled. *)

Module Tree.

#[warnings="-register-all"]
Inductive t : Type :=
  mk { name : string; value : option Z; children : list t;
       state : option State.t }.

(** [Tree(name, *args)], as [BurgSystem.tree] builds patterns. *)
Definition node (nm : string) (args : list t) : t := mk nm None args None.

(** [Tree(name, value=v)] *)
Definition leaf (nm : string) (v : Z) : t := mk nm (Some v) [] None.

Definition set_state (tr : t) (st : State.t) : t :=
  mk (name tr) (value tr) (children tr) (Some st).

(** The tree without its labels. *)
Fixpoint forget (tr : t) : t :=
  mk (name tr) (value tr) (map forget (children tr)) None.

(** Every node carries a state. *)
Fixpoint labelled (tr : t) : Prop :=
  is_Some (state tr) ∧
  (fix all (l : list t) : Prop :=
     match l with [] => True | c :: l' => labelled c ∧ all l' end)
    (children tr).

Section Induction.
Variable P : t → Prop.
Hypothesis step : ∀ nm v cs st, Forall P cs → P (mk nm v cs st).

Fixpoint ind' (tr : t) : P tr :=
  match tr with
  | mk nm v cs st =>
      step nm v cs st
        ((fix go (l : list t) : Forall P l :=
            match l with
            | [] => Forall_nil_2 P
            | c :: l' => Forall_cons_2 P c l' (ind' c) (go l')
            end) cs)
  end.
End Induction.

End Tree.

(** ** Exceptions and results *)

Inductive exn : Type :=
  | BurgError (msg : string)
  | AssertionError
  | IndexError
  | KeyError
  | AttributeError
  | RecursionError
  | Exception_not_covered (tree : Tree.t).
    (** [Exception("Tree {} not covered".format(tree))] *)

Inductive Res (A : Type) : Type :=
  | Ok (a : A)
  | Raise (e : exn).
Arguments Ok {A} a.
Arguments Raise {A} e.

Definition bind {A B} (m : Res A) (k : A → Res B) : Res B :=
  match m with Ok a => k a | Raise e => Raise e end.

Notation "'do' x <- m ; k" := (bind m (fun x => k))
  (at level 10, x name, m at level 100, k at level 200).

Definition of_option {A} (o : option A) (e : exn) : Res A :=
  match o with Some a => Ok a | None => Raise e end.

Fixpoint mapM {A B} (f : A → Res B) (l : list A) : Res (list B) :=
  match l with
  | [] => Ok []
  | x :: l' => do y <- f x; do ys <- mapM f l'; Ok (y :: ys)
  end.

(** ** The grammar model *)

Module Rule.

(** [acceptance] is the text of the side condition, or [None].  [nr] is
    written by [BurgSystem.add_rule] once the rule has been appended. *)
Record t : Type :=
  mk { non_term : string; tree : Tree.t; cost : Z;
       acceptance : option string; template : string; nr : nat }.

(** Truth value of [rule.acceptance]. *)
Definition has_acceptance (r : t) : bool :=
  match acceptance r with Some a => PyStr.truthy a | None => false end.

End Rule.

Module Symbol.

Inductive t : Type :=
  | Term (name : string)
  | Nonterm (name : string) (chain_rules : list Rule.t).

Definition name (s : t) : string :=
  match s with Term n => n | Nonterm n _ => n end.

(** The two classes, as the argument [t] of [install] and [symType]. *)
Inductive cls : Type := TermC | NontermC.

Definition type (s : t) : cls :=
  match s with Term _ => TermC | Nonterm _ _ => NontermC end.

Definition cls_eqb (a b : cls) : bool :=
  match a, b with TermC, TermC | NontermC, NontermC => true | _, _ => false end.

(** [t(name)] *)
Definition new (c : cls) (nm : string) : t :=
  match c with TermC => Term nm | NontermC => Nonterm nm [] end.

End Symbol.

Module BurgSystem.

(** [symbols] is the dict of the source, kept in insertion order (the order
    in which [symbols.values()] is walked).  [header_lines] is assigned by
    the grammar parser; [generate] reads it. *)
Record t : Type :=
  mk { rules : list Rule.t; symbols : list (string * Symbol.t);
       goal : option string; header_lines : list string }.

(** [BurgSystem()] *)
Definition init : t := mk [] [] None [].

(** [self.symbols[name]], [None] when [name not in self.symbols]. *)
Fixpoint lookup (nm : string) (d : list (string * Symbol.t)) : option Symbol.t :=
  match d with
  | [] => None
  | (k, v) :: d' => if String.eqb k nm then Some v else lookup nm d'
  end.

Definition symType (s : t) (c : Symbol.cls) : list string :=
  map Symbol.name
      (filter (fun sy => Symbol.cls_eqb (Symbol.type sy) c = true)
              (map snd (symbols s))).

Definition terminals (s : t) : list string := symType s Symbol.TermC.

Definition non_terminals (s : t) : list string := symType s Symbol.NontermC.

(** [name in it] *)
Definition mem (nm : string) (l : list string) : bool := bool_decide (nm ∈ l).

Definition install (s : t) (nm : string) (c : Symbol.cls) : Res (t * Symbol.t) :=
  match lookup nm (symbols s) with
  | Some sy =>
      if Symbol.cls_eqb (Symbol.type sy) c then Ok (s, sy)
      else Raise AssertionError
  | None =>
      let sy := Symbol.new c nm in
      Ok (mk (rules s) (symbols s ++ [(nm, sy)]) (goal s) (header_lines s), sy)
  end.

(** [not self.goal]: the goal is [None] or the empty string. *)
Definition goal_unset (s : t) : bool :=
  match goal s with Some g => negb (PyStr.truthy g) | None => true end.

Definition non_term (s : t) (nm : string) : Res (t * Symbol.t) :=
  if mem nm (terminals s) then Raise (BurgError "Cannot redefine terminal")
  else
    let s1 := if goal_unset s
              then mk (rules s) (symbols s) (Some nm) (header_lines s)
              else s in
    install s1 nm Symbol.NontermC.

(** [sym.chain_rules.append(rule)] on the symbol object stored under [nm]:
    the dict sees the change, since it holds that same object. *)
Fixpoint append_chain_rule (nm : string) (rule : Rule.t)
    (d : list (string * Symbol.t)) : list (string * Symbol.t) :=
  match d with
  | [] => []
  | (k, v) :: d' =>
      if String.eqb k nm
      then (k, match v with
               | Symbol.Nonterm n crs => Symbol.Nonterm n (crs ++ [rule])
               | Symbol.Term n => Symbol.Term n
               end) :: d'
      else (k, v) :: append_chain_rule nm rule d'
  end.

(** The rule object is created with [nr = 0] and receives its number in the
    last statement; the chain list holds that same object, so the number
    is given here at creation.  When [non_term] raises, the exception
    leaves [add_rule] and the system under construction is abandoned. *)
Definition add_rule (s : t) (nt : string) (tree : Tree.t) (cost : Z)
    (acceptance : option string) (template : string) : Res t :=
  let template := PyStr.strip template in
  let template := if negb (PyStr.truthy template) then "pass" else template in
  let rule := Rule.mk nt tree cost acceptance template (S (length (rules s))) in
  do s1 <- (if (length (Tree.children tree) =? 0)%nat
               && negb (mem (Tree.name tree) (terminals s))
            then
              do r <- non_term s (Tree.name tree);
              Ok (mk (rules r.1)
                     (append_chain_rule (Tree.name tree) rule (symbols r.1))
                     (goal r.1) (header_lines r.1))
            else Ok s);
  do r <- non_term s1 (Rule.non_term rule);
  Ok (mk (rules r.1 ++ [rule]) (symbols r.1) (goal r.1) (header_lines r.1)).

Definition tree (nm : string) (args : list Tree.t) : Tree.t := Tree.node nm args.

Definition add_terminal (s : t) (terminal : string) : Res t :=
  do r <- install s terminal Symbol.TermC; Ok r.1.

End BurgSystem.

(** ** The grammar loader

    Modelled from the spec: the parser generated from [burg.x] is not part
    of the sources.  It is an external loader that builds the system through
    the construction API: it hands over the header lines and then declares
    terminals and adds rules in the order of the grammar file. *)

Module BurgParser.

Inductive call : Type :=
  | Add_terminal (terminal : string)
  | Add_rule (nt : string) (tree : Tree.t) (cost : Z)
             (acceptance : option string) (template : string).

Definition step (s : BurgSystem.t) (c : call) : Res BurgSystem.t :=
  match c with
  | Add_terminal x => BurgSystem.add_terminal s x
  | Add_rule nt tr c a tpl => BurgSystem.add_rule s nt tr c a tpl
  end.

Fixpoint run (calls : list call) (s : BurgSystem.t) : Res BurgSystem.t :=
  match calls with
  | [] => Ok s
  | c :: calls' => do s' <- step s c; run calls' s'
  end.

(** [self.system = BurgSystem(); super().parse(l); return self.system] *)
Definition parse (header : list string) (calls : list call) : Res BurgSystem.t :=
  let fresh := BurgSystem.init in
  run calls (BurgSystem.mk (BurgSystem.rules fresh) (BurgSystem.symbols fresh)
                           (BurgSystem.goal fresh) header).

End BurgParser.

(** ** The emitted Python

    The generator builds the fragments below as text.  They are kept here
    as syntax, so that the text ([show_*]) and the meaning ([eval_*]) of
    one fragment are read off the same value. *)

Module Py.

(** A path from the node at hand: [t], [t.children[0]],
    [t.children[0].children[1]], ... *)
Inductive expr : Type :=
  | Var (x : string)
  | Child (e : expr) (i : nat).

Fixpoint show_expr (e : expr) : string :=
  match e with
  | Var x => x
  | Child e' i => show_expr e' +:+ ".children[" +:+ pretty i +:+ "]"
  end.

(** [prefix.name == "nm" and (test) and (test) ...] *)
#[warnings="-register-all"]
Inductive cond : Type :=
  | Test (prefix : expr) (nm : string) (child_tests : list cond).

Section CondInduction.
Variable P : cond → Prop.
Hypothesis step : ∀ prefix nm cts, Forall P cts → P (Test prefix nm cts).

Fixpoint cond_ind' (c : cond) : P c :=
  match c with
  | Test prefix nm cts =>
      step prefix nm cts
        ((fix go (l : list cond) : Forall P l :=
            match l with
            | [] => Forall_nil_2 P
            | ct :: l' => Forall_cons_2 P ct l' (cond_ind' ct) (go l')
            end) cts)
  end.
End CondInduction.

Fixpoint show_cond (c : cond) : string :=
  match c with
  | Test prefix nm child_tests =>
      let child_tests := map (fun ct => "(" +:+ show_cond ct +:+ ")") child_tests in
      let child_tests := PyStr.join " and " child_tests in
      let child_tests :=
        if PyStr.truthy child_tests then " and " +:+ child_tests else "" in
      let tst := show_expr prefix +:+ ".name == " +:+ PyStr.dquote +:+ nm
                 +:+ PyStr.dquote in
      tst +:+ child_tests
  end.

(** The variable is bound to the node itself, both in the kid functions
    ([lambda t: ...]) and in the tests of [burm_state] ([tree]).
    [children[i]] raises [IndexError] past the end. *)
Fixpoint eval_expr (e : expr) (tree : Tree.t) : Res Tree.t :=
  match e with
  | Var _ => Ok tree
  | Child e' i =>
      do n <- eval_expr e' tree;
      of_option (Tree.children n !! i) IndexError
  end.

(** [(a) and (b) and ...]: [and] evaluates from left to right and stops
    at the first false operand. *)
Definition eval_and (rec : cond → Res bool) : list cond → Res bool :=
  fix conj l :=
    match l with
    | [] => Ok true
    | ct :: l' => do b <- rec ct; if b then conj l' else Ok false
    end.

Fixpoint eval_cond (c : cond) (tree : Tree.t) : Res bool :=
  match c with
  | Test prefix nm child_tests =>
      do n <- eval_expr prefix tree;
      if String.eqb (Tree.name n) nm
      then eval_and (fun ct => eval_cond ct tree) child_tests
      else Ok false
  end.

(** The block printed by [emit_record] for [rule]: the direct
    [set_cost] and one [set_cost] per chain rule in [chain_rules]. *)
Record record : Type :=
  mk_record { rule : Rule.t; chain_rules : list Rule.t }.

(** [if condition:] followed by the record. *)
Record case : Type :=
  mk_case { condition : cond; body : record }.

(** The three table entries of one rule in [__init__]. *)
Record entry : Type :=
  mk_entry { entry_rule : Rule.t; kids : list expr; nts : list string }.

(** The whole class. *)
Record matcher : Type :=
  mk_matcher { header : list string; entries : list entry;
               burm_state : list case; goal : string }.

End Py.

(** ** The generator *)

Module BurgGenerator.

Section Generator.

Variable system : BurgSystem.t.

(** The [for] loop of [compute_kids] over [enumerate(t.children)], with
    the recursive call as [rec]. *)
Definition compute_kids_loop
    (rec : Tree.t → Py.expr → list Py.expr * list string)
    (root_name : Py.expr)
    : list Tree.t → nat → list Py.expr → list string
      → list Py.expr * list string :=
  fix loop cs i k nts :=
    match cs with
    | [] => (k, nts)
    | c :: cs' =>
        let pfx := Py.Child root_name i in
        let r := rec c pfx in
        loop cs' (S i) (k ++ r.1) (nts ++ r.2)
    end.

(** Compute of a pattern the blanks that must be provided from below in
    the tree. *)
Fixpoint compute_kids (t : Tree.t) (root_name : Py.expr)
    : list Py.expr * list string :=
  if BurgSystem.mem (Tree.name t) (BurgSystem.non_terminals system)
  then ([root_name], [Tree.name t])
  else compute_kids_loop compute_kids root_name (Tree.children t) 0%nat [] [].

(** The child tests of [emittest]: [ct] keeps the children that are not
    non-terminals, and [i] counts the children that remain in [ct], as
    [enumerate(ct)] does. *)
Definition child_tests (rec : Tree.t → Py.expr → Py.cond) (prefix : Py.expr)
    : list Tree.t → nat → list Py.cond :=
  fix loop cs i :=
    match cs with
    | [] => []
    | c :: cs' =>
        if BurgSystem.mem (Tree.name c) (BurgSystem.non_terminals system)
        then loop cs' i
        else rec c (Py.Child prefix i) :: loop cs' (S i)
    end.

(** Generate condition for a tree pattern. *)
Fixpoint emittest (tree : Tree.t) (prefix : Py.expr) : Py.cond :=
  Py.Test prefix (Tree.name tree)
          (child_tests emittest prefix (Tree.children tree) 0%nat).

(** [self.system.symbols[rule.non_term].chain_rules] raises [KeyError]
    for an unknown name and [AttributeError] for a terminal. *)
Definition emit_record (rule : Rule.t) : Res Py.record :=
  do sy <- of_option (BurgSystem.lookup (Rule.non_term rule)
                                         (BurgSystem.symbols system)) KeyError;
  match sy with
  | Symbol.Nonterm _ crs => Ok (Py.mk_record rule crs)
  | Symbol.Term _ => Raise AttributeError
  end.

Definition emitcase (term : string) : Res (list Py.case) :=
  let rules := filter (fun rule => Tree.name (Rule.tree rule) = term)
                      (BurgSystem.rules system) in
  mapM (fun rule =>
          let condition := emittest (Rule.tree rule) (Py.Var "tree") in
          do r <- emit_record rule;
          Ok (Py.mk_case condition r)) rules.

(** Emit a function that assigns a new state to a node. *)
Definition emit_state : Res (list Py.case) :=
  do cases <- mapM emitcase (BurgSystem.terminals system);
  Ok (concat cases).

(** [str(self.system.goal)] *)
Definition goal_str : string :=
  match BurgSystem.goal system with Some g => g | None => "None" end.

(** Generate script that implements the burg spec. *)
Definition generate : Res Py.matcher :=
  let entries :=
    map (fun rule =>
           let r := compute_kids (Rule.tree rule) (Py.Var "t") in
           Py.mk_entry rule r.1 r.2) (BurgSystem.rules system) in
  do cases <- emit_state;
  Ok (Py.mk_matcher (BurgSystem.header_lines system) entries cases goal_str).

End Generator.

End BurgGenerator.

(** ** The printed text

    The lines that [generate] writes to the output file, one list element
    per [print] call.  [tree_str] stands for [str] of a pattern, which
    belongs to [ppci.tree]. *)

Module Output.

Section Lines.

Variable tree_str : Tree.t → string.

(** [Rule.__repr__] *)
Definition rule_repr (r : Rule.t) : string :=
  Rule.non_term r +:+ " -> " +:+ tree_str (Rule.tree r) +:+ " $"
  +:+ pretty (Rule.cost r).

Definition entry_lines (e : Py.entry) : list string :=
  let rule := Py.entry_rule e in
  let nr := pretty (Rule.nr rule) in
  let lf := "lambda t: [" +:+ PyStr.join ", " (map Py.show_expr (Py.kids e))
            +:+ "]" in
  let pf := "self.P" +:+ nr in
  [ "";
    "        #  " +:+ nr +:+ ": " +:+ rule_repr rule;
    "        self.kid_functions[" +:+ nr +:+ "] = " +:+ lf;
    "        self.nts_map[" +:+ nr +:+ "] = " +:+ PyStr.repr_list (Py.nts e);
    "        self.pat_f[" +:+ nr +:+ "] = " +:+ pf ].

(** The body of a template or acceptance function: the text is cut at
    every [;] and each piece is stripped. *)
Definition body_lines (text : string) : list string :=
  map (fun t => "        " +:+ PyStr.strip t) (PyStr.split PyStr.semicolon text).

Definition function_lines (e : Py.entry) : list string :=
  let rule := Py.entry_rule e in
  let nr := pretty (Rule.nr rule) in
  let num_nts := length (Py.nts e) in
  let args :=
    if (0 <? num_nts)%nat
    then ", " +:+ PyStr.join ", " (map (fun x => "c" +:+ pretty x) (seq 0 num_nts))
    else "" in
  [ ""; "    def P" +:+ nr +:+ "(self, tree" +:+ args +:+ "):" ]
  ++ body_lines (Rule.template rule)
  ++ (if Rule.has_acceptance rule
      then [ ""; "    def A" +:+ nr +:+ "(self, tree):" ]
           ++ body_lines (default "" (Rule.acceptance rule))
      else []).

Definition record_lines (r : Py.record) : list string :=
  let rule := Py.rule r in
  let nr := pretty (Rule.nr rule) in
  let acc := if Rule.has_acceptance rule
             then " and self.A" +:+ nr +:+ "(tree)" else "" in
  [ "            nts = self.nts(" +:+ nr +:+ ")";
    "            kids = self.kids(tree, " +:+ nr +:+ ")";
    "            if all(x.state.has_goal(y) for x, y in zip(kids, nts))"
      +:+ acc +:+ ":";
    "                c = sum(x.state.get_cost(y) for x, y in zip(kids, nts)) + "
      +:+ pretty (Rule.cost rule);
    "                tree.state.set_cost(" +:+ PyStr.dquote +:+ Rule.non_term rule
      +:+ PyStr.dquote +:+ ", c, " +:+ nr +:+ ")" ]
  ++ concat (map (fun cr =>
       [ "                # Chain rule: " +:+ rule_repr cr;
         "                tree.state.set_cost(" +:+ PyStr.dquote
           +:+ Rule.non_term cr +:+ PyStr.dquote +:+ ", c + "
           +:+ pretty (Rule.cost cr) +:+ ", " +:+ pretty (Rule.nr cr) +:+ ")" ])
       (Py.chain_rules r)).

Definition case_lines (c : Py.case) : list string :=
  ("        if " +:+ Py.show_cond (Py.condition c) +:+ ":")
  :: record_lines (Py.body c).

Definition lines (m : Py.matcher) : list string :=
  [ "#!/usr/bin/python";
    "from ppci.tree import Tree, BaseMatcher, State" ]
  ++ Py.header m
  ++ [ "";
       "class Matcher(BaseMatcher):";
       "    def __init__(self):";
       "        self.kid_functions = {}";
       "        self.nts_map = {}";
       "        self.pat_f = {}" ]
  ++ concat (map entry_lines (Py.entries m))
  ++ [ "" ]
  ++ concat (map function_lines (Py.entries m))
  ++ [ "    def burm_state(self, tree):";
       "        tree.state = State()" ]
  ++ concat (map case_lines (Py.burm_state m))
  ++ [ "";
       "    def gen(self, tree):";
       "        self.burm_label(tree)";
       "        if not tree.state.has_goal(" +:+ PyStr.dquote +:+ Py.goal m
         +:+ PyStr.dquote +:+ "):";
       "            raise Exception(" +:+ PyStr.dquote +:+ "Tree {} not covered"
         +:+ PyStr.dquote +:+ ".format(tree))";
       "        return self.apply_rules(tree, " +:+ PyStr.dquote +:+ Py.goal m
         +:+ PyStr.dquote +:+ ")" ].

End Lines.

End Output.

(** ** BaseMatcher

    Modelled from the spec: [ppci.tree.BaseMatcher], the base class of the
    emitted [Matcher], is not part of the sources.  The spec gives its
    methods: the tables are indexed by rule number; labelling runs bottom-up,
    children before their parent; selection looks up the winning rule of
    the required category, selects for each hole of that rule with the
    hole's category, from left to right, and calls the rule's action with
    the node and the results of the holes.  [depth] bounds the depth of
    the recursion of [apply_rules], as the interpreter does. *)

Module BaseMatcher.

Section Methods.

Context {R W : Type}.

(** The members that the subclass provides.  An action takes the state
    [W] of the surrounding program and returns its result with the new
    state. *)
Variable kid_functions : gmap nat (list Py.expr).
Variable nts_map : gmap nat (list string).
Variable pat_f : gmap nat (Tree.t → list R → W → R * W).
Variable burm_state : Tree.t → Res Tree.t.

Definition kids (tree : Tree.t) (rule : nat) : Res (list Tree.t) :=
  do f <- of_option (kid_functions !! rule) KeyError;
  mapM (fun e => Py.eval_expr e tree) f.

Definition nts (rule : nat) : Res (list string) :=
  of_option (nts_map !! rule) KeyError.

(** Label all nodes in the tree bottom up. *)
Fixpoint burm_label (tree : Tree.t) : Res Tree.t :=
  do cs <- mapM burm_label (Tree.children tree);
  burm_state (Tree.mk (Tree.name tree) (Tree.value tree) cs (Tree.state tree)).

(** The results of the holes, from left to right. *)
Fixpoint results (sel : Tree.t → string → W → Res (R * W))
    (l : list (Tree.t * string)) (w : W) : Res (list R * W) :=
  match l with
  | [] => Ok ([], w)
  | (kid_tree, kid_goal) :: l' =>
      do r <- sel kid_tree kid_goal w;
      do rs <- results sel l' r.2;
      Ok (r.1 :: rs.1, rs.2)
  end.

Fixpoint apply_rules (depth : nat) (tree : Tree.t) (goal : string) (w : W)
    : Res (R * W) :=
  match depth with
  | O => Raise RecursionError
  | S depth' =>
      do st <- of_option (Tree.state tree) AttributeError;
      do rule <- of_option (State.get_rule st goal) KeyError;
      do ks <- kids tree rule;
      do ns <- nts rule;
      do rs <- results (apply_rules depth') (zip ks ns) w;
      do f <- of_option (pat_f !! rule) KeyError;
      Ok (f tree rs.1 rs.2)
  end.

End Methods.

End BaseMatcher.

(** ** The meaning of the emitted class

    [A nr] is the acceptance function [A{nr}] and [P nr] the template
    function [P{nr}]; their bodies are the grammar's own text and are
    taken as given. *)

Module Matcher.

Section Emitted.

Context {R W : Type}.

Variable code : Py.matcher.
Variable A : nat → Tree.t → bool.
Variable P : nat → Tree.t → list R → W → R * W.

(** [__init__]: the assignments run in order, a later one for the same
    number replaces an earlier one. *)
Definition kid_functions : gmap nat (list Py.expr) :=
  foldl (fun d e => <[Rule.nr (Py.entry_rule e) := Py.kids e]> d) ∅
        (Py.entries code).

Definition nts_map : gmap nat (list string) :=
  foldl (fun d e => <[Rule.nr (Py.entry_rule e) := Py.nts e]> d) ∅
        (Py.entries code).

Definition pat_f : gmap nat (Tree.t → list R → W → R * W) :=
  foldl (fun d e => <[Rule.nr (Py.entry_rule e) := P (Rule.nr (Py.entry_rule e))]> d)
        ∅ (Py.entries code).

(** [all(x.state.has_goal(y) for x, y in zip(kids, nts))] *)
Fixpoint all_has_goal (l : list (Tree.t * string)) : Res bool :=
  match l with
  | [] => Ok true
  | (x, y) :: l' =>
      do st <- of_option (Tree.state x) AttributeError;
      if State.has_goal st y then all_has_goal l' else Ok false
  end.

(** [sum(x.state.get_cost(y) for x, y in zip(kids, nts))] *)
Fixpoint sum_cost (l : list (Tree.t * string)) : Res Z :=
  match l with
  | [] => Ok 0
  | (x, y) :: l' =>
      do st <- of_option (Tree.state x) AttributeError;
      do c <- of_option (State.get_cost st y) KeyError;
      do s <- sum_cost l';
      Ok (c + s)
  end.

(** [tree.state.set_cost(goal, cost, rule)] *)
Definition set_cost (tree : Tree.t) (goal : string) (cost : Z) (rule : nat)
    : Res Tree.t :=
  do st <- of_option (Tree.state tree) AttributeError;
  Ok (Tree.set_state tree (State.set_cost st goal cost rule)).

Fixpoint run_chain (crs : list Rule.t) (c : Z) (tree : Tree.t) : Res Tree.t :=
  match crs with
  | [] => Ok tree
  | cr :: crs' =>
      do tree' <- set_cost tree (Rule.non_term cr) (c + Rule.cost cr) (Rule.nr cr);
      run_chain crs' c tree'
  end.

(** The block of [emit_record]. *)
Definition run_record (r : Py.record) (tree : Tree.t) : Res Tree.t :=
  let rule := Py.rule r in
  do nts <- BaseMatcher.nts nts_map (Rule.nr rule);
  do kids <- BaseMatcher.kids kid_functions tree (Rule.nr rule);
  do ok <- all_has_goal (zip kids nts);
  if ok && (if Rule.has_acceptance rule then A (Rule.nr rule) tree else true)
  then
    do s <- sum_cost (zip kids nts);
    let c := s + Rule.cost rule in
    do tree' <- set_cost tree (Rule.non_term rule) c (Rule.nr rule);
    run_chain (Py.chain_rules r) c tree'
  else Ok tree.

Definition run_case (c : Py.case) (tree : Tree.t) : Res Tree.t :=
  do b <- Py.eval_cond (Py.condition c) tree;
  if b then run_record (Py.body c) tree else Ok tree.

Fixpoint run_cases (cs : list Py.case) (tree : Tree.t) : Res Tree.t :=
  match cs with
  | [] => Ok tree
  | c :: cs' => do tree' <- run_case c tree; run_cases cs' tree'
  end.

Definition burm_state (tree : Tree.t) : Res Tree.t :=
  run_cases (Py.burm_state code) (Tree.set_state tree State.empty).

Definition burm_label : Tree.t → Res Tree.t :=
  BaseMatcher.burm_label burm_state.

Definition apply_rules : nat → Tree.t → string → W → Res (R * W) :=
  BaseMatcher.apply_rules kid_functions nts_map pat_f.

Definition gen (depth : nat) (tree : Tree.t) (w : W) : Res (R * W) :=
  do tree' <- burm_label tree;
  do st <- of_option (Tree.state tree') AttributeError;
  if negb (State.has_goal st (Py.goal code))
  then Raise (Exception_not_covered tree')
  else apply_rules depth tree' (Py.goal code) w.

End Emitted.

End Matcher.

(** ** The command line: [main]

    The grammar is parsed into a system; the generator runs on the result.
    An exception of the first step leaves [main] before any line is
    written. *)

Definition main (tree_str : Tree.t → string) (header : list string)
    (calls : list BurgParser.call) : Res (list string) :=
  do burg_system <- BurgParser.parse header calls;
  do m <- BurgGenerator.generate burg_system;
  Ok (Output.lines tree_str m).

(** ** The spec's wording of the pattern compiler

    The two derivations of a pattern as the spec words them, to be compared
    with [compute_kids] and [emittest]. *)

Module PatternSpec.

Section Wording.

Variable system : BurgSystem.t.

Definition is_hole (t : Tree.t) : bool :=
  BurgSystem.mem (Tree.name t) (BurgSystem.non_terminals system).

(** The holes of the children [cs], the first of which is at position
    [i]. *)
Definition holes_of_children (rec : Tree.t → Py.expr → list (Py.expr * string))
    (path : Py.expr) : list Tree.t → nat → list (Py.expr * string) :=
  fix each cs i :=
    match cs with
    | [] => []
    | c :: cs' => rec c (Py.Child path i) ++ each cs' (S i)
    end.

(** Hole extraction: a non-terminal reference gives its path and its name
    as one hole; any other node gives the holes of its children, each at
    its indexed position, from left to right. *)
Fixpoint holes (t : Tree.t) (path : Py.expr) : list (Py.expr * string) :=
  if is_hole t then [(path, Tree.name t)]
  else holes_of_children holes path (Tree.children t) 0%nat.

(** The child patterns [ps], the first of which is at position [i],
    against the children of [node] at the same positions. *)
Definition children_match (rec : Tree.t → Tree.t → bool) (node : Tree.t)
    : list Tree.t → nat → bool :=
  fix each ps i :=
    match ps with
    | [] => true
    | p :: ps' =>
        (if is_hole p then true
         else match Tree.children node !! i with
              | Some child => rec p child
              | None => false
              end)
        && each ps' (S i)
    end.

(** Structural test: the names agree and, at every child position whose
    pattern is terminal-rooted, the node's child at that same position
    passes the test of that child pattern. *)
Fixpoint structural_test (pattern node : Tree.t) : bool :=
  String.eqb (Tree.name node) (Tree.name pattern)
  && children_match structural_test node (Tree.children pattern) 0%nat.

End Wording.

End PatternSpec.

(** ** Example grammars and trees *)

Module Example.

Import BurgParser.

Definition reg : Tree.t := BurgSystem.tree "reg" [].

(** The grammar of the end-to-end example:
    [reg -> CONST 1 (. emit_load(tree.value) .)] and
    [reg -> ADD(reg, reg) 2 (. emit_add(c0, c1) .)]. *)
Definition calls : list call :=
  [ Add_terminal "CONST"; Add_terminal "ADD";
    Add_rule "reg" (BurgSystem.tree "CONST" []) 1 None " emit_load(tree.value) ";
    Add_rule "reg" (BurgSystem.tree "ADD" [reg; reg]) 2 None " emit_add(c0, c1) " ].

(** [ADD(CONST(2), CONST(3))] *)
Definition input : Tree.t :=
  Tree.node "ADD" [Tree.leaf "CONST" 2; Tree.leaf "CONST" 3].

(** What the actions of the example produce: [emit_load] and [emit_add]
    return the emitted item and append it to the output sequence. *)
Inductive item : Type :=
  | emit_load (v : option Z)
  | emit_add (c0 c1 : item)
  | none.

Definition P (nr : nat) (tree : Tree.t) (cs : list item) (w : list item)
    : item * list item :=
  match nr, cs with
  | 1%nat, [] => let r := emit_load (Tree.value tree) in (r, w ++ [r])
  | 2%nat, [c0; c1] => let r := emit_add c0 c1 in (r, w ++ [r])
  | _, _ => (none, w)
  end.

(** No rule of the examples has an acceptance function. *)
Definition A (nr : nat) (tree : Tree.t) : bool := true.

(** A multiply-add grammar whose second rule has a hole before a nested
    terminal: [reg -> ADD(reg, MUL(reg, reg)) 4]. *)
Definition add_mul : Tree.t :=
  BurgSystem.tree "ADD" [reg; BurgSystem.tree "MUL" [reg; reg]].

Definition muladd_calls : list call :=
  [ Add_terminal "CONST"; Add_terminal "ADD"; Add_terminal "MUL";
    Add_rule "reg" (BurgSystem.tree "CONST" []) 1 None "";
    Add_rule "reg" add_mul 4 None "" ].

(** [ADD(CONST, MUL(CONST, CONST))] *)
Definition muladd_input : Tree.t :=
  Tree.node "ADD" [Tree.leaf "CONST" 1;
                   Tree.node "MUL" [Tree.leaf "CONST" 2; Tree.leaf "CONST" 3]].

(** A grammar with a chain rule: [reg -> CONST 1] and [rc -> reg 0]. *)
Definition chain_pre : list call :=
  [ Add_terminal "CONST";
    Add_rule "reg" (BurgSystem.tree "CONST" []) 1 None "" ].

Definition chain_calls : list call :=
  chain_pre ++ [Add_rule "rc" reg 0 None ""].

Definition system_of (calls : list call) : BurgSystem.t :=
  match parse [] calls with Ok s => s | Raise _ => BurgSystem.init end.

Definition chain_pre_system : BurgSystem.t :=
  Eval vm_compute in system_of chain_pre.

Definition chain_system : BurgSystem.t :=
  Eval vm_compute in system_of chain_calls.

(** Two chain rules in a row: [reg -> CONST 1], [rc -> reg 0] and
    [mem -> rc 0]. *)
Definition two_hop_calls : list call :=
  chain_calls ++ [Add_rule "mem" (BurgSystem.tree "rc" []) 0 None ""].

Definition code_of (calls : list call) : Py.matcher :=
  match BurgGenerator.generate (system_of calls) with
  | Ok m => m
  | Raise _ => Py.mk_matcher [] [] [] ""
  end.

Definition system : BurgSystem.t := Eval vm_compute in system_of calls.

Definition code : Py.matcher := Eval vm_compute in code_of calls.

Definition two_hop_system : BurgSystem.t :=
  Eval vm_compute in system_of two_hop_calls.

Definition two_hop_code : Py.matcher := Eval vm_compute in code_of two_hop_calls.

(** The case of [burm_state] for [reg -> ADD(reg, reg)], and the root of
    [input] when that case runs: its children are labelled and its own
    state is still empty. *)
Definition add_case : Py.case :=
  Eval vm_compute in
    match Py.burm_state code with
    | [_; c] => c
    | _ => Py.mk_case (Py.Test (Py.Var "tree") "" []) (Py.mk_record
             (Rule.mk "" (Tree.node "" []) 0 None "" 0) [])
    end.

Definition labelled_leaf (v : Z) : Tree.t :=
  Tree.mk "CONST" (Some v) [] (Some {[ "reg" := (1, 1%nat) ]}).

Definition root_before : Tree.t :=
  Tree.mk "ADD" None [labelled_leaf 2; labelled_leaf 3] (Some ∅).

(** [ADD()], a node named [ADD] without children. *)
Definition bare_add : Tree.t := Tree.node "ADD" [].

End Example.

(** ** Well-formed symbol tables

    The dict of the source has one entry per key, and [install] stores
    under [name] a symbol of that name. *)

Module Invariant.

Definition symbols_wf (d : list (string * Symbol.t)) : Prop :=
  NoDup d.*1 ∧ Forall (λ kv, Symbol.name kv.2 = kv.1) d.

Definition wf (s : BurgSystem.t) : Prop := symbols_wf (BurgSystem.symbols s).

(** The class of the symbol stored under [nm]. *)
Definition kind (s : BurgSystem.t) (nm : string) : option Symbol.cls :=
  Symbol.type <$> BurgSystem.lookup nm (BurgSystem.symbols s).

(** [install(nm, Nonterm)] on a table where [nm] is not a terminal. *)
Definition ensure (nm : string) (d : list (string * Symbol.t))
    : list (string * Symbol.t) :=
  match BurgSystem.lookup nm d with
  | Some _ => d
  | None => d ++ [(nm, Symbol.Nonterm nm [])]
  end.

(** [sy.chain_rules.append(rule)] *)
Definition file_rule (rule : Rule.t) (sy : Symbol.t) : Symbol.t :=
  match sy with
  | Symbol.Nonterm n crs => Symbol.Nonterm n (crs ++ [rule])
  | Symbol.Term n => Symbol.Term n
  end.

(** The chain rules filed under [nm]. *)
Definition chain_rules (s : BurgSystem.t) (nm : string) : list Rule.t :=
  match BurgSystem.lookup nm (BurgSystem.symbols s) with
  | Some (Symbol.Nonterm _ crs) => crs
  | _ => []
  end.

(** The test of [add_rule] for a chain rule. *)
Definition is_chain (s : BurgSystem.t) (tree : Tree.t) : bool :=
  (length (Tree.children tree) =? 0)%nat
  && negb (BurgSystem.mem (Tree.name tree) (BurgSystem.terminals s)).

(** The rule object that [add_rule] creates. *)
Definition new_rule (s : BurgSystem.t) (nt : string) (tree : Tree.t) (cost : Z)
    (acceptance : option string) (template : string) : Rule.t :=
  Rule.mk nt tree cost acceptance
    (if PyStr.truthy (PyStr.strip template) then PyStr.strip template
     else "pass")
    (S (length (BurgSystem.rules s))).

(** The system that a call of [add_rule] leaves when it does not raise. *)
Definition add_rule_result (s : BurgSystem.t) (nt : string) (tree : Tree.t)
    (cost : Z) (acceptance : option string) (template : string)
    : BurgSystem.t :=
  let rule := new_rule s nt tree cost acceptance template in
  let d := BurgSystem.symbols s in
  let d1 := if is_chain s tree
            then BurgSystem.append_chain_rule (Tree.name tree) rule
                   (ensure (Tree.name tree) d)
            else d in
  BurgSystem.mk
    (BurgSystem.rules s ++ [rule])
    (ensure nt d1)
    (if BurgSystem.goal_unset s
     then Some (if is_chain s tree && PyStr.truthy (Tree.name tree)
                then Tree.name tree else nt)
     else BurgSystem.goal s)
    (BurgSystem.header_lines s).

(** A symbol keeps its class and its name; a chain list only grows at its
    end. *)
Definition grows (sy sy' : Symbol.t) : Prop :=
  match sy, sy' with
  | Symbol.Term n, Symbol.Term n' => n = n'
  | Symbol.Nonterm n crs, Symbol.Nonterm n' crs' =>
      n = n' ∧ ∃ more, crs' = crs ++ more
  | _, _ => False
  end.

Definition extends (s s' : BurgSystem.t) : Prop :=
  ∀ nm sy,
    BurgSystem.lookup nm (BurgSystem.symbols s) = Some sy →
    ∃ sy', BurgSystem.lookup nm (BurgSystem.symbols s') = Some sy'
           ∧ grows sy sy'.

(** The left-hand side of every rule is a non-terminal of the table. *)
Definition rules_wf (s : BurgSystem.t) : Prop :=
  Forall (λ r, kind s (Rule.non_term r) = Some Symbol.NontermC)
         (BurgSystem.rules s).

(** What holds of every system built through the construction API. *)
Definition inv (s : BurgSystem.t) : Prop := wf s ∧ rules_wf s.

(** A rule carries its position in the list of rules, counted from 1. *)
Definition numbered (s : BurgSystem.t) : Prop :=
  ∀ i r, BurgSystem.rules s !! i = Some r → Rule.nr r = S i.

(** A rule filed under [X] is a rule of the system whose pattern is [X]. *)
Definition chains_wf (s : BurgSystem.t) : Prop :=
  ∀ X cr, cr ∈ chain_rules s X →
          cr ∈ BurgSystem.rules s ∧ Tree.name (Rule.tree cr) = X.

Definition built (s : BurgSystem.t) : Prop :=
  inv s ∧ numbered s ∧ chains_wf s.

Definition is_add_terminal (c : BurgParser.call) : bool :=
  match c with BurgParser.Add_terminal _ => true | _ => false end.

End Invariant.

(** ** Labelling: what a record leaves in the state, and the shape of a tree *)

Module Labelling.

(** The sum of the costs of the holes. *)
Definition total (costs : list Z) : Z := foldr Z.add 0 costs.

(** [c] is the best cost that the kid [xy.1] has for the category [xy.2]. *)
Definition hole_cost (xy : Tree.t * string) (c : Z) : Prop :=
  ∃ st r, Tree.state xy.1 = Some st ∧ st !! xy.2 = Some (c, r).

(** The offers of the chain rules [crs] for the candidate cost [c]. *)
Definition offer_chain (crs : list Rule.t) (c : Z) (st : State.t) : State.t :=
  foldl (λ st cr, State.set_cost st (Rule.non_term cr) (c + Rule.cost cr)
                                 (Rule.nr cr)) st crs.

(** The state after the record [r] has run with the candidate cost [c]. *)
Definition record_state (r : Py.record) (c : Z) (st : State.t) : State.t :=
  offer_chain (Py.chain_rules r) c
    (State.set_cost st (Rule.non_term (Py.rule r)) c (Rule.nr (Py.rule r))).

Section Shape.

Variable code : Py.matcher.

(** The test of the case [c] can be evaluated on the node [n], and when it
    holds, the kid functions of its rule find a child at every position
    they index. *)
Definition probe_ok (c : Py.case) (n : Tree.t) : bool :=
  match Py.eval_cond (Py.condition c) n with
  | Ok true =>
      match BaseMatcher.nts (Matcher.nts_map code) (Rule.nr (Py.rule (Py.body c))),
            BaseMatcher.kids (Matcher.kid_functions code) n
                             (Rule.nr (Py.rule (Py.body c))) with
      | Ok _, Ok _ => true
      | _, _ => false
      end
  | Ok false => true
  | Raise _ => false
  end.

(** Every node of the tree has the children that the emitted code
    indexes on it. *)
Fixpoint well_shaped (t : Tree.t) : bool :=
  forallb (λ c, probe_ok c t) (Py.burm_state code)
  && forallb well_shaped (Tree.children t).

End Shape.

End Labelling.

(** The exceptions that selection can raise. *)
Definition selection_error (e : exn) : Prop :=
  e = RecursionError ∨ e = AttributeError ∨ e = KeyError ∨ e = IndexError.

(** ** Selection: why every entry of a state can be followed

    An entry [(c, nr)] for a category [Y] in the state of a node is
    justified by the rule [nr]: either the rule is rooted at a terminal,
    its kids are found below the node and have the categories of its holes,
    or it is a chain rule from a category [X] that has an entry at the same
    node, of a cost that is not higher, and of a lower rank when the costs
    are equal. *)

Module Selection.

Definition is_child (p : Py.expr) : Prop :=
  match p with Py.Child _ _ => True | Py.Var _ => False end.

Section Justified.

Variable system : BurgSystem.t.

Definition kids_of (r : Rule.t) : list Py.expr :=
  (BurgGenerator.compute_kids system (Rule.tree r) (Py.Var "t")).1.

Definition nts_of (r : Rule.t) : list string :=
  (BurgGenerator.compute_kids system (Rule.tree r) (Py.Var "t")).2.

Definition has_category (kg : Tree.t * string) : Prop :=
  ∃ st, Tree.state kg.1 = Some st ∧ is_Some (st !! kg.2).

Definition direct_ok (n : Tree.t) (r : Rule.t) : Prop :=
  PatternSpec.is_hole system (Rule.tree r) = false
  ∧ ∃ ks, mapM (λ e, Py.eval_expr e n) (kids_of r) = Ok ks
          ∧ Forall has_category (zip ks (nts_of r)).

Definition chain_ok (st : State.t) (rank : string → nat) (Y : string) (c : Z)
    (r : Rule.t) : Prop :=
  PatternSpec.is_hole system (Rule.tree r) = true
  ∧ ∃ cX nrX,
      st !! Tree.name (Rule.tree r) = Some (cX, nrX)
      ∧ cX ≤ c
      ∧ (cX < c ∨ (rank (Tree.name (Rule.tree r)) < rank Y)%nat).

Definition entry_ok (n : Tree.t) (st : State.t) (rank : string → nat)
    (Y : string) (c : Z) (nr : nat) : Prop :=
  0 ≤ c
  ∧ ∃ r, r ∈ BurgSystem.rules system ∧ Rule.nr r = nr
         ∧ (direct_ok n r ∨ chain_ok st rank Y c r).

Definition state_ok (n : Tree.t) (st : State.t) : Prop :=
  ∃ rank, ∀ Y c nr, st !! Y = Some (c, nr) → entry_ok n st rank Y c nr.

Definition node_ok (n : Tree.t) : Prop :=
  ∃ st, Tree.state n = Some st ∧ state_ok n st.

Fixpoint tree_ok (t : Tree.t) : Prop :=
  node_ok t
  ∧ (fix all (l : list Tree.t) : Prop :=
       match l with [] => True | c :: l' => tree_ok c ∧ all l' end)
      (Tree.children t).

(** The costs of the grammar are not negative. *)
Definition costs_ok : Prop :=
  Forall (λ r, 0 ≤ Rule.cost r) (BurgSystem.rules system).

End Justified.

(** Selection for the category [Y] at the node [n] returns, whatever the
    state of the surrounding program, once the bound on the depth of the
    recursion is large enough. *)
Definition returns {R W : Type} (code : Py.matcher)
    (P : nat → Tree.t → list R → W → R * W) (n : Tree.t) (Y : string) : Prop :=
  ∃ d0 : nat, ∀ (d : nat) (w : W),
    (d0 ≤ d)%nat → ∃ res, Matcher.apply_rules code P d n Y w = Ok res.

End Selection.

(** ** The lexer of grammar files

    [BurgLexer.tokenize] cuts a grammar file into the header, which it hands
    over as one token, and the rules sections, whose lines go to the
    tokenizer of the base class.  A token is the record of the arguments of
    [Token(typ, val, loc)]. *)

Module BurgLexer.

(** [SourceLocation(filename, row, col, length)] *)
Record SourceLocation : Type :=
  mk_loc { filename : string; row : Z; col : Z; ln : Z }.

(** The value of a token: a text, a number, or the list of header lines. *)
Inductive value : Type :=
  | Text (s : string)
  | Number (n : Z)
  | Lines (l : list string).

Record Token : Type :=
  mk_token { typ : string; val : value; loc : SourceLocation }.

(** What a generator gives to the loop that consumes it: the items that it
    yields and, when it ends by raising, the exception. *)
Definition stream : Type := (list Token * option exn)%type.

Definition newline : Ascii.ascii := Ascii.ascii_of_nat 10.

(** The lines that the loop of [tokenize] acts on: every line is stripped,
    and a line that is empty then is skipped. *)
Definition significant (lines : list string) : list string :=
  filter (λ line, PyStr.truthy line = true) (map PyStr.strip lines).

Section Tokenize.

(** [self.filename] *)
Variable self_filename : string.

(** [super().tokenize(line)]: the tokenizer of [baselex.BaseLexer] on one
    line of a rules section. *)
Variable base_tokenize : string → stream.

Definition header_token (header_lines : list string) : Token :=
  mk_token "header" (Lines header_lines) (mk_loc self_filename 0 0 0).

Definition section_token : Token :=
  mk_token "%%" (Text "%%") (mk_loc self_filename 0 0 0).

(** The [for] loop over the lines.  [header_lines] is appended to in
    section 0 only, so the list that the header token carries has its final
    value when the token is yielded. *)
Fixpoint tokenize_lines (lines : list string) (header_lines : list string)
    (section : nat) : stream :=
  match lines with
  | [] => ([], None)
  | line :: lines' =>
      let line := PyStr.strip line in
      if negb (PyStr.truthy line)
      then tokenize_lines lines' header_lines section
      else if String.eqb line "%%"
      then
        let section := S section in
        let rest := tokenize_lines lines' header_lines section in
        ((if (section =? 1)%nat then [header_token header_lines] else [])
         ++ section_token :: rest.1, rest.2)
      else if (section =? 0)%nat
      then tokenize_lines lines' (header_lines ++ [line]) section
      else
        let tks := base_tokenize line in
        match tks.2 with
        | Some e => (tks.1, Some e)
        | None =>
            let rest := tokenize_lines lines' header_lines section in
            (tks.1 ++ rest.1, rest.2)
        end
  end.

Definition tokenize (txt : string) : stream :=
  tokenize_lines (PyStr.split newline txt) [] 0%nat.

(** The tokens of the lines that follow the first separator: a further
    separator gives its token, any other significant line gives the tokens
    of the base class, up to the first line on which that tokenizer
    raises. *)
Fixpoint rules_tokens (lines : list string) : stream :=
  match lines with
  | [] => ([], None)
  | line :: lines' =>
      if String.eqb line "%%"
      then (section_token :: (rules_tokens lines').1, (rules_tokens lines').2)
      else
        match (base_tokenize line).2 with
        | Some e => ((base_tokenize line).1, Some e)
        | None => ((base_tokenize line).1 ++ (rules_tokens lines').1,
                   (rules_tokens lines').2)
        end
  end.

End Tokenize.

End BurgLexer.

Module LexerExample.

(** A tokenizer for the lines of the rules sections that gives one token
    per line. *)
Definition one_token (line : string) : BurgLexer.stream :=
  ([BurgLexer.mk_token "id" (BurgLexer.Text line)
      (BurgLexer.mk_loc "x.brg" 0 0 0)], None).

Definition header : list string := ["import os"; ""; "  from a import b "].

Definition rules : list string := [" %terminal ADD"; ""; "%%"; "reg: ADD"].

End LexerExample.

(** ** The construction API as it leaves the system

    [add_rule] and [non_term] change the system in place, so a call that
    raises leaves behind what it has done up to the [raise].  Here a call
    returns the system that it leaves together with its outcome. *)

Module Mutation.

Definition non_term (s : BurgSystem.t) (nm : string)
    : BurgSystem.t * Res Symbol.t :=
  if BurgSystem.mem nm (BurgSystem.terminals s)
  then (s, Raise (BurgError "Cannot redefine terminal"))
  else
    let s1 := if BurgSystem.goal_unset s
              then BurgSystem.mk (BurgSystem.rules s) (BurgSystem.symbols s)
                                 (Some nm) (BurgSystem.header_lines s)
              else s in
    match BurgSystem.install s1 nm Symbol.NontermC with
    | Ok r => (r.1, Ok r.2)
    | Raise e => (s1, Raise e)
    end.

(** [rule.nr = n] *)
Definition set_nr (r : Rule.t) (n : nat) : Rule.t :=
  Rule.mk (Rule.non_term r) (Rule.tree r) (Rule.cost r) (Rule.acceptance r)
          (Rule.template r) n.

(** The effect of [rule.nr = n] on the chain list of [nm], whose last
    element is that rule object. *)
Fixpoint number_filed (nm : string) (n : nat) (d : list (string * Symbol.t))
    : list (string * Symbol.t) :=
  match d with
  | [] => []
  | (k, v) :: d' =>
      if String.eqb k nm
      then (k, match v with
               | Symbol.Nonterm x crs =>
                   Symbol.Nonterm x
                     (alter (λ r, set_nr r n) (pred (length crs)) crs)
               | Symbol.Term x => Symbol.Term x
               end) :: d'
      else (k, v) :: number_filed nm n d'
  end.

Definition add_rule (s : BurgSystem.t) (nt : string) (tree : Tree.t) (cost : Z)
    (acceptance : option string) (template : string)
    : BurgSystem.t * option exn :=
  let template := PyStr.strip template in
  let template := if negb (PyStr.truthy template) then "pass" else template in
  let rule := Rule.mk nt tree cost acceptance template 0 in
  let chain := (length (Tree.children tree) =? 0)%nat
               && negb (BurgSystem.mem (Tree.name tree) (BurgSystem.terminals s)) in
  let r1 :=
    if chain
    then
      match non_term s (Tree.name tree) with
      | (s', Ok _) =>
          (BurgSystem.mk (BurgSystem.rules s')
             (BurgSystem.append_chain_rule (Tree.name tree) rule
                (BurgSystem.symbols s'))
             (BurgSystem.goal s') (BurgSystem.header_lines s'), None)
      | (s', Raise e) => (s', Some e)
      end
    else (s, None) in
  match r1.2 with
  | Some e => (r1.1, Some e)
  | None =>
      match non_term r1.1 (Rule.non_term rule) with
      | (s2, Raise e) => (s2, Some e)
      | (s2, Ok _) =>
          let n := S (length (BurgSystem.rules s2)) in
          (BurgSystem.mk
             (BurgSystem.rules s2 ++ [set_nr rule n])
             (if chain
              then number_filed (Tree.name tree) n (BurgSystem.symbols s2)
              else BurgSystem.symbols s2)
             (BurgSystem.goal s2) (BurgSystem.header_lines s2), None)
      end
  end.

End Mutation.

(** ** Patterns whose holes come last

    At every node of the pattern, the children that are rooted at a
    terminal come before the children that are non-terminals. *)

Module PatternShape.

Section Shape.

Variable system : BurgSystem.t.

Definition terminals_first (rec : Tree.t → bool) : list Tree.t → bool :=
  fix each ps :=
    match ps with
    | [] => true
    | p :: ps' =>
        if PatternSpec.is_hole system p
        then forallb (PatternSpec.is_hole system) ps'
        else rec p && each ps'
    end.

Fixpoint holes_last (pattern : Tree.t) : bool :=
  terminals_first holes_last (Tree.children pattern).

End Shape.

End PatternShape.

(** ** Labels that name rules of their category *)

Module Labels.

Section Sound.

Variable system : BurgSystem.t.

(** The rule number recorded for the category [Y] is the number of a rule
    of the grammar whose left-hand side is [Y]. *)
Definition entry_sound (Y : string) (nr : nat) : Prop :=
  ∃ r, r ∈ BurgSystem.rules system ∧ Rule.nr r = nr ∧ Rule.non_term r = Y.

Definition state_sound (st : State.t) : Prop :=
  ∀ Y c nr, st !! Y = Some (c, nr) → entry_sound Y nr.

Fixpoint tree_sound (t : Tree.t) : Prop :=
  (∃ st, Tree.state t = Some st ∧ state_sound st)
  ∧ (fix all (l : list Tree.t) : Prop :=
       match l with [] => True | c :: l' => tree_sound c ∧ all l' end)
      (Tree.children t).

End Sound.

End Labels.

(** ** Templates without a statement *)

Module Template.

(** The number of [;] in a text. *)
Definition separators (text : string) : nat :=
  length (filter (λ c, c = PyStr.semicolon) (String.list_ascii_of_string text)).

(** The text consists of white space and [;] only. *)
Definition only_separators (text : string) : bool :=
  forallb (λ c, PyStr.isspace c || Ascii.eqb c PyStr.semicolon)
          (String.list_ascii_of_string text).

End Template.

(** ** Paths

    [t.children[0]] goes through [t]; [t.children[0].children[1]] goes
    through [t.children[0]] and through [t]. *)

Module Path.

(** [q] is [e] or a path that [e] goes through. *)
Fixpoint reaches (q e : Py.expr) : Prop :=
  q = e ∨ match e with
          | Py.Child e' _ => reaches q e'
          | Py.Var _ => False
          end.

(** The number of [.children[i]] steps of a path. *)
Fixpoint depth (e : Py.expr) : nat :=
  match e with
  | Py.Var _ => 0
  | Py.Child e' _ => S (depth e')
  end.

End Path.

(** ** Further example grammars *)

Module MoreExamples.

Import BurgParser.

(** A leaf pattern that comes before the declaration of its terminal:
    [reg -> CONST 1] and then [%terminal CONST]. *)
Definition leaf_first_calls : list call :=
  [ Add_rule "reg" (BurgSystem.tree "CONST" []) 1 None "" ].

Definition leaf_first_system : BurgSystem.t :=
  Eval vm_compute in Example.system_of leaf_first_calls.

(** A grammar that only declares terminals. *)
Definition terminals_only_calls : list call :=
  [ Add_terminal "CONST"; Add_terminal "ADD" ].

Definition terminals_only_system : BurgSystem.t :=
  Eval vm_compute in Example.system_of terminals_only_calls.

(** [SUB(CONST(1))], whose root has no rule in the example grammar. *)
Definition sub_tree : Tree.t := Tree.node "SUB" [Tree.leaf "CONST" 1].

Definition labelled_sub_tree : Tree.t :=
  Eval vm_compute in
    match Matcher.burm_label Example.code Example.A sub_tree with
    | Ok t => t
    | Raise _ => sub_tree
    end.

(** [Example.input] with the states that labelling gives it. *)
Definition labelled_input : Tree.t :=
  Eval vm_compute in
    match Matcher.burm_label Example.code Example.A Example.input with
    | Ok t => t
    | Raise _ => Example.input
    end.

(** [Example.root_before] once [burm_state] has run on it. *)
Definition labelled_root : Tree.t :=
  Eval vm_compute in
    match Matcher.burm_state Example.code Example.A Example.root_before with
    | Ok t => t
    | Raise _ => Example.root_before
    end.

(** The multiply-add grammar of [Example.muladd_calls], and a pattern for
    it whose nested terminal comes first: [ADD(MUL(reg, reg), reg)]. *)
Definition muladd_system : BurgSystem.t :=
  Eval vm_compute in Example.system_of Example.muladd_calls.

Definition muladd_code : Py.matcher :=
  Eval vm_compute in Example.code_of Example.muladd_calls.

(** [reg -> ADD(reg, MUL(reg, reg)) 4], the second rule of that grammar. *)
Definition muladd_rule : Rule.t :=
  Rule.mk "reg" Example.add_mul 4 None "pass" 2.

(** The root of [Example.muladd_input] when [burm_state] runs on it: its
    children carry their labels, the leaves [reg] at cost 1 and the [MUL]
    node, which no rule is rooted at, nothing. *)
Definition muladd_root : Tree.t :=
  Tree.mk "ADD" None
    [Example.labelled_leaf 1;
     Tree.mk "MUL" None [Example.labelled_leaf 2; Example.labelled_leaf 3]
             (Some ∅)]
    None.

Definition mul_add : Tree.t :=
  BurgSystem.tree "ADD" [BurgSystem.tree "MUL" [Example.reg; Example.reg];
                         Example.reg].

(** [ADD(MUL(CONST, CONST), CONST)] *)
Definition mul_add_input : Tree.t :=
  Tree.node "ADD" [Tree.node "MUL" [Tree.leaf "CONST" 2; Tree.leaf "CONST" 3];
                   Tree.leaf "CONST" 1].

End MoreExamples.

(** * Theorems *)

(** ** Hole extraction *)

Section Holes.

Variable system : BurgSystem.t.

Abbreviation compute_kids := (BurgGenerator.compute_kids system).
Abbreviation is_hole := (PatternSpec.is_hole system).

Lemma compute_kids_eq t root_name :
  compute_kids t root_name =
  if is_hole t then ([root_name], [Tree.name t])
  else BurgGenerator.compute_kids_loop compute_kids root_name
         (Tree.children t) 0%nat [] [].
Proof. by destruct t. Qed.

(** The loop appends to its accumulators the results of the children, each
    computed at its own index. *)
Lemma compute_kids_loop_spec (rec : Tree.t → Py.expr → list Py.expr * list string)
    root_name cs i k nts :
  BurgGenerator.compute_kids_loop rec root_name cs i k nts =
  (k ++ concat (imap (λ j c, (rec c (Py.Child root_name (i + j))).1) cs),
   nts ++ concat (imap (λ j c, (rec c (Py.Child root_name (i + j))).2) cs)).
Proof.
  revert i k nts. induction cs as [|c cs IH]; intros i k nts; simpl.
  - by rewrite !app_nil_r.
  - rewrite IH, Nat.add_0_r, <- !app_assoc.
    f_equal; do 3 f_equal; apply imap_ext; intros j x _; simpl;
      do 3 f_equal; lia.
Qed.

Lemma holes_eq t path :
  PatternSpec.holes system t path =
  if is_hole t then [(path, Tree.name t)]
  else PatternSpec.holes_of_children (PatternSpec.holes system) path
         (Tree.children t) 0%nat.
Proof. by destruct t. Qed.

Lemma compute_kids_loop_holes root_name cs :
  Forall (λ c, ∀ p, compute_kids c p =
                    ((PatternSpec.holes system c p).*1,
                     (PatternSpec.holes system c p).*2)) cs →
  ∀ i k nts,
    BurgGenerator.compute_kids_loop compute_kids root_name cs i k nts =
    (k ++ (PatternSpec.holes_of_children (PatternSpec.holes system)
             root_name cs i).*1,
     nts ++ (PatternSpec.holes_of_children (PatternSpec.holes system)
               root_name cs i).*2).
Proof.
  induction 1 as [|c cs Hc _ IH]; intros i k nts; simpl.
  - by rewrite !app_nil_r.
  - rewrite IH, Hc. simpl. by rewrite !fmap_app, !app_assoc.
Qed.

Lemma compute_kids_holes t :
  ∀ root_name,
    compute_kids t root_name =
    ((PatternSpec.holes system t root_name).*1,
     (PatternSpec.holes system t root_name).*2).
Proof.
  induction t as [nm v cs st IH] using Tree.ind'. intros root_name.
  rewrite compute_kids_eq, holes_eq.
  destruct (is_hole _); [done|].
  by rewrite (compute_kids_loop_holes _ _ IH).
Qed.

(** C9. Hole extraction returns two sequences of equal length, the paths
    and the required non-terminals of the holes of the spec's depth-first,
    left-to-right walk: a non-terminal reference gives its current path and
    its name as one hole, any other pattern node gives the concatenation,
    in child order, of the holes of its children computed at their indexed
    positions. *)
Theorem compute_kids_parallel_sequences (t : Tree.t) (root_name : Py.expr) :
  length (compute_kids t root_name).1 = length (compute_kids t root_name).2
  ∧ compute_kids t root_name =
      ((PatternSpec.holes system t root_name).*1,
       (PatternSpec.holes system t root_name).*2)
  ∧ compute_kids t root_name =
      if BurgSystem.mem (Tree.name t) (BurgSystem.non_terminals system)
      then ([root_name], [Tree.name t])
      else (concat (imap (λ i c, (compute_kids c (Py.Child root_name i)).1)
                         (Tree.children t)),
            concat (imap (λ i c, (compute_kids c (Py.Child root_name i)).2)
                         (Tree.children t))).
Proof.
  split_and!.
  - rewrite compute_kids_holes. simpl. by rewrite !length_fmap.
  - apply compute_kids_holes.
  - rewrite compute_kids_eq. unfold PatternSpec.is_hole.
    destruct (BurgSystem.mem _ _); [done|].
    by rewrite compute_kids_loop_spec.
Qed.

End Holes.

(** ** The structural test *)

(** C2. On the pattern [ADD(reg, MUL(reg, reg))] the emitted test probes
    child 0 for the name [MUL], where the pattern has it at position 1 and
    where [compute_kids] looks for its holes: the node
    [ADD(CONST, MUL(CONST, CONST))] has the pattern's shape and fails the
    emitted test. *)
Theorem emittest_numbers_filtered_children :
  ∃ system,
    BurgParser.parse [] Example.muladd_calls = Ok system
    ∧ Py.show_cond (BurgGenerator.emittest system Example.add_mul (Py.Var "tree"))
      = "tree.name == " +:+ PyStr.dquote +:+ "ADD" +:+ PyStr.dquote
        +:+ " and (tree.children[0].name == " +:+ PyStr.dquote +:+ "MUL"
        +:+ PyStr.dquote +:+ ")"
    ∧ map Py.show_expr
          (BurgGenerator.compute_kids system Example.add_mul (Py.Var "t")).1
      = ["t.children[0]"; "t.children[1].children[0]";
         "t.children[1].children[1]"]
    ∧ PatternSpec.structural_test system Example.add_mul Example.muladd_input
      = true
    ∧ Py.eval_cond (BurgGenerator.emittest system Example.add_mul (Py.Var "tree"))
                   Example.muladd_input
      = Ok false.
Proof. eexists. split; [vm_compute; reflexivity|]. vm_compute. done. Qed.

(** ** Templates *)

Lemma lstrip_all_space s : PyStr.all_space s = true → PyStr.lstrip s = "".
Proof.
  induction s as [|c s IH]; simpl; [done|].
  intros [Hc Hs]%andb_true_iff. rewrite Hc. auto.
Qed.

Lemma strip_all_space s : PyStr.all_space s = true → PyStr.strip s = "".
Proof. intros H. unfold PyStr.strip. by rewrite (lstrip_all_space _ H). Qed.

Lemma install_rules s nm c r :
  BurgSystem.install s nm c = Ok r → BurgSystem.rules r.1 = BurgSystem.rules s.
Proof.
  unfold BurgSystem.install. intros H.
  destruct (BurgSystem.lookup _ _) as [sy|]; simplify_eq/=; [|done].
  destruct (Symbol.cls_eqb _ _); by simplify_eq/=.
Qed.

Lemma non_term_rules s nm r :
  BurgSystem.non_term s nm = Ok r → BurgSystem.rules r.1 = BurgSystem.rules s.
Proof.
  unfold BurgSystem.non_term. intros H.
  destruct (BurgSystem.mem _ _); [done|].
  apply install_rules in H. rewrite H. by destruct (BurgSystem.goal_unset s).
Qed.

Lemma bind_Ok {A B} (m : Res A) (k : A → Res B) b :
  bind m k = Ok b ↔ ∃ a, m = Ok a ∧ k a = Ok b.
Proof. destruct m; simpl; naive_solver. Qed.

Lemma add_rule_rules s nt tree cost acceptance template s' :
  BurgSystem.add_rule s nt tree cost acceptance template = Ok s' →
  BurgSystem.rules s' =
  BurgSystem.rules s ++
    [Rule.mk nt tree cost acceptance
       (if PyStr.truthy (PyStr.strip template) then PyStr.strip template
        else "pass")
       (S (length (BurgSystem.rules s)))].
Proof.
  unfold BurgSystem.add_rule.
  intros (s1 & Hs1 & (r & Hr & ?)%bind_Ok)%bind_Ok. simplify_eq/=.
  rewrite (non_term_rules _ _ _ Hr).
  assert (BurgSystem.rules s1 = BurgSystem.rules s) as ->.
  { destruct (_ && _); [|by simplify_eq].
    apply bind_Ok in Hs1 as (r0 & Hr0 & ?). simplify_eq/=.
    by apply non_term_rules in Hr0. }
  by destruct (PyStr.truthy _).
Qed.

(** C10. The rule that [add_rule] stores carries the action text stripped
    of the white space at both ends, or [pass] when nothing is left (as for
    a text of white space only); the body of the emitted template function
    holds one line per piece of that text between [;], each piece
    stripped, so the body of a rule without action text is the single line
    [pass], and the text of an action is not copied as it is. *)
Theorem add_rule_template s nt tree cost acceptance template s' :
  BurgSystem.add_rule s nt tree cost acceptance template = Ok s' →
  ∃ rule,
    BurgSystem.rules s' = BurgSystem.rules s ++ [rule]
    ∧ Rule.template rule =
        (if PyStr.truthy (PyStr.strip template) then PyStr.strip template
         else "pass")
    ∧ (PyStr.all_space template = true → Rule.template rule = "pass")
    ∧ (∀ kids nts,
         ∃ args rest,
           Output.function_lines (Py.mk_entry rule kids nts) =
           [""; "    def P" +:+ pretty (Rule.nr rule) +:+ "(self, tree" +:+ args
                +:+ "):"]
           ++ map (λ t, "        " +:+ PyStr.strip t)
                  (PyStr.split PyStr.semicolon (Rule.template rule))
           ++ rest
           ∧ (Rule.template rule = "pass" →
              Output.function_lines (Py.mk_entry rule kids nts) =
              [""; "    def P" +:+ pretty (Rule.nr rule) +:+ "(self, tree"
                   +:+ args +:+ "):"; "        pass"] ++ rest))
    ∧ Output.body_lines "emit(a) ;  emit(b)" = ["        emit(a)"; "        emit(b)"].
Proof.
  intros H. eexists. split; [by apply add_rule_rules|]. simpl.
  split_and!; [done| |intros kids nts; do 2 eexists; split; [done|]|done].
  - intros Hs. by rewrite (strip_all_space _ Hs).
  - unfold Output.function_lines. simpl. by intros ->.
Qed.

Lemma add_rule_template_witness :
  ∃ rule,
    Rule.template rule = "pass"
    ∧ Output.function_lines (Py.mk_entry rule [] [])
      = [""; "    def P1(self, tree):"; "        pass"].
Proof.
  destruct (add_rule_template BurgSystem.init "reg" (BurgSystem.tree "CONST" [])
              1 None "  "
              (Invariant.add_rule_result BurgSystem.init "reg"
                 (BurgSystem.tree "CONST" []) 1 None "  ") eq_refl)
    as (rule & Hrules & Htemplate & _).
  exists rule. injection Hrules as <-. split; reflexivity.
Defined.

(** ** The symbol table *)

Section SymbolTable.

Implicit Types (d : list (string * Symbol.t)) (nm : string) (s : BurgSystem.t).

Lemma lookup_Some_elem d nm v :
  BurgSystem.lookup nm d = Some v → (nm, v) ∈ d.
Proof.
  induction d as [|[k w] d IH]; simpl; [done|].
  destruct (String.eqb_spec k nm) as [->|Hne].
  - intros [= ->]. left.
  - intros H. right. auto.
Qed.

Lemma lookup_None d nm : BurgSystem.lookup nm d = None ↔ nm ∉ d.*1.
Proof.
  induction d as [|[k w] d IH]; simpl.
  - split; [intros _; apply not_elem_of_nil|done].
  - rewrite not_elem_of_cons.
    destruct (String.eqb_spec k nm) as [->|Hne]; naive_solver.
Qed.

Lemma lookup_elem d nm v :
  NoDup d.*1 → (nm, v) ∈ d → BurgSystem.lookup nm d = Some v.
Proof.
  induction d as [|[k w] d IH]; simpl; intros Hnd Hin.
  - by apply elem_of_nil in Hin.
  - apply NoDup_cons in Hnd as [Hk Hnd].
    apply elem_of_cons in Hin as [[= -> ->]|Hin].
    + by rewrite String.eqb_refl.
    + destruct (String.eqb_spec k nm) as [->|Hne]; [|by auto].
      destruct Hk. apply list_elem_of_fmap. by exists (nm, v).
Qed.

Lemma lookup_app d d' nm :
  BurgSystem.lookup nm (d ++ d') =
  match BurgSystem.lookup nm d with
  | Some v => Some v
  | None => BurgSystem.lookup nm d'
  end.
Proof.
  induction d as [|[k w] d IH]; simpl; [done|].
  by destruct (String.eqb k nm).
Qed.

Lemma lookup_append_chain_rule d nm rule nm' :
  BurgSystem.lookup nm' (BurgSystem.append_chain_rule nm rule d) =
  if decide (nm' = nm) then Invariant.file_rule rule <$> BurgSystem.lookup nm d
  else BurgSystem.lookup nm' d.
Proof.
  induction d as [|[k w] d IH]; simpl; [by case_decide|].
  destruct (String.eqb_spec k nm) as [->|Hne]; simpl.
  - case_decide as Hd; [subst; by rewrite String.eqb_refl|].
    by destruct (String.eqb_spec nm nm').
  - rewrite IH. case_decide as Hd; [subst|done].
    by destruct (String.eqb_spec k nm).
Qed.

Lemma append_chain_rule_keys d nm rule :
  (BurgSystem.append_chain_rule nm rule d).*1 = d.*1.
Proof.
  induction d as [|[k w] d IH]; simpl; [done|].
  destruct (String.eqb k nm); simpl; by f_equal.
Qed.

Lemma append_chain_rule_shape d nm rule :
  Forall2 (λ kv kv', kv'.1 = kv.1 ∧ Symbol.name kv'.2 = Symbol.name kv.2
                     ∧ Symbol.type kv'.2 = Symbol.type kv.2)
          d (BurgSystem.append_chain_rule nm rule d).
Proof.
  induction d as [|[k w] d IH]; simpl; [constructor|].
  destruct (String.eqb k nm).
  - constructor; [by destruct w|]. apply Forall2_same_length_lookup.
    split; [done|]. intros i x y ??. by simplify_eq.
  - by constructor.
Qed.

Lemma symType_shape d d' r r' g g' h h' c :
  Forall2 (λ kv kv', kv'.1 = kv.1 ∧ Symbol.name kv'.2 = Symbol.name kv.2
                     ∧ Symbol.type kv'.2 = Symbol.type kv.2) d d' →
  BurgSystem.symType (BurgSystem.mk r' d' g' h') c =
  BurgSystem.symType (BurgSystem.mk r d g h) c.
Proof.
  unfold BurgSystem.symType. simpl.
  induction 1 as [|[k w] [k' w'] d d' (?&Hn&Ht) _ IH]; simpl in *; [done|].
  rewrite !filter_cons, Ht. case_decide; simpl; by rewrite ?Hn, IH.
Qed.

Lemma append_chain_rule_wf d nm rule :
  Invariant.symbols_wf d →
  Invariant.symbols_wf (BurgSystem.append_chain_rule nm rule d).
Proof.
  intros [Hnd Hnm]. split; [by rewrite append_chain_rule_keys|].
  clear Hnd. induction Hnm as [|[k w] d Hk Hd IH]; simpl; [done|].
  destruct (String.eqb k nm); constructor; simpl in *; try done.
  by destruct w.
Qed.

Lemma elem_of_symType s nm c :
  nm ∈ BurgSystem.symType s c ↔
  ∃ k sy, (k, sy) ∈ BurgSystem.symbols s ∧ Symbol.type sy = c
          ∧ Symbol.name sy = nm.
Proof.
  unfold BurgSystem.symType. rewrite list_elem_of_fmap. split.
  - intros (sy & -> & [Hc ((k & sy') & -> & Hin)%list_elem_of_fmap]%list_elem_of_filter).
    exists k, sy'. split_and!; [done| |done].
    simpl in *. by destruct (Symbol.type sy'), c.
  - intros (k & sy & Hin & <- & <-). exists sy. split; [done|].
    apply list_elem_of_filter. split; [by destruct (Symbol.type sy)|].
    apply list_elem_of_fmap. by exists (k, sy).
Qed.

Lemma mem_true nm l : BurgSystem.mem nm l = true ↔ nm ∈ l.
Proof. unfold BurgSystem.mem. by rewrite bool_decide_eq_true. Qed.

Lemma mem_false nm l : BurgSystem.mem nm l = false ↔ nm ∉ l.
Proof. unfold BurgSystem.mem. by rewrite bool_decide_eq_false. Qed.

(** In a well-formed table the names listed by [symType] are the keys
    whose symbol has that class. *)
Lemma elem_of_symType_kind s nm c :
  Invariant.wf s → nm ∈ BurgSystem.symType s c ↔ Invariant.kind s nm = Some c.
Proof.
  intros [Hnd Hnm]. rewrite elem_of_symType. unfold Invariant.kind. split.
  - intros (k & sy & Hin & <- & <-).
    rewrite Forall_forall in Hnm. pose proof (Hnm _ Hin) as Hk. simpl in Hk.
    subst k. by rewrite (lookup_elem _ _ _ Hnd Hin).
  - destruct (BurgSystem.lookup _ _) as [sy|] eqn:Hl; [|done].
    intros [= <-]. apply lookup_Some_elem in Hl.
    rewrite Forall_forall in Hnm. pose proof (Hnm _ Hl) as Hk. eauto.
Qed.

End SymbolTable.
(** ** The construction API *)

Section Construction.

Implicit Types (d : list (string * Symbol.t)) (nm nt : string)
  (s : BurgSystem.t).

Lemma symType_app_Nonterm r d g h nm crs :
  BurgSystem.symType (BurgSystem.mk r (d ++ [(nm, Symbol.Nonterm nm crs)]) g h)
                     Symbol.TermC =
  BurgSystem.symType (BurgSystem.mk r d g h) Symbol.TermC.
Proof.
  unfold BurgSystem.symType. simpl.
  rewrite fmap_app, filter_app, fmap_app. simpl. by rewrite app_nil_r.
Qed.

Lemma terminals_ensure r d g h nm :
  BurgSystem.terminals (BurgSystem.mk r (Invariant.ensure nm d) g h) =
  BurgSystem.terminals (BurgSystem.mk r d g h).
Proof.
  unfold Invariant.ensure, BurgSystem.terminals.
  destruct (BurgSystem.lookup nm d); [done|]. apply symType_app_Nonterm.
Qed.

Lemma terminals_append_chain_rule r d g h nm rule :
  BurgSystem.terminals
    (BurgSystem.mk r (BurgSystem.append_chain_rule nm rule d) g h) =
  BurgSystem.terminals (BurgSystem.mk r d g h).
Proof. apply symType_shape, append_chain_rule_shape. Qed.

Lemma terminals_symbols s r g h :
  BurgSystem.terminals (BurgSystem.mk r (BurgSystem.symbols s) g h) =
  BurgSystem.terminals s.
Proof. by destruct s. Qed.

Lemma ensure_wf d nm : Invariant.symbols_wf d → Invariant.symbols_wf (Invariant.ensure nm d).
Proof.
  intros [Hnd Hnm]. unfold Invariant.ensure.
  destruct (BurgSystem.lookup nm d) eqn:Hl; [done|].
  apply lookup_None in Hl. split.
  - rewrite fmap_app. apply NoDup_app. split_and!; [done| |apply NoDup_singleton].
    intros x Hx [->|[]%elem_of_nil]%elem_of_cons. done.
  - apply Forall_app. split; [done|]. by constructor.
Qed.

Lemma non_term_raise s nm :
  BurgSystem.mem nm (BurgSystem.terminals s) = true →
  BurgSystem.non_term s nm = Raise (BurgError "Cannot redefine terminal").
Proof. unfold BurgSystem.non_term. by intros ->. Qed.

(** On a well-formed table [non_term] raises for a terminal only. *)
Lemma non_term_Ok s nm :
  Invariant.wf s →
  BurgSystem.mem nm (BurgSystem.terminals s) = false →
  ∃ sy,
    BurgSystem.non_term s nm =
    Ok (BurgSystem.mk (BurgSystem.rules s)
          (Invariant.ensure nm (BurgSystem.symbols s))
          (if BurgSystem.goal_unset s then Some nm else BurgSystem.goal s)
          (BurgSystem.header_lines s), sy).
Proof.
  intros Hwf Hmem. unfold BurgSystem.non_term. rewrite Hmem.
  unfold BurgSystem.install, Invariant.ensure.
  assert (BurgSystem.symbols
            (if BurgSystem.goal_unset s
             then BurgSystem.mk (BurgSystem.rules s) (BurgSystem.symbols s)
                    (Some nm) (BurgSystem.header_lines s)
             else s) = BurgSystem.symbols s) as -> by by destruct (BurgSystem.goal_unset s).
  destruct (BurgSystem.lookup nm (BurgSystem.symbols s)) as [sy|] eqn:Hl.
  - destruct (Symbol.type sy) eqn:Hty; simpl.
    + apply mem_false in Hmem. destruct Hmem.
      apply elem_of_symType_kind; [done|]. unfold Invariant.kind.
      by rewrite Hl, <- Hty.
    + exists sy. destruct s, (BurgSystem.goal_unset _); by simpl.
  - eexists. by destruct (BurgSystem.goal_unset s).
Qed.

Lemma mem_terminals_is_chain s nt tree cost acceptance template :
  let rule := Invariant.new_rule s nt tree cost acceptance template in
  BurgSystem.terminals
    (BurgSystem.mk (BurgSystem.rules s)
       (BurgSystem.append_chain_rule (Tree.name tree) rule
          (Invariant.ensure (Tree.name tree) (BurgSystem.symbols s)))
       (if BurgSystem.goal_unset s then Some (Tree.name tree)
        else BurgSystem.goal s)
       (BurgSystem.header_lines s)) = BurgSystem.terminals s.
Proof.
  simpl. by rewrite terminals_append_chain_rule, terminals_ensure,
    terminals_symbols.
Qed.

(** What [add_rule] does on a well-formed table: it raises when the
    left-hand side is a terminal, and returns [add_rule_result]
    otherwise. *)
Lemma add_rule_cases s nt tree cost acceptance template :
  Invariant.wf s →
  BurgSystem.add_rule s nt tree cost acceptance template =
  if BurgSystem.mem nt (BurgSystem.terminals s)
  then Raise (BurgError "Cannot redefine terminal")
  else Ok (Invariant.add_rule_result s nt tree cost acceptance template).
Proof.
  intros Hwf. unfold BurgSystem.add_rule, Invariant.add_rule_result.
  fold (Invariant.is_chain s tree).
  assert ((if negb (PyStr.truthy (PyStr.strip template)) then "pass"
           else PyStr.strip template) =
          (if PyStr.truthy (PyStr.strip template) then PyStr.strip template
           else "pass")) as -> by by destruct (PyStr.truthy _).
  fold (Invariant.new_rule s nt tree cost acceptance template).
  set (rule := Invariant.new_rule _ _ _ _ _ _).
  destruct (Invariant.is_chain s tree) eqn:Hch; simpl.
  - unfold Invariant.is_chain in Hch.
    apply andb_true_iff in Hch as [_ Hnt%negb_true_iff].
    destruct (non_term_Ok s (Tree.name tree) Hwf Hnt) as [sy ->]. simpl.
    destruct (BurgSystem.mem nt (BurgSystem.terminals s)) eqn:Hmem.
    + rewrite non_term_raise; [done|]. unfold rule.
      by rewrite mem_terminals_is_chain.
    + set (s1 := BurgSystem.mk _ _ _ _).
      assert (Invariant.wf s1) as Hwf1
        by (by apply append_chain_rule_wf, ensure_wf).
      assert (BurgSystem.mem nt (BurgSystem.terminals s1) = false) as Hmem1.
      { unfold s1, rule. by rewrite mem_terminals_is_chain. }
      destruct (non_term_Ok s1 nt Hwf1 Hmem1) as [sy1 ->]. simpl.
      do 2 f_equal. clear. subst s1. unfold BurgSystem.goal_unset. simpl.
      destruct (BurgSystem.goal s) as [g|]; simpl.
      * destruct (PyStr.truthy g) eqn:Hg; simpl; [by rewrite Hg|].
        by destruct (PyStr.truthy (Tree.name tree)).
      * by destruct (PyStr.truthy (Tree.name tree)).
  - destruct (BurgSystem.mem nt (BurgSystem.terminals s)) eqn:Hmem.
    + by rewrite non_term_raise.
    + by destruct (non_term_Ok s nt Hwf Hmem) as [sy ->].
Qed.

Lemma add_rule_result_wf s nt tree cost acceptance template :
  Invariant.wf s →
  Invariant.wf (Invariant.add_rule_result s nt tree cost acceptance template).
Proof.
  intros Hwf. unfold Invariant.wf, Invariant.add_rule_result. simpl.
  apply ensure_wf. destruct (Invariant.is_chain s tree); [|done].
  by apply append_chain_rule_wf, ensure_wf.
Qed.

Lemma add_rule_result_terminals s nt tree cost acceptance template :
  BurgSystem.terminals
    (Invariant.add_rule_result s nt tree cost acceptance template) =
  BurgSystem.terminals s.
Proof.
  unfold Invariant.add_rule_result. rewrite terminals_ensure.
  destruct (Invariant.is_chain s tree).
  - by rewrite terminals_append_chain_rule, terminals_ensure, terminals_symbols.
  - apply terminals_symbols.
Qed.

End Construction.

(** ** Sequences of construction calls *)

Section Run.

Implicit Types (d : list (string * Symbol.t)) (nm nt : string)
  (s : BurgSystem.t).

Lemma grows_refl sy : Invariant.grows sy sy.
Proof. destruct sy; simpl; [done|]. split; [done|]. exists []. by rewrite app_nil_r. Qed.

Lemma grows_trans sy1 sy2 sy3 :
  Invariant.grows sy1 sy2 → Invariant.grows sy2 sy3 → Invariant.grows sy1 sy3.
Proof.
  destruct sy1, sy2, sy3; simpl; try done; [congruence|].
  intros [-> [m1 ->]] [-> [m2 ->]]. split; [done|].
  exists (m1 ++ m2). by rewrite app_assoc.
Qed.

Lemma extends_refl s : Invariant.extends s s.
Proof. intros nm sy H. exists sy. split; [done|apply grows_refl]. Qed.

Lemma extends_trans s1 s2 s3 :
  Invariant.extends s1 s2 → Invariant.extends s2 s3 → Invariant.extends s1 s3.
Proof.
  intros H12 H23 nm sy H.
  destruct (H12 _ _ H) as (sy2 & H2 & Hg2).
  destruct (H23 _ _ H2) as (sy3 & H3 & Hg3).
  exists sy3. split; [done|]. by eapply grows_trans.
Qed.

Lemma lookup_ensure d nm nm' :
  BurgSystem.lookup nm' (Invariant.ensure nm d) =
  match BurgSystem.lookup nm' d with
  | Some v => Some v
  | None => if decide (nm' = nm) then Some (Symbol.Nonterm nm []) else None
  end.
Proof.
  unfold Invariant.ensure.
  destruct (BurgSystem.lookup nm d) eqn:Hl.
  - destruct (BurgSystem.lookup nm' d) eqn:Hl'; [done|].
    case_decide; [congruence|done].
  - rewrite lookup_app. destruct (BurgSystem.lookup nm' d); [done|]. simpl.
    destruct (String.eqb_spec nm nm'); case_decide; congruence.
Qed.

Lemma grows_file_rule rule sy : Invariant.grows sy (Invariant.file_rule rule sy).
Proof. destruct sy; simpl; eauto. Qed.

Lemma add_rule_result_extends s nt tree cost acceptance template :
  Invariant.extends s
    (Invariant.add_rule_result s nt tree cost acceptance template).
Proof.
  intros nm sy H. unfold Invariant.add_rule_result. simpl.
  rewrite lookup_ensure.
  destruct (Invariant.is_chain s tree).
  - rewrite lookup_append_chain_rule, !lookup_ensure. case_decide as Hd.
    + subst. rewrite H. simpl. eexists. split; [done|apply grows_file_rule].
    + rewrite H. eexists. split; [done|apply grows_refl].
  - rewrite H. eexists. split; [done|apply grows_refl].
Qed.

(** A chain rule is filed at the end of the list of its pattern's name. *)
Lemma add_rule_result_chain_rules s nt tree cost acceptance template :
  Invariant.wf s →
  Invariant.is_chain s tree = true →
  Invariant.chain_rules
    (Invariant.add_rule_result s nt tree cost acceptance template)
    (Tree.name tree) =
  Invariant.chain_rules s (Tree.name tree)
  ++ [Invariant.new_rule s nt tree cost acceptance template].
Proof.
  intros Hwf Hch. unfold Invariant.chain_rules, Invariant.add_rule_result.
  rewrite Hch. simpl.
  rewrite lookup_ensure, lookup_append_chain_rule, decide_True by done.
  rewrite lookup_ensure, decide_True by done.
  destruct (BurgSystem.lookup (Tree.name tree) (BurgSystem.symbols s))
    as [[n|n crs]|] eqn:Hl; simpl; [|done..].
  apply andb_true_iff in Hch as [_ Hnt%negb_true_iff].
  apply mem_false in Hnt. destruct Hnt.
  apply elem_of_symType_kind; [done|]. unfold Invariant.kind. by rewrite Hl.
Qed.

Lemma add_rule_result_kind_lhs s nt tree cost acceptance template :
  Invariant.wf s →
  BurgSystem.mem nt (BurgSystem.terminals s) = false →
  Invariant.kind (Invariant.add_rule_result s nt tree cost acceptance template)
                 nt = Some Symbol.NontermC.
Proof.
  intros Hwf Hmem. unfold Invariant.kind, Invariant.add_rule_result. simpl.
  rewrite lookup_ensure, decide_True by done.
  match goal with |- context [BurgSystem.lookup nt ?d] =>
    destruct (BurgSystem.lookup nt d) as [sy|] eqn:Hl end; [|done].
  simpl. destruct (Symbol.type sy) eqn:Hty; [|done].
  assert (Invariant.kind
            (Invariant.add_rule_result s nt tree cost acceptance template) nt
          = Some Symbol.TermC) as Hk.
  { unfold Invariant.kind, Invariant.add_rule_result. simpl.
    by rewrite lookup_ensure, Hl, <- Hty. }
  apply elem_of_symType_kind in Hk; [|by apply add_rule_result_wf].
  fold (BurgSystem.terminals
          (Invariant.add_rule_result s nt tree cost acceptance template)) in Hk.
  rewrite add_rule_result_terminals in Hk. by apply mem_false in Hmem.
Qed.

Lemma extends_kind s s' nm c :
  Invariant.extends s s' → Invariant.kind s nm = Some c →
  Invariant.kind s' nm = Some c.
Proof.
  unfold Invariant.kind. intros Hext.
  destruct (BurgSystem.lookup nm (BurgSystem.symbols s)) as [sy|] eqn:Hl; [|done].
  destruct (Hext _ _ Hl) as (sy' & -> & Hg). simpl. intros [= <-]. f_equal.
  by destruct sy, sy'.
Qed.

Lemma extends_chain_rules s s' nm rule :
  Invariant.extends s s' → rule ∈ Invariant.chain_rules s nm →
  rule ∈ Invariant.chain_rules s' nm.
Proof.
  unfold Invariant.chain_rules. intros Hext.
  destruct (BurgSystem.lookup nm (BurgSystem.symbols s)) as [sy|] eqn:Hl;
    [|by intros ?%elem_of_nil].
  destruct (Hext _ _ Hl) as (sy' & -> & Hg).
  destruct sy as [n|n crs], sy' as [n'|n' crs']; simpl in Hg; try done.
  destruct Hg as [_ [more ->]]. intros ?. apply elem_of_app. by left.
Qed.

(** [add_terminal]: the table gains the terminal, or has it already. *)
Lemma add_terminal_Ok s x s' :
  Invariant.wf s →
  BurgSystem.add_terminal s x = Ok s' →
  Invariant.wf s' ∧ Invariant.extends s s'
  ∧ BurgSystem.rules s' = BurgSystem.rules s
  ∧ BurgSystem.goal s' = BurgSystem.goal s
  ∧ BurgSystem.header_lines s' = BurgSystem.header_lines s
  ∧ Invariant.kind s' x = Some Symbol.TermC
  ∧ (∀ nm, nm ≠ x → Invariant.kind s' nm = Invariant.kind s nm).
Proof.
  intros Hwf. unfold BurgSystem.add_terminal, BurgSystem.install.
  destruct (BurgSystem.lookup x (BurgSystem.symbols s)) as [sy|] eqn:Hl.
  - destruct (Symbol.type sy) eqn:Hty; simpl; intros [= <-].
    split_and!; try done; [apply extends_refl|].
    unfold Invariant.kind. by rewrite Hl, <- Hty.
  - simpl. intros [= <-]. split_and!; try done.
    + destruct Hwf as [Hnd Hnm]. apply lookup_None in Hl. split; simpl.
      * rewrite fmap_app. apply NoDup_app. split_and!; [done| |apply NoDup_singleton].
        intros y Hy [->|[]%elem_of_nil]%elem_of_cons. done.
      * apply Forall_app. split; [done|]. by constructor.
    + intros nm sy H. simpl. rewrite lookup_app, H.
      eexists. split; [done|apply grows_refl].
    + unfold Invariant.kind. simpl. rewrite lookup_app, Hl. simpl.
      by rewrite String.eqb_refl.
    + intros nm Hne. unfold Invariant.kind. simpl. rewrite lookup_app.
      destruct (BurgSystem.lookup nm _); [done|]. simpl.
      by destruct (String.eqb_spec x nm).
Qed.

End Run.

(** ** Invariants of the construction *)

Section Reachable.

Implicit Types (nm nt : string) (s : BurgSystem.t) (c : BurgParser.call).

Lemma run_app calls1 calls2 s :
  BurgParser.run (calls1 ++ calls2) s =
  do s' <- BurgParser.run calls1 s; BurgParser.run calls2 s'.
Proof.
  revert s. induction calls1 as [|c calls1 IH]; intros s; simpl; [done|].
  destruct (BurgParser.step s c); simpl; [apply IH|done].
Qed.

Lemma init_inv header :
  Invariant.inv (BurgSystem.mk [] [] None header).
Proof. split; [split|]; simpl; constructor. Qed.

Lemma add_rule_result_rules_wf s nt tree cost acceptance template :
  Invariant.wf s → Invariant.rules_wf s →
  BurgSystem.mem nt (BurgSystem.terminals s) = false →
  Invariant.rules_wf
    (Invariant.add_rule_result s nt tree cost acceptance template).
Proof.
  intros Hwf Hr Hmem. unfold Invariant.rules_wf.
  change (BurgSystem.rules (Invariant.add_rule_result s nt tree cost acceptance template))
    with (BurgSystem.rules s
          ++ [Invariant.new_rule s nt tree cost acceptance template]).
  apply Forall_app. split.
  - eapply Forall_impl; [exact Hr|]. intros r Hk. simpl in Hk.
    eapply extends_kind; [apply add_rule_result_extends|done].
  - constructor; [|done]. simpl. by apply add_rule_result_kind_lhs.
Qed.

Lemma step_inv s c s' :
  Invariant.inv s → BurgParser.step s c = Ok s' →
  Invariant.inv s' ∧ Invariant.extends s s'
  ∧ BurgSystem.header_lines s' = BurgSystem.header_lines s
  ∧ ∃ more, BurgSystem.rules s' = BurgSystem.rules s ++ more.
Proof.
  intros [Hwf Hr]. destruct c as [x|nt tree cost acceptance template]; simpl.
  - intros (Hwf' & Hext & Hrules & _ & Hh & _)%add_terminal_Ok; [|done].
    split_and!; try done.
    + split; [done|]. unfold Invariant.rules_wf. rewrite Hrules.
      eapply Forall_impl; [exact Hr|]. intros r Hk. simpl in Hk.
      by eapply extends_kind.
    + exists []. by rewrite app_nil_r.
  - rewrite add_rule_cases by done.
    destruct (BurgSystem.mem nt (BurgSystem.terminals s)) eqn:Hmem; [done|].
    intros [= <-]. split_and!.
    + split; [by apply add_rule_result_wf|by apply add_rule_result_rules_wf].
    + apply add_rule_result_extends.
    + done.
    + by eexists.
Qed.

Lemma run_inv calls s s' :
  Invariant.inv s → BurgParser.run calls s = Ok s' →
  Invariant.inv s' ∧ Invariant.extends s s'
  ∧ BurgSystem.header_lines s' = BurgSystem.header_lines s
  ∧ ∃ more, BurgSystem.rules s' = BurgSystem.rules s ++ more.
Proof.
  revert s. induction calls as [|c calls IH]; intros s Hinv; simpl.
  - intros [= <-]. split_and!; [done|apply extends_refl|done|].
    exists []. by rewrite app_nil_r.
  - intros (s1 & Hs1 & Hrun)%bind_Ok.
    destruct (step_inv _ _ _ Hinv Hs1) as (Hinv1 & Hext1 & Hh1 & more1 & Hr1).
    destruct (IH _ Hinv1 Hrun) as (Hinv' & Hext' & Hh' & more' & Hr').
    split_and!; [done|by eapply extends_trans|congruence|].
    exists (more1 ++ more'). by rewrite Hr', Hr1, app_assoc.
Qed.

Lemma parse_inv header calls s :
  BurgParser.parse header calls = Ok s → Invariant.inv s.
Proof. intros H. by eapply run_inv; [apply init_inv|exact H]. Qed.

(** The terminals of a system are the names declared by [add_terminal]. *)
Lemma step_terminals s c s' nm :
  Invariant.wf s → BurgParser.step s c = Ok s' →
  nm ∈ BurgSystem.terminals s' ↔
  nm ∈ BurgSystem.terminals s ∨ c = BurgParser.Add_terminal nm.
Proof.
  intros Hwf. destruct c as [x|nt tree cost acceptance template]; simpl.
  - intros H. pose proof (add_terminal_Ok _ _ _ Hwf H) as (Hwf' & _ & _ & _ & _ & Hx & Hother).
    unfold BurgSystem.terminals. rewrite !elem_of_symType_kind by done.
    destruct (decide (nm = x)) as [->|Hne].
    + naive_solver.
    + rewrite Hother by done. naive_solver.
  - rewrite add_rule_cases by done.
    destruct (BurgSystem.mem nt (BurgSystem.terminals s)) eqn:Hmem; [done|].
    intros [= <-]. rewrite add_rule_result_terminals. naive_solver.
Qed.

Lemma run_terminals calls s s' nm :
  Invariant.inv s → BurgParser.run calls s = Ok s' →
  nm ∈ BurgSystem.terminals s' ↔
  nm ∈ BurgSystem.terminals s ∨ BurgParser.Add_terminal nm ∈ calls.
Proof.
  revert s. induction calls as [|c calls IH]; intros s Hinv; simpl.
  - intros [= <-]. rewrite elem_of_nil. naive_solver.
  - intros (s1 & Hs1 & Hrun)%bind_Ok.
    destruct (step_inv _ _ _ Hinv Hs1) as (Hinv1 & _).
    rewrite (IH _ Hinv1 Hrun), (step_terminals _ _ _ _ (proj1 Hinv) Hs1).
    rewrite elem_of_cons. naive_solver.
Qed.

Lemma parse_terminals header calls s nm :
  BurgParser.parse header calls = Ok s →
  nm ∈ BurgSystem.terminals s ↔ BurgParser.Add_terminal nm ∈ calls.
Proof.
  intros H. unfold BurgParser.parse in H.
  rewrite (run_terminals _ _ _ nm (init_inv header) H).
  split; [intros [[]%elem_of_nil|]|]; auto.
Qed.

End Reachable.

(** ** What the generator compiles *)

Section Generate.

Implicit Types (s system : BurgSystem.t).

Lemma mapM_Ok {A B} (f : A → Res B) l l' :
  mapM f l = Ok l' ↔ Forall2 (λ x y, f x = Ok y) l l'.
Proof.
  revert l'. induction l as [|x l IH]; intros l'; simpl.
  - split; [intros [= <-]; constructor|by inversion 1].
  - rewrite bind_Ok. split.
    + intros (y & Hy & (ys & Hys & [= <-])%bind_Ok). constructor; [done|by apply IH].
    + inversion 1 as [|? y ? ys Hy Hys]; subst. exists y. split; [done|].
      apply bind_Ok. exists ys. split; [by apply IH|done].
Qed.

Lemma mapM_total {A B} (f : A → Res B) l :
  Forall (λ x, ∃ y, f x = Ok y) l → ∃ l', mapM f l = Ok l'.
Proof.
  induction 1 as [|x l [y Hy] _ [l' IH]]; simpl; [by eexists|].
  rewrite Hy, IH. simpl. by eexists.
Qed.

Lemma elem_of_concat {A} (x : A) (ls : list (list A)) :
  x ∈ concat ls ↔ ∃ l, x ∈ l ∧ l ∈ ls.
Proof.
  induction ls as [|l ls IH]; simpl.
  - split; [by intros ?%elem_of_nil|by intros (l & _ & ?%elem_of_nil)].
  - rewrite elem_of_app, IH. setoid_rewrite elem_of_cons. naive_solver.
Qed.

Lemma emit_record_Ok system rule r :
  BurgGenerator.emit_record system rule = Ok r →
  Py.rule r = rule
  ∧ Py.chain_rules r = Invariant.chain_rules system (Rule.non_term rule).
Proof.
  unfold BurgGenerator.emit_record, Invariant.chain_rules.
  destruct (BurgSystem.lookup _ _) as [[n|n crs]|]; simpl; [done| |done].
  by intros [= <-].
Qed.

Lemma emit_record_total system rule :
  Invariant.kind system (Rule.non_term rule) = Some Symbol.NontermC →
  ∃ r, BurgGenerator.emit_record system rule = Ok r.
Proof.
  unfold BurgGenerator.emit_record, Invariant.kind.
  destruct (BurgSystem.lookup _ _) as [[n|n crs]|]; simpl; [done| |done].
  by eexists.
Qed.

(** Every case of [burm_state] comes from a rule whose pattern is rooted
    at a terminal. *)
Lemma emit_state_cases system cases c :
  BurgGenerator.emit_state system = Ok cases → c ∈ cases →
  Py.rule (Py.body c) ∈ BurgSystem.rules system
  ∧ Tree.name (Rule.tree (Py.rule (Py.body c))) ∈ BurgSystem.terminals system
  ∧ Py.condition c =
      BurgGenerator.emittest system (Rule.tree (Py.rule (Py.body c)))
                             (Py.Var "tree")
  ∧ Py.chain_rules (Py.body c) =
      Invariant.chain_rules system (Rule.non_term (Py.rule (Py.body c))).
Proof.
  unfold BurgGenerator.emit_state.
  intros (css & Hcss%mapM_Ok & [= <-])%bind_Ok
         (cs & Hc & Hcs)%elem_of_concat.
  destruct (proj1 (list_elem_of_lookup _ _) Hcs) as [i Hi].
  destruct (Forall2_lookup_r _ _ _ _ _ Hcss Hi) as (term & Hterm & Hcase).
  unfold BurgGenerator.emitcase in Hcase. apply mapM_Ok in Hcase.
  destruct (proj1 (list_elem_of_lookup _ _) Hc) as [j Hj].
  destruct (Forall2_lookup_r _ _ _ _ _ Hcase Hj) as (rule & Hrule & Hr).
  apply bind_Ok in Hr as (r & Hr & [= <-]). simpl.
  apply emit_record_Ok in Hr as [-> Hchain].
  apply list_elem_of_lookup_2, list_elem_of_filter in Hrule as [Hname Hin].
  apply list_elem_of_lookup_2 in Hterm. by subst.
Qed.

Lemma generate_Ok system m :
  BurgGenerator.generate system = Ok m →
  BurgGenerator.emit_state system = Ok (Py.burm_state m)
  ∧ Py.goal m = BurgGenerator.goal_str system
  ∧ Py.entries m =
      map (λ rule,
             let r := BurgGenerator.compute_kids system (Rule.tree rule)
                        (Py.Var "t") in
             Py.mk_entry rule r.1 r.2) (BurgSystem.rules system).
Proof.
  unfold BurgGenerator.generate. by intros (cases & -> & [= <-])%bind_Ok.
Qed.

(** The generator does not raise on a system built through the API. *)
Lemma generate_total system :
  Invariant.inv system → ∃ m, BurgGenerator.generate system = Ok m.
Proof.
  intros [Hwf Hr]. unfold BurgGenerator.generate, BurgGenerator.emit_state.
  destruct (mapM_total (BurgGenerator.emitcase system)
              (BurgSystem.terminals system)) as [css Hcss].
  { apply Forall_forall. intros term _. apply mapM_total.
    apply Forall_forall. intros rule [_ Hin]%list_elem_of_filter.
    unfold Invariant.rules_wf in Hr. rewrite Forall_forall in Hr.
    destruct (emit_record_total _ _ (Hr _ Hin)) as [r ->]. by eexists. }
  rewrite Hcss. simpl. by eexists.
Qed.

End Generate.

(** ** The goal symbol *)

Section Goal.

Implicit Types (nm nt : string) (s : BurgSystem.t) (c : BurgParser.call).

Lemma install_goal s nm cl r :
  BurgSystem.install s nm cl = Ok r → BurgSystem.goal r.1 = BurgSystem.goal s.
Proof.
  unfold BurgSystem.install.
  destruct (BurgSystem.lookup _ _) as [sy|]; [|by intros [= <-]].
  destruct (Symbol.cls_eqb _ _); [by intros [= <-]|done].
Qed.

Lemma non_term_goal s nm r :
  BurgSystem.non_term s nm = Ok r →
  BurgSystem.goal r.1 =
  if BurgSystem.goal_unset s then Some nm else BurgSystem.goal s.
Proof.
  unfold BurgSystem.non_term. destruct (BurgSystem.mem _ _); [done|].
  intros ->%install_goal. by destruct (BurgSystem.goal_unset s).
Qed.

Lemma add_rule_goal s nt tree cost acceptance template s' :
  BurgSystem.add_rule s nt tree cost acceptance template = Ok s' →
  BurgSystem.goal s' =
  if BurgSystem.goal_unset s
  then Some (if Invariant.is_chain s tree && PyStr.truthy (Tree.name tree)
             then Tree.name tree else nt)
  else BurgSystem.goal s.
Proof.
  unfold BurgSystem.add_rule. fold (Invariant.is_chain s tree).
  intros (s1 & Hs1 & (r & Hr%non_term_goal & [= <-])%bind_Ok)%bind_Ok.
  simpl in *. rewrite Hr. clear Hr.
  destruct (Invariant.is_chain s tree); simpl.
  - apply bind_Ok in Hs1 as (r0 & Hr0%non_term_goal & [= <-]).
    unfold BurgSystem.goal_unset in *. simpl. rewrite Hr0.
    destruct (BurgSystem.goal s) as [g|]; simpl.
    + destruct (PyStr.truthy g) eqn:Hg; simpl; [by rewrite Hg|].
      by destruct (PyStr.truthy (Tree.name tree)).
    + by destruct (PyStr.truthy (Tree.name tree)).
  - by simplify_eq.
Qed.

Lemma step_goal_stable s c s' g :
  BurgSystem.goal s = Some g → PyStr.truthy g = true →
  BurgParser.step s c = Ok s' → BurgSystem.goal s' = Some g.
Proof.
  intros Hg Ht. destruct c as [x|nt tree cost acceptance template]; simpl.
  - unfold BurgSystem.add_terminal.
    intros (r & Hr%install_goal & [= <-])%bind_Ok. congruence.
  - intros ->%add_rule_goal. unfold BurgSystem.goal_unset. by rewrite Hg, Ht.
Qed.

Lemma run_goal_stable calls s s' g :
  BurgSystem.goal s = Some g → PyStr.truthy g = true →
  BurgParser.run calls s = Ok s' → BurgSystem.goal s' = Some g.
Proof.
  revert s. induction calls as [|c calls IH]; intros s Hg Ht; simpl.
  - by intros [= <-].
  - intros (s1 & Hs1 & Hrun)%bind_Ok. eapply IH; [|done|done].
    by eapply step_goal_stable.
Qed.

Lemma run_add_terminals_goal calls s s' :
  forallb Invariant.is_add_terminal calls = true →
  BurgParser.run calls s = Ok s' → BurgSystem.goal s' = BurgSystem.goal s.
Proof.
  revert s. induction calls as [|c calls IH]; intros s; simpl.
  - by intros _ [= <-].
  - intros [Hc Hcs]%andb_true_iff (s1 & Hs1 & Hrun)%bind_Ok.
    rewrite (IH _ Hcs Hrun). destruct c as [x|]; [|done]. simpl in Hs1.
    unfold BurgSystem.add_terminal in Hs1.
    by apply bind_Ok in Hs1 as (r & Hr%install_goal & [= <-]).
Qed.

(** C3, as the spec states it, fails: a first rule [rc -> reg] makes the
    pattern's name [reg] the goal, not the left-hand side [rc]. *)
Lemma goal_of_first_chain_rule :
  ∃ s, BurgParser.parse [] [BurgParser.Add_rule "rc" Example.reg 0 None ""] = Ok s
       ∧ BurgSystem.goal s = Some "reg"
       ∧ BurgSystem.goal s ≠ Some "rc".
Proof. eexists. split; [vm_compute; reflexivity|]. by split. Qed.

(** C3, amended. When only declarations of terminals precede the first
    rule and the names of that rule are not empty, the goal of the system
    is the name of the first rule's pattern if that rule is filed as a
    chain rule (the pattern has no children and its name is not a declared
    terminal), and the first rule's left-hand side otherwise; a goal that
    is set to a name that is not empty is changed by no later call. *)
Theorem goal_after_first_rule header pre nt tree cost acceptance template post s :
  forallb Invariant.is_add_terminal pre = true →
  PyStr.truthy (Tree.name tree) = true →
  PyStr.truthy nt = true →
  BurgParser.parse header
    (pre ++ BurgParser.Add_rule nt tree cost acceptance template :: post) = Ok s →
  (∃ s_pre,
     BurgParser.parse header pre = Ok s_pre
     ∧ BurgSystem.goal s_pre = None
     ∧ BurgSystem.goal s =
         Some (if Invariant.is_chain s_pre tree then Tree.name tree else nt))
  ∧ (∀ s1 c s2 g,
       BurgSystem.goal s1 = Some g → PyStr.truthy g = true →
       BurgParser.step s1 c = Ok s2 → BurgSystem.goal s2 = Some g).
Proof.
  intros Hpre Hname Hnt Hrun. split; [|apply step_goal_stable].
  unfold BurgParser.parse in *. rewrite run_app in Hrun.
  apply bind_Ok in Hrun as (s_pre & Hs_pre & Hrun). exists s_pre.
  pose proof (run_add_terminals_goal _ _ _ Hpre Hs_pre) as Hg. simpl in Hg.
  split_and!; [done..|].
  simpl in Hrun. apply bind_Ok in Hrun as (s1 & Hs1%add_rule_goal & Hrun).
  unfold BurgSystem.goal_unset in Hs1. rewrite Hg, Hname, andb_true_r in Hs1.
  eapply run_goal_stable; [exact Hs1| |exact Hrun].
  by destruct (Invariant.is_chain s_pre tree).
Qed.

Lemma goal_after_first_rule_witness :
  ∃ s, BurgParser.parse [] Example.calls = Ok s ∧ BurgSystem.goal s = Some "reg".
Proof.
  eexists. split; [vm_compute; reflexivity|].
  destruct (goal_after_first_rule []
              [BurgParser.Add_terminal "CONST"; BurgParser.Add_terminal "ADD"]
              "reg" (BurgSystem.tree "CONST" []) 1 None " emit_load(tree.value) "
              [BurgParser.Add_rule "reg" (BurgSystem.tree "ADD" [Example.reg; Example.reg])
                 2 None " emit_add(c0, c1) "]
              _ eq_refl eq_refl eq_refl eq_refl) as [(s_pre & Hpre & _ & Hgoal) _].
  vm_compute in Hpre. injection Hpre as <-. exact Hgoal.
Defined.

End Goal.

(** ** Errors of the construction *)

Section Errors.

(** C7. A call of [add_rule] whose left-hand side was declared a terminal
    before raises the grammar error, and [main] then ends with that error
    and writes no matcher; a call whose left-hand side was not declared a
    terminal does not raise. *)
Theorem add_rule_raises_for_terminal (tree_str : Tree.t → string) header calls s
    nt tree cost acceptance template post :
  BurgParser.parse header calls = Ok s →
  (BurgParser.Add_terminal nt ∈ calls →
     BurgSystem.add_rule s nt tree cost acceptance template
     = Raise (BurgError "Cannot redefine terminal")
     ∧ main tree_str header
         (calls ++ BurgParser.Add_rule nt tree cost acceptance template :: post)
       = Raise (BurgError "Cannot redefine terminal"))
  ∧ (BurgParser.Add_terminal nt ∉ calls →
     ∃ s', BurgSystem.add_rule s nt tree cost acceptance template = Ok s').
Proof.
  intros Hparse. pose proof (parse_inv _ _ _ Hparse) as [Hwf _].
  rewrite <- (parse_terminals _ _ _ nt Hparse).
  rewrite (add_rule_cases _ _ _ _ _ _ Hwf). split.
  - intros Hin%mem_true. rewrite Hin. split; [done|].
    unfold main, BurgParser.parse in *. rewrite run_app, Hparse. simpl.
    by rewrite (add_rule_cases _ _ _ _ _ _ Hwf), Hin.
  - intros Hin%mem_false. rewrite Hin. by eexists.
Qed.

Lemma add_rule_raises_for_terminal_witness :
  BurgSystem.add_rule
    (BurgSystem.mk [] [("CONST", Symbol.Term "CONST")] None [])
    "CONST" Example.reg 1 None ""
  = Raise (BurgError "Cannot redefine terminal")
  ∧ ∃ s', BurgSystem.add_rule
            (BurgSystem.mk [] [("CONST", Symbol.Term "CONST")] None [])
            "reg" (BurgSystem.tree "CONST" []) 1 None "" = Ok s'.
Proof.
  pose proof (add_rule_raises_for_terminal (λ _, "") []
                [BurgParser.Add_terminal "CONST"]
                (BurgSystem.mk [] [("CONST", Symbol.Term "CONST")] None []))
    as H.
  split.
  - apply (H "CONST" Example.reg 1 None "" [] eq_refl). left.
  - apply (H "reg" (BurgSystem.tree "CONST" []) 1 None "" [] eq_refl).
    by intros [= ]%list_elem_of_singleton.
Defined.

End Errors.

(** ** Chain rules are filed, not compiled *)

Section ChainRegistration.

Lemma chain_rules_kind s nm rule :
  rule ∈ Invariant.chain_rules s nm →
  Invariant.kind s nm = Some Symbol.NontermC.
Proof.
  unfold Invariant.chain_rules, Invariant.kind.
  destruct (BurgSystem.lookup _ _) as [[n|n crs]|]; simpl;
    [by intros ?%elem_of_nil|done|by intros ?%elem_of_nil].
Qed.

(** C6. A rule whose pattern has no children and a name that is not a
    terminal is appended to the chain list of that name and stays there;
    the name never becomes a terminal, and [burm_state] has a case only for
    rules whose pattern is rooted at a terminal, so no case of the emitted
    labelling code matches this rule against a node. *)
Theorem chain_rule_filed_not_compiled header pre nt tree cost acceptance template
    post s_pre s :
  BurgParser.parse header pre = Ok s_pre →
  Invariant.is_chain s_pre tree = true →
  BurgParser.parse header
    (pre ++ BurgParser.Add_rule nt tree cost acceptance template :: post) = Ok s →
  let rule := Invariant.new_rule s_pre nt tree cost acceptance template in
  (∃ s_mid,
     BurgSystem.add_rule s_pre nt tree cost acceptance template = Ok s_mid
     ∧ Invariant.chain_rules s_mid (Tree.name tree) =
         Invariant.chain_rules s_pre (Tree.name tree) ++ [rule])
  ∧ rule ∈ Invariant.chain_rules s (Tree.name tree)
  ∧ rule ∈ BurgSystem.rules s
  ∧ Tree.name tree ∉ BurgSystem.terminals s
  ∧ ∃ m,
      BurgGenerator.generate s = Ok m
      ∧ ∀ c, c ∈ Py.burm_state m →
             Tree.name (Rule.tree (Py.rule (Py.body c))) ∈ BurgSystem.terminals s
             ∧ Py.rule (Py.body c) ≠ rule.
Proof.
  intros Hpre Hch Hrun rule.
  pose proof (parse_inv _ _ _ Hpre) as Hinv_pre.
  pose proof (parse_inv _ _ _ Hrun) as Hinv.
  unfold BurgParser.parse in *. rewrite run_app, Hpre in Hrun. simpl in Hrun.
  apply bind_Ok in Hrun as (s_mid & Hmid & Hpost).
  pose proof Hmid as Hmid'.
  rewrite (add_rule_cases _ _ _ _ _ _ (proj1 Hinv_pre)) in Hmid'.
  destruct (BurgSystem.mem nt (BurgSystem.terminals s_pre)) eqn:Hmem; [done|].
  injection Hmid' as Hmid'.
  assert (Invariant.chain_rules s_mid (Tree.name tree) =
          Invariant.chain_rules s_pre (Tree.name tree) ++ [rule]) as Hfiled.
  { rewrite <- Hmid'. by apply add_rule_result_chain_rules; [apply Hinv_pre|]. }
  destruct (step_inv s_pre (BurgParser.Add_rule nt tree cost acceptance template)
              s_mid Hinv_pre Hmid) as (Hinv_mid & _).
  destruct (run_inv _ _ _ Hinv_mid Hpost) as (_ & Hext & _ & more & Hrules).
  assert (rule ∈ Invariant.chain_rules s (Tree.name tree)) as Hin.
  { eapply extends_chain_rules; [done|]. rewrite Hfiled.
    apply elem_of_app. right. left. }
  assert (Tree.name tree ∉ BurgSystem.terminals s) as Hnt.
  { intros Hterm%elem_of_symType_kind; [|apply Hinv].
    apply chain_rules_kind in Hin. congruence. }
  split_and!; [by exists s_mid|done| |done|].
  - rewrite Hrules, <- Hmid'. simpl. rewrite !elem_of_app. left. right. left.
  - destruct (generate_total s Hinv) as [m Hm]. exists m. split; [done|].
    intros c Hc. apply generate_Ok in Hm as (Hcases & _).
    destruct (emit_state_cases _ _ _ Hcases Hc) as (_ & Hterm & _).
    split; [done|]. intros Heq. rewrite Heq in Hterm. simpl in Hterm. done.
Qed.

Lemma chain_rule_filed_not_compiled_witness :
  BurgParser.parse [] Example.chain_calls = Ok Example.chain_system
  ∧ Invariant.new_rule Example.chain_pre_system "rc" Example.reg 0 None ""
    ∈ Invariant.chain_rules Example.chain_system "reg".
Proof.
  assert (BurgParser.parse [] Example.chain_pre = Ok Example.chain_pre_system)
    as Hpre by (vm_compute; reflexivity).
  assert (BurgParser.parse [] Example.chain_calls = Ok Example.chain_system)
    as Hall by (vm_compute; reflexivity).
  split; [exact Hall|].
  assert (Invariant.is_chain Example.chain_pre_system Example.reg = true)
    as Hch by (vm_compute; reflexivity).
  exact (proj1 (proj2 (chain_rule_filed_not_compiled [] Example.chain_pre
                         "rc" Example.reg 0 None "" []
                         Example.chain_pre_system Example.chain_system
                         Hpre Hch Hall))).
Defined.

End ChainRegistration.

(** ** The state of a node *)

Section StateLemmas.

Implicit Types (st : State.t) (goal : string).

Lemma has_goal_true st goal :
  State.has_goal st goal = true ↔ ∃ c r, st !! goal = Some (c, r).
Proof.
  unfold State.has_goal. rewrite bool_decide_eq_true. split.
  - intros [[c r] H]. eauto.
  - intros (c & r & H). eauto.
Qed.

Lemma has_goal_false st goal :
  State.has_goal st goal = false ↔ st !! goal = None.
Proof.
  unfold State.has_goal. rewrite bool_decide_eq_false, <- eq_None_not_Some.
  done.
Qed.

Lemma set_cost_lookup_ne st goal c r goal' :
  goal' ≠ goal → State.set_cost st goal c r !! goal' = st !! goal'.
Proof.
  intros Hne. unfold State.set_cost.
  destruct (st !! goal) as [[old r0]|]; [destruct (c <? old)|];
    by rewrite ?lookup_insert_ne.
Qed.

(** After an offer the category has an entry that costs no more than the
    offer. *)
Lemma set_cost_lookup st goal c r :
  ∃ c' r', State.set_cost st goal c r !! goal = Some (c', r') ∧ c' ≤ c.
Proof.
  unfold State.set_cost. destruct (st !! goal) as [[old r0]|] eqn:Hst.
  - destruct (Z.ltb_spec c old).
    + exists c, r. by rewrite lookup_insert_eq.
    + exists old, r0. split; [done|lia].
  - exists c, r. by rewrite lookup_insert_eq.
Qed.

(** An entry is never removed and its cost never grows. *)
Lemma set_cost_mono st goal c r goal' c0 r0 :
  st !! goal' = Some (c0, r0) →
  ∃ c1 r1, State.set_cost st goal c r !! goal' = Some (c1, r1) ∧ c1 ≤ c0.
Proof.
  intros H. destruct (decide (goal' = goal)) as [->|Hne].
  - unfold State.set_cost. rewrite H. destruct (Z.ltb_spec c c0).
    + exists c, r. rewrite lookup_insert_eq. split; [done|lia].
    + exists c0, r0. split; [done|lia].
  - rewrite set_cost_lookup_ne by done. exists c0, r0. split; [done|lia].
Qed.

Lemma offer_chain_mono crs c st goal c0 r0 :
  st !! goal = Some (c0, r0) →
  ∃ c1 r1, Labelling.offer_chain crs c st !! goal = Some (c1, r1) ∧ c1 ≤ c0.
Proof.
  revert st c0 r0. induction crs as [|cr crs IH]; intros st c0 r0 H; simpl.
  - exists c0, r0. split; [done|lia].
  - destruct (set_cost_mono st (Rule.non_term cr) (c + Rule.cost cr)
                (Rule.nr cr) _ _ _ H) as (c1 & r1 & H1 & Hle1).
    destruct (IH _ _ _ H1) as (c2 & r2 & H2 & Hle2).
    exists c2, r2. split; [done|lia].
Qed.

Lemma offer_chain_lookup_ne crs c st goal :
  goal ∉ map Rule.non_term crs →
  Labelling.offer_chain crs c st !! goal = st !! goal.
Proof.
  revert st. induction crs as [|cr crs IH]; intros st Hnot; simpl; [done|].
  simpl in Hnot. apply not_elem_of_cons in Hnot as [Hne Hnot].
  by rewrite IH, set_cost_lookup_ne.
Qed.

(** Every chain rule of the list leaves an entry for its left-hand side
    that costs no more than the candidate cost plus the chain cost. *)
Lemma offer_chain_offered crs c st cr :
  cr ∈ crs →
  ∃ c' r', Labelling.offer_chain crs c st !! Rule.non_term cr = Some (c', r')
           ∧ c' ≤ c + Rule.cost cr.
Proof.
  revert st. induction crs as [|cr0 crs IH]; intros st Hin; simpl.
  - by apply elem_of_nil in Hin.
  - apply elem_of_cons in Hin as [->|Hin]; [|by apply IH].
    destruct (set_cost_lookup st (Rule.non_term cr0) (c + Rule.cost cr0)
                (Rule.nr cr0)) as (c1 & r1 & H1 & Hle1).
    destruct (offer_chain_mono crs c _ _ _ _ H1) as (c2 & r2 & H2 & Hle2).
    exists c2, r2. split; [done|lia].
Qed.

End StateLemmas.

(** ** The record of a rule *)

Section Record.

Variable code : Py.matcher.
Variable A : nat → Tree.t → bool.

Implicit Types (tree : Tree.t) (st : State.t).

Lemma all_has_goal_true l :
  Matcher.all_has_goal l = Ok true →
  ∃ costs, Forall2 Labelling.hole_cost l costs
           ∧ Matcher.sum_cost l = Ok (Labelling.total costs).
Proof.
  induction l as [|[x y] l IH]; simpl.
  - intros _. exists []. by split; [constructor|].
  - destruct (Tree.state x) as [stx|] eqn:Hx; simpl; [|done].
    destruct (State.has_goal stx y) eqn:Hg; [|done].
    apply has_goal_true in Hg as (c & r & Hc). intros (costs & Hcosts & Hsum)%IH.
    exists (c :: costs). split.
    + constructor; [|done]. by exists stx, r.
    + unfold State.get_cost. rewrite Hc, Hsum. done.
Qed.

Lemma set_cost_Ok tree st goal c r :
  Tree.state tree = Some st →
  Matcher.set_cost tree goal c r
  = Ok (Tree.set_state tree (State.set_cost st goal c r)).
Proof. unfold Matcher.set_cost. by intros ->. Qed.

Lemma run_chain_Ok crs c tree st :
  Tree.state tree = Some st →
  Matcher.run_chain crs c tree
  = Ok (Tree.set_state tree (Labelling.offer_chain crs c st)).
Proof.
  revert tree st. induction crs as [|cr crs IH]; intros tree st Hst; simpl.
  - f_equal. destruct tree. simpl in *. by subst.
  - rewrite (set_cost_Ok _ _ _ _ _ Hst). simpl. by erewrite IH.
Qed.

(** A record whose rule applies: the candidate cost is the cost of the rule
    plus the costs of its holes, and the state receives the offer for the
    rule's own category and then one offer per chain rule. *)
Lemma run_record_match r tree st ns ks :
  Tree.state tree = Some st →
  BaseMatcher.nts (Matcher.nts_map code) (Rule.nr (Py.rule r)) = Ok ns →
  BaseMatcher.kids (Matcher.kid_functions code) tree (Rule.nr (Py.rule r)) = Ok ks →
  Matcher.all_has_goal (zip ks ns) = Ok true →
  (Rule.has_acceptance (Py.rule r) = true → A (Rule.nr (Py.rule r)) tree = true) →
  ∃ costs,
    Forall2 Labelling.hole_cost (zip ks ns) costs
    ∧ Matcher.run_record code A r tree
      = Ok (Tree.set_state tree
              (Labelling.record_state r
                 (Labelling.total costs + Rule.cost (Py.rule r)) st)).
Proof.
  intros Hst Hns Hks Hall Hacc.
  destruct (all_has_goal_true _ Hall) as (costs & Hcosts & Hsum).
  exists costs. split; [done|].
  unfold Matcher.run_record. rewrite Hns, Hks. simpl. rewrite Hall. simpl.
  assert ((if Rule.has_acceptance (Py.rule r)
           then A (Rule.nr (Py.rule r)) tree else true) = true) as ->.
  { destruct (Rule.has_acceptance _); auto. }
  rewrite Hsum. simpl. rewrite (set_cost_Ok _ _ _ _ _ Hst). simpl.
  by erewrite run_chain_Ok.
Qed.

Lemma run_case_match c tree st ns ks :
  Py.eval_cond (Py.condition c) tree = Ok true →
  Tree.state tree = Some st →
  BaseMatcher.nts (Matcher.nts_map code) (Rule.nr (Py.rule (Py.body c))) = Ok ns →
  BaseMatcher.kids (Matcher.kid_functions code) tree
                   (Rule.nr (Py.rule (Py.body c))) = Ok ks →
  Matcher.all_has_goal (zip ks ns) = Ok true →
  (Rule.has_acceptance (Py.rule (Py.body c)) = true →
   A (Rule.nr (Py.rule (Py.body c))) tree = true) →
  ∃ costs,
    Forall2 Labelling.hole_cost (zip ks ns) costs
    ∧ Matcher.run_case code A c tree
      = Ok (Tree.set_state tree
              (Labelling.record_state (Py.body c)
                 (Labelling.total costs + Rule.cost (Py.rule (Py.body c))) st)).
Proof.
  intros Hcond Hst Hns Hks Hall Hacc. unfold Matcher.run_case.
  rewrite Hcond. simpl. by apply run_record_match.
Qed.

End Record.

(** ** Candidate costs and chain propagation *)

Section Costs.

Lemma example_parse : BurgParser.parse [] Example.calls = Ok Example.system.
Proof. vm_compute. reflexivity. Qed.

Lemma example_generate : BurgGenerator.generate Example.system = Ok Example.code.
Proof. vm_compute. reflexivity. Qed.

Lemma two_hop_parse :
  BurgParser.parse [] Example.two_hop_calls = Ok Example.two_hop_system.
Proof. vm_compute. reflexivity. Qed.

Lemma two_hop_generate :
  BurgGenerator.generate Example.two_hop_system = Ok Example.two_hop_code.
Proof. vm_compute. reflexivity. Qed.

(** C4. The record of a rule for [X] offers its candidate cost [c] to [X]
    and then, once for each chain rule filed under [X], the cost [c + k] to
    the left-hand side [Y] of that chain rule; nothing else is written, so
    a category that is neither [X] nor the left-hand side of a chain rule
    filed under [X] keeps the entry it had.  With [reg -> CONST 1],
    [rc -> reg 0] and [mem -> rc 0] a [CONST] node gets [reg] and [rc] and
    no entry for [mem], which is two chain rules away. *)
Theorem chain_offers_one_hop :
  (∀ system rule r code A tree st ns ks,
     BurgGenerator.emit_record system rule = Ok r →
     Tree.state tree = Some st →
     BaseMatcher.nts (Matcher.nts_map code) (Rule.nr rule) = Ok ns →
     BaseMatcher.kids (Matcher.kid_functions code) tree (Rule.nr rule) = Ok ks →
     Matcher.all_has_goal (zip ks ns) = Ok true →
     (Rule.has_acceptance rule = true → A (Rule.nr rule) tree = true) →
     Py.chain_rules r = Invariant.chain_rules system (Rule.non_term rule)
     ∧ ∃ c st',
         Matcher.run_record code A r tree = Ok (Tree.set_state tree st')
         ∧ st' = foldl (λ st cr, State.set_cost st (Rule.non_term cr)
                                   (c + Rule.cost cr) (Rule.nr cr))
                       (State.set_cost st (Rule.non_term rule) c (Rule.nr rule))
                       (Invariant.chain_rules system (Rule.non_term rule))
         ∧ (∀ cr, cr ∈ Invariant.chain_rules system (Rule.non_term rule) →
                  ∃ c' r', st' !! Rule.non_term cr = Some (c', r')
                           ∧ c' ≤ c + Rule.cost cr)
         ∧ (∀ Y, Y ≠ Rule.non_term rule →
                 Y ∉ map Rule.non_term
                         (Invariant.chain_rules system (Rule.non_term rule)) →
                 st' !! Y = st !! Y))
  ∧ BurgParser.parse [] Example.two_hop_calls = Ok Example.two_hop_system
  ∧ BurgGenerator.generate Example.two_hop_system = Ok Example.two_hop_code
  ∧ ∃ st, Matcher.burm_label Example.two_hop_code Example.A (Tree.leaf "CONST" 7)
          = Ok (Tree.mk "CONST" (Some 7) [] (Some st))
          ∧ st !! "reg" = Some (1, 1%nat)
          ∧ st !! "rc" = Some (1, 2%nat)
          ∧ st !! "mem" = None.
Proof.
  split_and!.
  - intros system rule r code A tree st ns ks Hr Hst Hns Hks Hall Hacc.
    apply emit_record_Ok in Hr as [Hrule Hchain]. split; [done|].
    subst rule.
    destruct (run_record_match code A r tree st ns ks Hst Hns Hks Hall Hacc)
      as (costs & _ & Hrun).
    exists (Labelling.total costs + Rule.cost (Py.rule r)). eexists.
    split; [exact Hrun|]. unfold Labelling.record_state. rewrite Hchain.
    split_and!; [done| |].
    + intros cr Hcr. by apply offer_chain_offered.
    + intros Y HX HY. by rewrite offer_chain_lookup_ne, set_cost_lookup_ne.
  - apply two_hop_parse.
  - apply two_hop_generate.
  - eexists. split; [vm_compute; reflexivity|]. by vm_compute.
Qed.

Lemma chain_offers_one_hop_witness :
  ∃ c st',
    Matcher.run_record Example.code Example.A (Py.body Example.add_case)
                       Example.root_before
    = Ok (Tree.set_state Example.root_before st')
    ∧ st' !! "reg" = Some (c, 2%nat).
Proof.
  destruct (proj1 chain_offers_one_hop Example.system
              (Py.rule (Py.body Example.add_case)) (Py.body Example.add_case)
              Example.code Example.A Example.root_before ∅ ["reg"; "reg"]
              [Example.labelled_leaf 2; Example.labelled_leaf 3]
              eq_refl eq_refl eq_refl eq_refl eq_refl (λ H, eq_refl))
    as (_ & c & st' & Hrun & Hst' & _).
  exists c, st'. split; [exact Hrun|]. rewrite Hst'. reflexivity.
Defined.

End Costs.

(** ** Labelling *)

Section Shape.

Implicit Types (n t tree : Tree.t) (e : Py.expr).

Lemma forget_eq n n' :
  Tree.forget n = Tree.forget n' →
  Tree.name n = Tree.name n'
  ∧ Tree.value n = Tree.value n'
  ∧ map Tree.forget (Tree.children n) = map Tree.forget (Tree.children n').
Proof. destruct n, n'. simpl. by intros [= -> -> ->]. Qed.

Lemma forget_set_state t st : Tree.forget (Tree.set_state t st) = Tree.forget t.
Proof. by destruct t. Qed.

Lemma set_state_id t st : Tree.state t = Some st → Tree.set_state t st = t.
Proof. destruct t. simpl. by intros ->. Qed.

Lemma set_state_set_state t st st' :
  Tree.set_state (Tree.set_state t st) st' = Tree.set_state t st'.
Proof. done. Qed.

Lemma labelled_eq t :
  Tree.labelled t ↔ is_Some (Tree.state t) ∧ Forall Tree.labelled (Tree.children t).
Proof.
  destruct t as [nm v cs st]. simpl.
  assert ((fix all (l : list Tree.t) : Prop :=
             match l with
             | [] => True
             | c :: l' => Tree.labelled c ∧ all l'
             end) cs ↔ Forall Tree.labelled cs) as ->; [|done].
  induction cs as [|c cs IH]; [by split|].
  rewrite Forall_cons, IH. done.
Qed.

Lemma lookup_forget (cs cs' : list Tree.t) i :
  map Tree.forget cs = map Tree.forget cs' →
  match cs !! i, cs' !! i with
  | Some x, Some x' => Tree.forget x = Tree.forget x'
  | None, None => True
  | _, _ => False
  end.
Proof.
  intros H.
  assert ((Tree.forget <$> cs) !! i = (Tree.forget <$> cs') !! i) as Hi
    by (by unfold fmap, list_fmap; fold (map Tree.forget); rewrite H).
  rewrite !list_lookup_fmap in Hi.
  destruct (cs !! i), (cs' !! i); simpl in Hi; by simplify_eq.
Qed.

(** The value of a path depends on the shape of the tree only. *)
Lemma eval_expr_shape e n n' :
  Tree.forget n = Tree.forget n' →
  match Py.eval_expr e n, Py.eval_expr e n' with
  | Ok x, Ok x' => Tree.forget x = Tree.forget x'
  | Raise err, Raise err' => err = err'
  | _, _ => False
  end.
Proof.
  intros Hn. induction e as [x|e IH i]; simpl; [done|].
  destruct (Py.eval_expr e n) as [y|], (Py.eval_expr e n') as [y'|];
    simpl; try done.
  apply forget_eq in IH as (_ & _ & Hcs).
  pose proof (lookup_forget _ _ i Hcs) as Hi.
  by destruct (Tree.children y !! i), (Tree.children y' !! i).
Qed.

Lemma eval_and_ext (f g : Py.cond → Res bool) cts :
  Forall (λ ct, f ct = g ct) cts → Py.eval_and f cts = Py.eval_and g cts.
Proof.
  induction 1 as [|ct cts Hct _ IH]; simpl; [done|].
  rewrite Hct. destruct (g ct) as [[]|]; simpl; auto.
Qed.

(** So does the value of a test. *)
Lemma eval_cond_shape c n n' :
  Tree.forget n = Tree.forget n' → Py.eval_cond c n = Py.eval_cond c n'.
Proof.
  intros Hn. induction c as [prefix nm cts IH] using Py.cond_ind'. simpl.
  pose proof (eval_expr_shape prefix n n' Hn) as He.
  destruct (Py.eval_expr prefix n) as [y|], (Py.eval_expr prefix n') as [y'|];
    simpl; try done; [|by subst].
  apply forget_eq in He as (-> & _). destruct (String.eqb _ _); [|done].
  by apply eval_and_ext.
Qed.

Lemma kids_shape (f : list Py.expr) n n' ks :
  Tree.forget n = Tree.forget n' →
  mapM (λ e, Py.eval_expr e n) f = Ok ks →
  ∃ ks', mapM (λ e, Py.eval_expr e n') f = Ok ks'.
Proof.
  intros Hn. revert ks. induction f as [|e f IH]; intros ks; simpl; [by eexists|].
  intros (x & Hx & (xs & Hxs & _)%bind_Ok)%bind_Ok.
  pose proof (eval_expr_shape e n n' Hn) as He. rewrite Hx in He.
  destruct (Py.eval_expr e n') as [x'|]; [|done].
  destruct (IH _ Hxs) as [ks' ->]. simpl. by eexists.
Qed.

(** A path in a labelled tree leads to a labelled node. *)
Lemma eval_expr_labelled e n x :
  Tree.labelled n → Py.eval_expr e n = Ok x → Tree.labelled x.
Proof.
  intros Hn. revert x. induction e as [v|e IH i]; intros x; simpl.
  - by intros [= <-].
  - intros (y & Hy & Hi)%bind_Ok. specialize (IH _ Hy).
    apply labelled_eq in IH as [_ Hcs]. rewrite Forall_forall in Hcs.
    apply Hcs. destruct (Tree.children y !! i) eqn:Hl; [|done].
    simpl in Hi. injection Hi as <-. by eapply list_elem_of_lookup_2.
Qed.

Lemma kids_labelled (f : list Py.expr) n ks :
  Tree.labelled n → mapM (λ e, Py.eval_expr e n) f = Ok ks →
  Forall Tree.labelled ks.
Proof.
  intros Hn H%mapM_Ok. induction H as [|e x f ks He _ IH]; constructor; [|done].
  by eapply eval_expr_labelled.
Qed.

Lemma all_has_goal_total (ks : list Tree.t) (ns : list string) :
  Forall Tree.labelled ks → ∃ b, Matcher.all_has_goal (zip ks ns) = Ok b.
Proof.
  intros H. revert ns. induction H as [|x ks Hx _ IH]; intros [|y ns]; simpl;
    try by eexists.
  apply labelled_eq in Hx as [[st ->] _]. simpl.
  destruct (State.has_goal st y); [apply IH|by eexists].
Qed.

End Shape.

Section Label.

Variable code : Py.matcher.
Variable A : nat → Tree.t → bool.

Implicit Types (n t tree : Tree.t).

(** A record changes the state of the node and nothing else. *)
Lemma run_record_Ok r tree tree' :
  is_Some (Tree.state tree) →
  Matcher.run_record code A r tree = Ok tree' →
  ∃ st', tree' = Tree.set_state tree st'.
Proof.
  intros [st Hst]. unfold Matcher.run_record.
  intros (ns & _ & (ks & _ & (ok & _ & H)%bind_Ok)%bind_Ok)%bind_Ok.
  destruct (ok && _).
  - apply bind_Ok in H as (s & _ & H).
    rewrite (set_cost_Ok _ _ _ _ _ Hst) in H. simpl in H.
    erewrite run_chain_Ok in H by done. injection H as <-. by eexists.
  - injection H as <-. exists st. by rewrite set_state_id.
Qed.

Lemma run_cases_Ok cases tree tree' :
  is_Some (Tree.state tree) →
  Matcher.run_cases code A cases tree = Ok tree' →
  ∃ st', tree' = Tree.set_state tree st'.
Proof.
  revert tree. induction cases as [|c cases IH]; intros tree [st Hst]; simpl.
  - intros [= <-]. exists st. by rewrite set_state_id.
  - intros (tree1 & H1 & Hrest)%bind_Ok.
    assert (∃ st1, tree1 = Tree.set_state tree st1) as [st1 ->].
    { unfold Matcher.run_case in H1. apply bind_Ok in H1 as ([] & _ & H1).
      - by eapply run_record_Ok.
      - injection H1 as <-. exists st. by rewrite set_state_id. }
    apply IH in Hrest as [st' ->]; [|by eexists]. by eexists.
Qed.

Lemma burm_label_eq t :
  Matcher.burm_label code A t =
  do cs <- mapM (Matcher.burm_label code A) (Tree.children t);
  Matcher.burm_state code A
    (Tree.mk (Tree.name t) (Tree.value t) cs (Tree.state t)).
Proof. by destruct t. Qed.

(** When labelling returns, every node of the result has a state, and the
    result is the tree it was given, up to the states. *)
Lemma burm_label_Ok t :
  ∀ t', Matcher.burm_label code A t = Ok t' →
        Tree.labelled t' ∧ Tree.forget t' = Tree.forget t.
Proof.
  induction t as [nm v cs st IH] using Tree.ind'. intros t'.
  rewrite burm_label_eq. simpl.
  intros (cs' & Hcs%mapM_Ok & Hst)%bind_Ok.
  unfold Matcher.burm_state in Hst.
  apply run_cases_Ok in Hst as [st' ->]; [|by eexists].
  assert (Forall Tree.labelled cs' ∧ map Tree.forget cs' = map Tree.forget cs)
    as [Hlab Hforget].
  { clear -Hcs IH. induction Hcs as [|c c' cs cs' Hc _ IHcs]; [done|].
    apply Forall_cons in IH as [IHc IH].
    destruct (IHc _ Hc) as [? ?], (IHcs IH) as [? ?].
    split; [by constructor|simpl; congruence]. }
  split.
  - apply labelled_eq. simpl. split; [by eexists|done].
  - simpl. by rewrite Hforget.
Qed.

(** A record does not raise on a node whose kids can be found. *)
Lemma run_record_total r tree st ns ks :
  Tree.state tree = Some st → Tree.labelled tree →
  BaseMatcher.nts (Matcher.nts_map code) (Rule.nr (Py.rule r)) = Ok ns →
  BaseMatcher.kids (Matcher.kid_functions code) tree (Rule.nr (Py.rule r)) = Ok ks →
  ∃ st', Matcher.run_record code A r tree = Ok (Tree.set_state tree st').
Proof.
  intros Hst Hlab Hns Hks.
  assert (Forall Tree.labelled ks) as Hkl.
  { unfold BaseMatcher.kids in Hks. apply bind_Ok in Hks as (f & _ & Hks).
    by eapply kids_labelled. }
  destruct (all_has_goal_total ks ns Hkl) as [ok Hok].
  destruct (ok && (if Rule.has_acceptance (Py.rule r)
                   then A (Rule.nr (Py.rule r)) tree else true)) eqn:Hgo.
  - apply andb_true_iff in Hgo as [-> Hacc].
    destruct (run_record_match code A r tree st ns ks Hst Hns Hks Hok)
      as (costs & _ & ->); [|by eexists].
    intros Hhas. by rewrite Hhas in Hacc.
  - unfold Matcher.run_record. rewrite Hns, Hks. simpl. rewrite Hok. simpl.
    rewrite Hgo. exists st. by rewrite set_state_id.
Qed.

Lemma probe_ok_shape c n n' :
  Labelling.probe_ok code c n = true →
  Tree.forget n = Tree.forget n' →
  Labelling.probe_ok code c n' = true.
Proof.
  unfold Labelling.probe_ok. intros H Hn.
  rewrite <- (eval_cond_shape _ n n' Hn).
  destruct (Py.eval_cond (Py.condition c) n) as [[]|]; try done.
  destruct (BaseMatcher.nts _ _); [|done].
  unfold BaseMatcher.kids in *.
  destruct (Matcher.kid_functions code !! _) as [f|]; simpl in *; [|done].
  destruct (mapM _ f) as [ks|] eqn:Hks; [|done].
  by destruct (kids_shape f n n' ks Hn Hks) as [ks' ->].
Qed.

Lemma run_cases_total cases tree :
  Forall (λ c, Labelling.probe_ok code c tree = true) cases →
  Tree.labelled tree →
  ∃ st', Matcher.run_cases code A cases tree = Ok (Tree.set_state tree st').
Proof.
  revert tree. induction cases as [|c cases IH]; intros tree Hp Hlab; simpl.
  - pose proof Hlab as [[st Hst] _]%labelled_eq. exists st.
    by rewrite set_state_id.
  - apply Forall_cons in Hp as [Hc Hp].
    pose proof Hlab as [[st Hst] Hcs]%labelled_eq.
    assert (∃ st1, Matcher.run_case code A c tree
                   = Ok (Tree.set_state tree st1)) as [st1 ->].
    { unfold Matcher.run_case. unfold Labelling.probe_ok in Hc.
      destruct (Py.eval_cond (Py.condition c) tree) as [[]|]; simpl; [| |done].
      - destruct (BaseMatcher.nts _ _) as [ns|] eqn:Hns; [|done].
        destruct (BaseMatcher.kids _ _ _) as [ks|] eqn:Hks; [|done].
        by eapply run_record_total.
      - exists st. by rewrite set_state_id. }
    simpl. destruct (IH (Tree.set_state tree st1)) as [st' ->].
    + eapply Forall_impl; [exact Hp|]. intros c' Hc'. simpl in Hc'.
      eapply probe_ok_shape; [exact Hc'|]. by rewrite forget_set_state.
    + apply labelled_eq. simpl. split; [by eexists|done].
    + by eexists.
Qed.

Lemma well_shaped_eq t :
  Labelling.well_shaped code t =
  forallb (λ c, Labelling.probe_ok code c t) (Py.burm_state code)
  && forallb (Labelling.well_shaped code) (Tree.children t).
Proof. by destruct t. Qed.

(** Labelling returns on a tree that has, at every node, the children that
    the emitted code indexes. *)
Lemma burm_label_total t :
  Labelling.well_shaped code t = true →
  ∃ t', Matcher.burm_label code A t = Ok t'.
Proof.
  induction t as [nm v cs st IH] using Tree.ind'.
  rewrite well_shaped_eq, burm_label_eq. simpl.
  intros [Hp Hcs]%andb_true_iff.
  destruct (mapM_total (Matcher.burm_label code A) cs) as [cs' Hcs'].
  { rewrite forallb_forall in Hcs. rewrite Forall_forall in IH |- *.
    intros c Hc. apply IH; [done|]. apply Hcs. by apply list_elem_of_In. }
  rewrite Hcs'. simpl. unfold Matcher.burm_state.
  assert (Forall Tree.labelled cs' ∧ map Tree.forget cs' = map Tree.forget cs)
    as [Hlab Hforget].
  { apply mapM_Ok in Hcs'. clear -Hcs'.
    induction Hcs' as [|c c' cs cs' Hc _ IHcs]; [done|].
    destruct (burm_label_Ok _ _ Hc) as [? ?], IHcs as [? ?].
    split; [by constructor|simpl; congruence]. }
  destruct (run_cases_total (Py.burm_state code)
              (Tree.set_state (Tree.mk nm v cs' st) State.empty)) as [st' ->].
  - apply Forall_forall. intros c Hc.
    rewrite forallb_forall in Hp.
    eapply probe_ok_shape; [apply Hp; by apply list_elem_of_In|].
    simpl. by rewrite Hforget.
  - apply labelled_eq. simpl. split; [by eexists|done].
  - by eexists.
Qed.

End Label.

(** ** The driver *)

Section Driver.

Context {R W : Type}.
Variable code : Py.matcher.
Variable A : nat → Tree.t → bool.
Variable P : nat → Tree.t → list R → W → R * W.

Lemma of_option_error {B} (o : option B) e e' :
  of_option o e = Raise e' → e' = e.
Proof. destruct o; simpl; congruence. Qed.

Lemma bind_Raise {B C} (m : Res B) (k : B → Res C) e :
  bind m k = Raise e ↔ m = Raise e ∨ ∃ b, m = Ok b ∧ k b = Raise e.
Proof. destruct m; simpl; naive_solver. Qed.

Lemma eval_expr_error e tree err :
  Py.eval_expr e tree = Raise err → err = IndexError.
Proof.
  induction e as [x|e IH i]; simpl; [done|].
  intros [H|(n & _ & H%of_option_error)]%bind_Raise; auto.
Qed.

Lemma kids_error kid_functions tree rule err :
  BaseMatcher.kids kid_functions tree rule = Raise err → selection_error err.
Proof.
  unfold BaseMatcher.kids, selection_error.
  intros [H%of_option_error|(f & _ & H)]%bind_Raise; [auto|].
  induction f as [|e f IH]; simpl in H; [done|].
  apply bind_Raise in H as [H%eval_expr_error|(x & _ & H)]; [auto|].
  apply bind_Raise in H as [H|(xs & _ & H)]; [auto|done].
Qed.

Lemma results_error (sel : Tree.t → string → W → Res (R * W)) l w err :
  (∀ t g w' err', sel t g w' = Raise err' → selection_error err') →
  BaseMatcher.results sel l w = Raise err → selection_error err.
Proof.
  intros Hsel. revert w. induction l as [|[t g] l IH]; intros w; simpl; [done|].
  intros [H|(r & _ & H)]%bind_Raise; [by eapply Hsel|].
  apply bind_Raise in H as [H|(rs & _ & H)]; [by eapply IH|done].
Qed.

Lemma apply_rules_error depth tree goal w err :
  Matcher.apply_rules code P depth tree goal w = Raise err →
  selection_error err.
Proof.
  unfold Matcher.apply_rules. revert tree goal w err.
  induction depth as [|depth IH]; intros tree goal w err; simpl.
  - intros [= <-]. by left.
  - intros [H%of_option_error|(st & _ & H)]%bind_Raise;
      [unfold selection_error; auto|].
    apply bind_Raise in H as [H%of_option_error|(rule & _ & H)];
      [unfold selection_error; auto|].
    apply bind_Raise in H as [H%kids_error|(ks & _ & H)]; [done|].
    apply bind_Raise in H as [H%of_option_error|(ns & _ & H)];
      [unfold selection_error; auto|].
    apply bind_Raise in H as [H%results_error|(rs & _ & H)]; [done|apply IH|].
    apply bind_Raise in H as [H%of_option_error|(f & _ & H)];
      [unfold selection_error; auto|done].
Qed.

(** [gen] after labelling has returned: the failure that carries the tree,
    or the result of [apply_rules]. *)
Lemma gen_after_label depth tree w tree' :
  Matcher.burm_label code A tree = Ok tree' →
  Tree.forget tree' = Tree.forget tree
  ∧ ∃ st,
      Tree.state tree' = Some st
      ∧ (State.has_goal st (Py.goal code) = false ↔
         Matcher.gen code A P depth tree w = Raise (Exception_not_covered tree'))
      ∧ (State.has_goal st (Py.goal code) = false ↔
         ∃ t, Matcher.gen code A P depth tree w = Raise (Exception_not_covered t))
      ∧ (State.has_goal st (Py.goal code) = true →
         Matcher.gen code A P depth tree w
         = Matcher.apply_rules code P depth tree' (Py.goal code) w)
      ∧ (∀ system, BurgGenerator.generate system = Ok code →
                   Py.goal code = BurgGenerator.goal_str system).
Proof.
  intros Hlabel. destruct (burm_label_Ok code A _ _ Hlabel) as [Hlab Hforget].
  split; [done|]. apply labelled_eq in Hlab as [[st Hst] _]. exists st.
  split; [done|]. unfold Matcher.gen. rewrite Hlabel. simpl. rewrite Hst. simpl.
  assert (∀ t, Matcher.apply_rules code P depth tree' (Py.goal code) w
               ≠ Raise (Exception_not_covered t)) as Hnot.
  { intros t [H|[H|[H|H]]]%apply_rules_error; done. }
  destruct (State.has_goal st (Py.goal code)); simpl.
  - split_and!; [split; [done|by intros ?%Hnot]
                |split; [done|by intros [t ?%Hnot]]|done|].
    by intros system (_ & ? & _)%generate_Ok.
  - split_and!; [done|split; [by eexists|done]|done|].
    by intros system (_ & ? & _)%generate_Ok.
Qed.

End Driver.

(** ** More invariants of the construction: numbers and chain lists *)

Section Built.

Implicit Types (nm nt : string) (s : BurgSystem.t).

Lemma chain_rules_add_rule_result s nt tree cost acceptance template nm :
  Invariant.wf s →
  Invariant.chain_rules
    (Invariant.add_rule_result s nt tree cost acceptance template) nm =
  Invariant.chain_rules s nm
  ++ (if Invariant.is_chain s tree && bool_decide (nm = Tree.name tree)
      then [Invariant.new_rule s nt tree cost acceptance template] else []).
Proof.
  intros Hwf. case_bool_decide as Hnm.
  - subst nm. destruct (Invariant.is_chain s tree) eqn:Hch; simpl.
    + by apply add_rule_result_chain_rules.
    + unfold Invariant.chain_rules, Invariant.add_rule_result.
      rewrite Hch. simpl. rewrite lookup_ensure, app_nil_r.
      destruct (BurgSystem.lookup _ _); [done|]. by case_decide.
  - rewrite andb_false_r, app_nil_r.
    unfold Invariant.chain_rules, Invariant.add_rule_result. simpl.
    rewrite lookup_ensure.
    destruct (Invariant.is_chain s tree).
    + rewrite lookup_append_chain_rule, decide_False, lookup_ensure by done.
      destruct (BurgSystem.lookup nm _); [done|].
      rewrite decide_False by done. by case_decide.
    + destruct (BurgSystem.lookup nm _); [done|]. by case_decide.
Qed.

Lemma chain_rules_add_terminal s x s' nm :
  BurgSystem.add_terminal s x = Ok s' →
  Invariant.chain_rules s' nm = Invariant.chain_rules s nm.
Proof.
  unfold BurgSystem.add_terminal, BurgSystem.install, Invariant.chain_rules.
  destruct (BurgSystem.lookup x (BurgSystem.symbols s)) as [sy|] eqn:Hl.
  - destruct (Symbol.cls_eqb _ _); simpl; by intros [= <-].
  - simpl. intros [= <-]. simpl. rewrite lookup_app.
    destruct (BurgSystem.lookup nm (BurgSystem.symbols s)); [done|]. simpl.
    by destruct (String.eqb x nm).
Qed.

Lemma init_built header : Invariant.built (BurgSystem.mk [] [] None header).
Proof.
  split; [apply init_inv|]. split.
  - by intros i r H.
  - by intros X cr H%elem_of_nil.
Qed.

Lemma step_built s c s' :
  Invariant.built s → BurgParser.step s c = Ok s' → Invariant.built s'.
Proof.
  intros (Hinv & Hnum & Hch) Hstep.
  split; [by eapply step_inv|].
  destruct c as [x|nt tree cost acceptance template]; simpl in Hstep.
  - pose proof (add_terminal_Ok _ _ _ (proj1 Hinv) Hstep)
      as (_ & _ & Hrules & _).
    split.
    + intros i r. rewrite Hrules. apply Hnum.
    + intros X cr. rewrite (chain_rules_add_terminal _ _ _ _ Hstep), Hrules.
      apply Hch.
  - rewrite (add_rule_cases _ _ _ _ _ _ (proj1 Hinv)) in Hstep.
    destruct (BurgSystem.mem nt (BurgSystem.terminals s)); [done|].
    injection Hstep as <-. split.
    + intros i r. simpl. intros [Hi|[Hi Hr]]%lookup_app_Some; [by apply Hnum|].
      apply list_lookup_singleton_Some in Hr as [Hi0 <-]. simpl. lia.
    + intros X cr. rewrite chain_rules_add_rule_result by apply Hinv.
      simpl. intros [Hin|Hin]%elem_of_app.
      * destruct (Hch _ _ Hin). split; [|done]. apply elem_of_app. by left.
      * destruct (Invariant.is_chain s tree); simpl in Hin;
          [|by apply elem_of_nil in Hin].
        case_bool_decide; [|by apply elem_of_nil in Hin].
        apply list_elem_of_singleton in Hin as ->. split; [|done].
        apply elem_of_app. right. left.
Qed.

Lemma run_built calls s s' :
  Invariant.built s → BurgParser.run calls s = Ok s' → Invariant.built s'.
Proof.
  revert s. induction calls as [|c calls IH]; intros s Hb; simpl.
  - by intros [= <-].
  - intros (s1 & Hs1 & Hrun)%bind_Ok. eapply IH; [|done]. by eapply step_built.
Qed.

Lemma parse_built header calls s :
  BurgParser.parse header calls = Ok s → Invariant.built s.
Proof. intros H. eapply run_built; [apply init_built|exact H]. Qed.

Lemma numbered_NoDup s :
  Invariant.numbered s → NoDup (map Rule.nr (BurgSystem.rules s)).
Proof.
  intros Hnum. apply NoDup_alt. intros i j n Hi Hj.
  change (map Rule.nr ?l) with (Rule.nr <$> l) in Hi, Hj.
  rewrite list_lookup_fmap in Hi, Hj.
  destruct (BurgSystem.rules s !! i) as [ri|] eqn:Hri; [|done].
  destruct (BurgSystem.rules s !! j) as [rj|] eqn:Hrj; [|done].
  simpl in *. apply Hnum in Hri, Hrj. simplify_eq. lia.
Qed.

End Built.

(** ** The tables of the emitted class *)

Section Tables.

Lemma foldl_insert_notin {E V} (key : E → nat) (val : E → V) l
    (d : gmap nat V) k :
  k ∉ map key l →
  foldl (λ d e, <[key e := val e]> d) d l !! k = d !! k.
Proof.
  revert d. induction l as [|e l IH]; intros d Hk; simpl; [done|].
  simpl in Hk. apply not_elem_of_cons in Hk as [Hne Hk].
  by rewrite IH, lookup_insert_ne.
Qed.

Lemma foldl_insert_lookup {E V} (key : E → nat) (val : E → V) l
    (d : gmap nat V) e :
  NoDup (map key l) → e ∈ l →
  foldl (λ d e, <[key e := val e]> d) d l !! key e = Some (val e).
Proof.
  revert d. induction l as [|e0 l IH]; intros d Hnd Hin; simpl.
  - by apply elem_of_nil in Hin.
  - simpl in Hnd. apply NoDup_cons in Hnd as [Hk Hnd].
    apply elem_of_cons in Hin as [->|Hin]; [|by apply IH].
    by rewrite foldl_insert_notin, lookup_insert_eq.
Qed.

Context {R W : Type}.
Variable system : BurgSystem.t.
Variable code : Py.matcher.
Variable P : nat → Tree.t → list R → W → R * W.
Hypothesis Hnum : Invariant.numbered system.
Hypothesis Hgen : BurgGenerator.generate system = Ok code.

Lemma entries_NoDup :
  NoDup (map (λ e, Rule.nr (Py.entry_rule e)) (Py.entries code)).
Proof.
  apply generate_Ok in Hgen as (_ & _ & ->). rewrite map_map. simpl.
  by apply numbered_NoDup.
Qed.

Lemma entry_of_rule rule :
  rule ∈ BurgSystem.rules system →
  Py.mk_entry rule
    (BurgGenerator.compute_kids system (Rule.tree rule) (Py.Var "t")).1
    (BurgGenerator.compute_kids system (Rule.tree rule) (Py.Var "t")).2
  ∈ Py.entries code.
Proof.
  intros Hin. apply generate_Ok in Hgen as (_ & _ & ->).
  change (map ?f ?l) with (f <$> l). apply list_elem_of_fmap. by exists rule.
Qed.

Lemma kid_functions_lookup rule :
  rule ∈ BurgSystem.rules system →
  Matcher.kid_functions code !! Rule.nr rule
  = Some (BurgGenerator.compute_kids system (Rule.tree rule) (Py.Var "t")).1.
Proof.
  intros Hin. unfold Matcher.kid_functions.
  by rewrite (foldl_insert_lookup (λ e, Rule.nr (Py.entry_rule e)) Py.kids
                _ _ _ entries_NoDup (entry_of_rule _ Hin)).
Qed.

Lemma nts_map_lookup rule :
  rule ∈ BurgSystem.rules system →
  Matcher.nts_map code !! Rule.nr rule
  = Some (BurgGenerator.compute_kids system (Rule.tree rule) (Py.Var "t")).2.
Proof.
  intros Hin. unfold Matcher.nts_map.
  by rewrite (foldl_insert_lookup (λ e, Rule.nr (Py.entry_rule e)) Py.nts
                _ _ _ entries_NoDup (entry_of_rule _ Hin)).
Qed.

Lemma pat_f_lookup rule :
  rule ∈ BurgSystem.rules system →
  Matcher.pat_f code P !! Rule.nr rule = Some (P (Rule.nr rule)).
Proof.
  intros Hin. unfold Matcher.pat_f.
  by rewrite (foldl_insert_lookup (λ e, Rule.nr (Py.entry_rule e))
                (λ e, P (Rule.nr (Py.entry_rule e)))
                _ _ _ entries_NoDup (entry_of_rule _ Hin)).
Qed.

End Tables.

(** ** Labelling justifies every entry *)

Section Paths.

Variable system : BurgSystem.t.

Implicit Types (n t : Tree.t) (p e : Py.expr).

(** A path that goes down at least one level does not see the state of
    the node it starts from. *)
Lemma eval_child_set_state e i n st :
  Py.eval_expr (Py.Child e i) (Tree.set_state n st)
  = Py.eval_expr (Py.Child e i) n.
Proof.
  revert i. induction e as [x|e IH j]; intros i; [done|].
  change (Py.eval_expr (Py.Child (Py.Child e j) i) ?m)
    with (do y <- Py.eval_expr (Py.Child e j) m;
          of_option (Tree.children y !! i) IndexError).
  by rewrite IH.
Qed.

Lemma mapM_eval_set_state paths n st :
  Forall Selection.is_child paths →
  mapM (λ e, Py.eval_expr e (Tree.set_state n st)) paths
  = mapM (λ e, Py.eval_expr e n) paths.
Proof.
  induction 1 as [|p paths Hp _ IH]; simpl; [done|].
  destruct p as [x|e i]; [done|]. by rewrite eval_child_set_state, IH.
Qed.

Lemma holes_of_children_is_child path cs :
  Forall (λ c, ∀ p, Selection.is_child p →
               Forall Selection.is_child (PatternSpec.holes system c p).*1) cs →
  ∀ i, Forall Selection.is_child
         (PatternSpec.holes_of_children (PatternSpec.holes system) path cs i).*1.
Proof.
  induction 1 as [|c cs Hc _ IH]; intros i; simpl; [done|].
  rewrite fmap_app. apply Forall_app. split; [by apply Hc|apply IH].
Qed.

Lemma holes_is_child t :
  ∀ p, Selection.is_child p →
       Forall Selection.is_child (PatternSpec.holes system t p).*1.
Proof.
  induction t as [nm v cs st IH] using Tree.ind'. intros p Hp.
  rewrite holes_eq. destruct (PatternSpec.is_hole _ _); simpl.
  - by constructor.
  - by apply holes_of_children_is_child.
Qed.

(** The holes of a pattern that is rooted at a terminal lie below the
    root. *)
Lemma kids_of_is_child r :
  PatternSpec.is_hole system (Rule.tree r) = false →
  Forall Selection.is_child (Selection.kids_of system r).
Proof.
  intros Hroot. unfold Selection.kids_of. rewrite compute_kids_holes. simpl.
  rewrite holes_eq, Hroot. apply holes_of_children_is_child.
  apply Forall_forall. intros c _. apply holes_is_child.
Qed.

(** The holes of a chain rule are the node itself, for the category of the
    pattern. *)
Lemma kids_of_hole r :
  PatternSpec.is_hole system (Rule.tree r) = true →
  Selection.kids_of system r = [Py.Var "t"]
  ∧ Selection.nts_of system r = [Tree.name (Rule.tree r)].
Proof.
  intros Hroot. unfold Selection.kids_of, Selection.nts_of.
  rewrite compute_kids_eq. by rewrite Hroot.
Qed.

Lemma kids_nts_length r :
  length (Selection.kids_of system r) = length (Selection.nts_of system r).
Proof.
  unfold Selection.kids_of, Selection.nts_of. rewrite compute_kids_holes.
  simpl. by rewrite !length_fmap.
Qed.

Lemma direct_ok_set_state n st r :
  Selection.direct_ok system n r →
  Selection.direct_ok system (Tree.set_state n st) r.
Proof.
  intros (Hroot & ks & Hks & Hcat). split; [done|]. exists ks.
  split; [|done]. by rewrite mapM_eval_set_state by by apply kids_of_is_child.
Qed.

Lemma tree_ok_eq t :
  Selection.tree_ok system t ↔
  Selection.node_ok system t
  ∧ Forall (Selection.tree_ok system) (Tree.children t).
Proof.
  destruct t as [nm v cs st]. simpl.
  assert ((fix all (l : list Tree.t) : Prop :=
             match l with
             | [] => True
             | c :: l' => Selection.tree_ok system c ∧ all l'
             end) cs ↔ Forall (Selection.tree_ok system) cs) as ->; [|done].
  induction cs as [|c cs IH]; [by split|].
  rewrite Forall_cons, IH. done.
Qed.

Lemma eval_expr_tree_ok e n x :
  Selection.tree_ok system n → Py.eval_expr e n = Ok x →
  Selection.tree_ok system x.
Proof.
  intros Hn. revert x. induction e as [v|e IH i]; intros x; simpl.
  - by intros [= <-].
  - intros (y & Hy & Hi)%bind_Ok. specialize (IH _ Hy).
    apply tree_ok_eq in IH as [_ Hcs]. rewrite Forall_forall in Hcs.
    apply Hcs. destruct (Tree.children y !! i) eqn:Hl; [|done].
    simpl in Hi. injection Hi as <-. by eapply list_elem_of_lookup_2.
Qed.

(** A path that goes down leads into one of the children. *)
Lemma eval_child_split e i n k :
  Py.eval_expr (Py.Child e i) n = Ok k →
  ∃ c e', c ∈ Tree.children n ∧ Py.eval_expr e' c = Ok k.
Proof.
  revert i k. induction e as [x|e IH j]; intros i k.
  - simpl. destruct (Tree.children n !! i) as [c|] eqn:Hc; [|done].
    intros [= <-]. exists c, (Py.Var x).
    split; [by eapply list_elem_of_lookup_2|done].
  - change (Py.eval_expr (Py.Child (Py.Child e j) i) n)
      with (do y <- Py.eval_expr (Py.Child e j) n;
            of_option (Tree.children y !! i) IndexError).
    intros (y & (c & e' & Hc & He')%IH & Hi)%bind_Ok.
    exists c, (Py.Child e' i). split; [done|]. simpl. by rewrite He'.
Qed.

Lemma eval_child_tree_ok p n k :
  Forall (Selection.tree_ok system) (Tree.children n) →
  Selection.is_child p → Py.eval_expr p n = Ok k →
  Selection.tree_ok system k.
Proof.
  intros Hcs Hp Hk. destruct p as [x|e i]; [done|].
  apply eval_child_split in Hk as (c & e' & Hc & He').
  rewrite Forall_forall in Hcs. by eapply eval_expr_tree_ok; [apply Hcs|].
Qed.

End Paths.

Section Offers.

Variable system : BurgSystem.t.

Implicit Types (n : Tree.t) (st : State.t) (r : Rule.t).

(** An offer keeps the state justified when it comes with a justification:
    the rule is a rule of the system, and it is either direct for the
    node, or a chain rule from a category whose entry costs no more than
    the offer. *)
Lemma set_cost_state_ok n st Y c r :
  Selection.state_ok system n st →
  0 ≤ c →
  r ∈ BurgSystem.rules system →
  (Selection.direct_ok system n r
   ∨ (PatternSpec.is_hole system (Rule.tree r) = true
      ∧ ∃ cX nrX, st !! Tree.name (Rule.tree r) = Some (cX, nrX) ∧ cX ≤ c)) →
  Selection.state_ok system n (State.set_cost st Y c (Rule.nr r)).
Proof.
  intros [rank Hst] Hc Hr Hjust.
  assert (State.set_cost st Y c (Rule.nr r) = st
          ∨ (State.set_cost st Y c (Rule.nr r) = <[Y := (c, Rule.nr r)]> st
             ∧ ∀ cY nrY, st !! Y = Some (cY, nrY) → c < cY)) as [->|[-> Hupd]].
  { unfold State.set_cost. destruct (st !! Y) as [[cY nrY]|] eqn:HY.
    - destruct (Z.ltb_spec c cY); [|by left]. right. split; [done|].
      by intros ?? [= <- <-].
    - right. split; [done|]. by intros. }
  { by exists rank. }
  set (X := Tree.name (Rule.tree r)).
  exists (λ Z, if decide (Z = Y) then S (rank X) else rank Z).
  intros Z cZ nrZ HZ. destruct (decide (Z = Y)) as [->|HZY].
  - rewrite lookup_insert_eq in HZ. injection HZ as <- <-.
    split; [done|]. exists r. split_and!; [done..|].
    destruct Hjust as [Hd|(Hhole & cX & nrX & HX & Hle)]; [by left|right].
    split; [done|]. fold X in HX |- *.
    assert (X ≠ Y) as HXY.
    { intros ->. specialize (Hupd _ _ HX). lia. }
    exists cX, nrX. rewrite lookup_insert_ne by done.
    split_and!; [done..|]. right.
    rewrite decide_False, decide_True by done. lia.
  - rewrite lookup_insert_ne in HZ by done.
    destruct (Hst _ _ _ HZ) as (HcZ & rZ & HrZ & Hnr & Hj).
    split; [done|]. exists rZ. split_and!; [done..|].
    destruct Hj as [Hd|(Hhole & cX & nrX & HX & Hle & Hlt)]; [by left|right].
    split; [done|].
    destruct (decide (Tree.name (Rule.tree rZ) = Y)) as [HeqY|HneY].
    + rewrite HeqY in HX |- *. specialize (Hupd _ _ HX).
      exists c, (Rule.nr r). rewrite lookup_insert_eq.
      split_and!; [done|lia|left; lia].
    + exists cX, nrX. rewrite lookup_insert_ne by done.
      split_and!; [done..|].
      destruct Hlt as [?|Hrank]; [by left|right].
      by rewrite !decide_False by done.
Qed.

End Offers.

(** ** The states that labelling builds are justified *)

Section LabelJustified.

Variable system : BurgSystem.t.
Variable code : Py.matcher.
Variable A : nat → Tree.t → bool.

Hypothesis Hbuilt : Invariant.built system.
Hypothesis Hgen : BurgGenerator.generate system = Ok code.
Hypothesis Hcosts : Selection.costs_ok system.

Implicit Types (n t tree : Tree.t) (st : State.t) (r : Rule.t).

Lemma terminal_not_hole r :
  Tree.name (Rule.tree r) ∈ BurgSystem.terminals system →
  PatternSpec.is_hole system (Rule.tree r) = false.
Proof.
  intros Hterm. destruct Hbuilt as ((Hwf & _) & _).
  apply elem_of_symType_kind in Hterm; [|done].
  unfold PatternSpec.is_hole. apply mem_false.
  intros Hnt%elem_of_symType_kind; [|done]. congruence.
Qed.

Lemma chain_rule_facts X cr :
  cr ∈ Invariant.chain_rules system X →
  cr ∈ BurgSystem.rules system
  ∧ Tree.name (Rule.tree cr) = X
  ∧ PatternSpec.is_hole system (Rule.tree cr) = true
  ∧ 0 ≤ Rule.cost cr.
Proof.
  intros Hin. destruct Hbuilt as ((Hwf & _) & _ & Hch).
  destruct (Hch _ _ Hin) as [Hr HX]. split_and!; [done..| |].
  - unfold PatternSpec.is_hole. apply mem_true. rewrite HX.
    apply elem_of_symType_kind; [done|]. by eapply chain_rules_kind.
  - unfold Selection.costs_ok in Hcosts. rewrite Forall_forall in Hcosts.
    by apply Hcosts.
Qed.

Lemma case_facts c :
  c ∈ Py.burm_state code →
  Py.rule (Py.body c) ∈ BurgSystem.rules system
  ∧ PatternSpec.is_hole system (Rule.tree (Py.rule (Py.body c))) = false
  ∧ Py.chain_rules (Py.body c) =
      Invariant.chain_rules system (Rule.non_term (Py.rule (Py.body c))).
Proof.
  intros Hc. pose proof Hgen as (Hcases & _)%generate_Ok.
  destruct (emit_state_cases _ _ _ Hcases Hc) as (Hr & Hterm & _ & Hchain).
  split_and!; [done| |done]. by apply terminal_not_hole.
Qed.

Lemma state_ok_set_state n st st' :
  Selection.state_ok system n st →
  Selection.state_ok system (Tree.set_state n st') st.
Proof.
  intros [rank Hst]. exists rank. intros Y c nr HY.
  destruct (Hst _ _ _ HY) as (Hc & r & Hr & Hnr & Hj).
  split; [done|]. exists r. split_and!; [done..|].
  destruct Hj as [Hd|Hch]; [left|by right]. by apply direct_ok_set_state.
Qed.

(** The offers of the chain rules filed under [X] keep the state
    justified. *)
Lemma offer_chain_state_ok n X crs c :
  (∀ cr, cr ∈ crs → cr ∈ Invariant.chain_rules system X) →
  0 ≤ c →
  ∀ st cX nrX,
    Selection.state_ok system n st →
    st !! X = Some (cX, nrX) → cX ≤ c →
    Selection.state_ok system n (Labelling.offer_chain crs c st).
Proof.
  intros Hcrs Hc. induction crs as [|cr crs IH]; intros st cX nrX Hst HX Hle;
    simpl; [done|].
  destruct (chain_rule_facts X cr) as (Hr & Hname & Hhole & Hk);
    [apply Hcrs; left|].
  destruct (set_cost_mono st (Rule.non_term cr) (c + Rule.cost cr)
              (Rule.nr cr) _ _ _ HX) as (cX' & nrX' & HX' & Hle').
  eapply (IH (λ cr' H', Hcrs cr' (list_elem_of_further _ _ _ H')));
    [|exact HX'|lia].
  apply set_cost_state_ok; [done|lia|done|]. right. split; [done|].
  rewrite Hname. exists cX, nrX. split; [done|lia].
Qed.

(** The costs of the entries of justified kids are not negative. *)
Lemma hole_costs_nonneg (l : list (Tree.t * string)) costs :
  Forall (λ kg, Selection.tree_ok system kg.1) l →
  Forall2 Labelling.hole_cost l costs → 0 ≤ Labelling.total costs.
Proof.
  intros Hok H. induction H as [|[k g] c l costs Hc _ IH]; simpl; [done|].
  apply Forall_cons in Hok as [Hk Hok]. specialize (IH Hok).
  destruct Hc as (st & r & Hst & Hg). simpl in *.
  apply tree_ok_eq in Hk as [(st' & Hst' & rank & Hentries) _].
  assert (st' = st) as -> by congruence.
  destruct (Hentries _ _ _ Hg) as [? _]. lia.
Qed.

Lemma hole_cost_has_category (l : list (Tree.t * string)) costs :
  Forall2 Labelling.hole_cost l costs → Forall (Selection.has_category) l.
Proof.
  induction 1 as [|kg c l costs (st & r & Hst & Hg) _ IH]; constructor; [|done].
  exists st. split; [done|]. by eexists.
Qed.

Lemma zip_tree_ok (ks : list Tree.t) (ns : list string) :
  Forall (Selection.tree_ok system) ks →
  Forall (λ kg, Selection.tree_ok system kg.1) (zip ks ns).
Proof.
  intros H. revert ns. induction H as [|k ks Hk _ IH]; intros [|g ns]; simpl;
    try done.
  constructor; [done|apply IH].
Qed.

Lemma kids_tree_ok paths n ks :
  Forall (Selection.tree_ok system) (Tree.children n) →
  Forall Selection.is_child paths →
  mapM (λ e, Py.eval_expr e n) paths = Ok ks →
  Forall (Selection.tree_ok system) ks.
Proof.
  intros Hcs Hpaths Hks%mapM_Ok. revert Hpaths.
  induction Hks as [|p k paths ks Hp _ IH]; [done|].
  intros [Hchild Hpaths]%Forall_cons.
  constructor; [by eapply eval_child_tree_ok|by apply IH].
Qed.

(** A record keeps the state of the node justified. *)
Lemma run_record_state_ok c tree st tree' :
  c ∈ Py.burm_state code →
  Tree.state tree = Some st →
  Forall (Selection.tree_ok system) (Tree.children tree) →
  Selection.state_ok system tree st →
  Matcher.run_record code A (Py.body c) tree = Ok tree' →
  ∃ st', tree' = Tree.set_state tree st' ∧ Selection.state_ok system tree st'.
Proof.
  intros Hc Hst Hcs Hok Hrun.
  destruct (case_facts c Hc) as (Hr & Hroot & Hchain).
  destruct Hbuilt as (_ & Hnum & _).
  set (r := Py.rule (Py.body c)) in *.
  pose proof (nts_map_lookup system code Hnum Hgen r Hr) as Hnts.
  pose proof (kid_functions_lookup system code Hnum Hgen r Hr) as Hkids.
  unfold Matcher.run_record in Hrun. fold r in Hrun.
  unfold BaseMatcher.nts, BaseMatcher.kids in Hrun.
  rewrite Hnts, Hkids in Hrun. simpl in Hrun.
  apply bind_Ok in Hrun as (ks & Hks & Hrun).
  apply bind_Ok in Hrun as (ok & Hall & Hrun).
  destruct (ok && _) eqn:Hgo; cycle 1.
  { injection Hrun as <-. exists st. by rewrite set_state_id. }
  apply andb_true_iff in Hgo as [-> Hacc].
  destruct (all_has_goal_true _ Hall) as (costs & Hcosts' & Hsum).
  rewrite Hsum in Hrun. simpl in Hrun.
  rewrite (set_cost_Ok _ _ _ _ _ Hst) in Hrun. simpl in Hrun.
  erewrite run_chain_Ok in Hrun by done. injection Hrun as <-.
  eexists. split; [done|].
  assert (Forall (Selection.tree_ok system) ks) as Hks_ok.
  { eapply kids_tree_ok; [done| |exact Hks].
    by apply (kids_of_is_child system r). }
  assert (0 ≤ Labelling.total costs) as Htotal.
  { eapply hole_costs_nonneg; [|done]. by apply zip_tree_ok. }
  assert (0 ≤ Rule.cost r) as Hcost.
  { unfold Selection.costs_ok in Hcosts. rewrite Forall_forall in Hcosts.
    by apply Hcosts. }
  set (cand := Labelling.total costs + Rule.cost r).
  destruct (set_cost_lookup st (Rule.non_term r) cand (Rule.nr r))
    as (cX & nrX & HX & Hle).
  eapply (offer_chain_state_ok tree (Rule.non_term r)); [|lia| |exact HX|done].
  - intros cr. by rewrite Hchain.
  - apply set_cost_state_ok; [done|lia|done|]. left.
    split; [done|]. exists ks. split; [done|].
    by eapply hole_cost_has_category.
Qed.

Lemma run_cases_state_ok cases :
  Forall (λ c, c ∈ Py.burm_state code) cases →
  ∀ tree st tree',
    Tree.state tree = Some st →
    Forall (Selection.tree_ok system) (Tree.children tree) →
    Selection.state_ok system tree st →
    Matcher.run_cases code A cases tree = Ok tree' →
    ∃ st', tree' = Tree.set_state tree st' ∧ Selection.state_ok system tree st'.
Proof.
  induction 1 as [|c cases Hc _ IH]; intros tree st tree' Hst Hcs Hok; simpl.
  - intros [= <-]. exists st. by rewrite set_state_id.
  - intros (tree1 & H1 & Hrest)%bind_Ok.
    assert (∃ st1, tree1 = Tree.set_state tree st1
                   ∧ Selection.state_ok system tree st1) as (st1 & -> & Hok1).
    { unfold Matcher.run_case in H1. apply bind_Ok in H1 as ([] & _ & H1).
      - by eapply run_record_state_ok.
      - injection H1 as <-. exists st. by rewrite set_state_id. }
    destruct (IH (Tree.set_state tree st1) st1 tree' eq_refl Hcs
                (state_ok_set_state _ _ _ Hok1) Hrest) as (st' & -> & Hok').
    exists st'. split; [done|].
    destruct Hok' as [rank Hentries]. exists rank. intros Y cY nrY HY.
    destruct (Hentries _ _ _ HY) as (HcY & r & Hr & Hnr & Hj).
    split; [done|]. exists r. split_and!; [done..|].
    destruct Hj as [(Hroot & ks & Hks & Hcat)|Hch]; [left|by right].
    split; [done|]. exists ks. split; [|done].
    by rewrite mapM_eval_set_state in Hks by by apply kids_of_is_child.
Qed.

(** When labelling returns, every entry of every state is justified. *)
Lemma burm_label_tree_ok t :
  ∀ t', Matcher.burm_label code A t = Ok t' → Selection.tree_ok system t'.
Proof.
  induction t as [nm v cs st IH] using Tree.ind'. intros t'.
  rewrite burm_label_eq. simpl.
  intros (cs' & Hcs%mapM_Ok & Hst)%bind_Ok.
  assert (Forall (Selection.tree_ok system) cs') as Hcs'.
  { clear -Hcs IH. induction Hcs as [|c c' cs cs' Hc _ IHcs]; [done|].
    apply Forall_cons in IH as [IHc IH]. constructor; [by apply IHc|by apply IHcs]. }
  unfold Matcher.burm_state in Hst.
  eapply (run_cases_state_ok (Py.burm_state code)) in Hst
    as (st' & -> & Hok); [| |done|done|].
  - apply tree_ok_eq. simpl. split; [|done]. exists st'. split; [done|].
    by apply state_ok_set_state.
  - by apply Forall_forall.
  - exists (λ _, 0%nat). by intros Y c nr H.
Qed.

End LabelJustified.

(** ** Selection returns *)

Section SelectionReturns.

Context {R W : Type}.
Variable system : BurgSystem.t.
Variable code : Py.matcher.
Variable P : nat → Tree.t → list R → W → R * W.

Hypothesis Hbuilt : Invariant.built system.
Hypothesis Hgen : BurgGenerator.generate system = Ok code.

Implicit Types (n x : Tree.t) (st : State.t) (r : Rule.t) (Y : string).

Lemma results_returns (l : list (Tree.t * string)) :
  Forall (λ kg, Selection.returns code P kg.1 kg.2) l →
  ∃ d0 : nat, ∀ (d : nat) (w : W),
    (d0 ≤ d)%nat →
    ∃ rs, BaseMatcher.results (Matcher.apply_rules code P d) l w = Ok rs.
Proof.
  induction 1 as [|[k g] l [d1 Hk] _ [d2 IH]]; simpl.
  - exists 0%nat. intros d w _. by eexists.
  - exists (d1 `max` d2)%nat. intros d w Hd.
    destruct (Hk d w) as [res Hres]; [lia|]. simpl in Hres.
    rewrite Hres. simpl.
    destruct (IH d res.2) as [rs Hrs]; [lia|]. rewrite Hrs. simpl.
    by eexists.
Qed.

(** One step of selection: the rule of the entry, its kids, and the
    selections for the kids. *)
Lemma apply_rules_step n st Y c r ks :
  Tree.state n = Some st →
  st !! Y = Some (c, Rule.nr r) →
  r ∈ BurgSystem.rules system →
  mapM (λ e, Py.eval_expr e n) (Selection.kids_of system r) = Ok ks →
  Forall (λ kg, Selection.returns code P kg.1 kg.2)
         (zip ks (Selection.nts_of system r)) →
  Selection.returns code P n Y.
Proof.
  intros Hst HY Hr Hks Hkids. destruct Hbuilt as (_ & Hnum & _).
  destruct (results_returns _ Hkids) as [d0 Hres].
  exists (S d0). intros [|d] w Hd; [lia|].
  unfold Matcher.apply_rules. simpl. rewrite Hst. simpl.
  unfold State.get_rule. rewrite HY. simpl.
  unfold BaseMatcher.kids, BaseMatcher.nts.
  rewrite (kid_functions_lookup system code Hnum Hgen r Hr). simpl.
  unfold Selection.kids_of in Hks. rewrite Hks. simpl.
  rewrite (nts_map_lookup system code Hnum Hgen r Hr). simpl.
  destruct (Hres d w) as [rs Hrs]; [lia|].
  unfold Matcher.apply_rules, Selection.nts_of in Hrs. rewrite Hrs. simpl.
  rewrite (pat_f_lookup system code P Hnum Hgen r Hr). simpl. by eexists.
Qed.

Lemma zip_returns (ks : list Tree.t) (ns : list string) :
  Forall (λ k, ∀ g st, Tree.state k = Some st → is_Some (st !! g) →
               Selection.returns code P k g) ks →
  Forall Selection.has_category (zip ks ns) →
  Forall (λ kg, Selection.returns code P kg.1 kg.2) (zip ks ns).
Proof.
  intros H. revert ns. induction H as [|k ks Hk _ IH]; intros [|g ns]; simpl;
    try done.
  intros [(st & Hst & Hg) Hrest]%Forall_cons.
  constructor; [by eapply Hk|by apply IH].
Qed.

(** Every entry of a node of a justified tree can be selected. *)
Lemma tree_ok_returns n :
  Selection.tree_ok system n →
  ∀ e x, Py.eval_expr e n = Ok x →
         ∀ Y st, Tree.state x = Some st → is_Some (st !! Y) →
                 Selection.returns code P x Y.
Proof.
  induction n as [nm v cs st0 IH] using Tree.ind'. intros Hok.
  pose proof Hok as [Hnode Hcs]%tree_ok_eq. simpl in Hcs.
  assert (∀ e x, Selection.is_child e →
                 Py.eval_expr e (Tree.mk nm v cs st0) = Ok x →
                 ∀ Y st, Tree.state x = Some st → is_Some (st !! Y) →
                         Selection.returns code P x Y) as Hbelow.
  { intros [z|e i] x He Hx; [done|].
    apply eval_child_split in Hx as (c & e' & Hc & He'). simpl in Hc.
    rewrite Forall_forall in IH, Hcs. by eapply IH; [|apply Hcs|]. }
  intros [z|e i] x Hx; [|by apply (Hbelow (Py.Child e i))].
  simpl in Hx. injection Hx as <-.
  destruct Hnode as (st & Hst & rank & Hentries).
  intros Y st' Hst' [[c nr] HY]. assert (st' = st) as -> by congruence.
  clear Hst'.
  remember (Z.to_nat c) as a eqn:Ha. remember (rank Y) as b eqn:Hb.
  revert b Y c nr HY Ha Hb.
  induction (lt_wf a) as [a _ IHa]. intros b.
  induction (lt_wf b) as [b _ IHb]. intros Y c nr HY Ha Hb.
  destruct (Hentries _ _ _ HY) as (Hc & r & Hr & <- & Hj).
  destruct Hj as [(Hroot & ks & Hks & Hcat)|(Hhole & cX & nrX & HX & Hle & Hlt)].
  - eapply apply_rules_step; [done..|].
    apply zip_returns; [|done].
    pose proof (kids_of_is_child system r Hroot) as Hpaths.
    apply mapM_Ok in Hks. clear Hcat. revert Hpaths.
    induction Hks as [|p k paths ks' Hp _ IHks]; [done|].
    intros [Hchild Hpaths]%Forall_cons. constructor; [|by apply IHks].
    intros g stk. by eapply Hbelow.
  - destruct (kids_of_hole system r Hhole) as [Hkids Hnts].
    eapply apply_rules_step; [done..| |].
    + rewrite Hkids. simpl. reflexivity.
    + rewrite Hnts. simpl. constructor; [|done]. simpl.
      destruct (Hentries _ _ _ HX) as (HcX & _).
      destruct (decide (cX < c)) as [Hcost|Hcost].
      * eapply (IHa (Z.to_nat cX)); [lia|done..].
      * assert (cX = c) as -> by lia.
        eapply (IHb (rank (Tree.name (Rule.tree r)))); [lia|done..].
Qed.

(** After labelling, selection returns for every category that the root
    has. *)
Lemma apply_rules_total (A : nat → Tree.t → bool) tree tree' st Y :
  Selection.costs_ok system →
  Matcher.burm_label code A tree = Ok tree' →
  Tree.state tree' = Some st →
  State.has_goal st Y = true →
  Selection.returns code P tree' Y.
Proof.
  intros Hcosts Hlabel Hst (c & nr & HY)%has_goal_true.
  eapply (tree_ok_returns tree' (burm_label_tree_ok system code A Hbuilt Hgen
                                   Hcosts _ _ Hlabel) (Py.Var "t"));
    [done..|]. by eexists.
Qed.

End SelectionReturns.

(** ** The label phase *)

Section LabelPhase.

(** C5, as the spec states it, fails: [ADD()] passes the test of
    [reg -> ADD(reg, reg)], which only compares the name, and the kid
    function of the rule then indexes children that are not there. *)
Lemma labelling_fails_on_missing_children :
  BurgGenerator.generate Example.system = Ok Example.code
  ∧ Py.eval_cond (Py.condition Example.add_case) Example.bare_add = Ok true
  ∧ Matcher.burm_label Example.code Example.A Example.bare_add = Raise IndexError.
Proof. split_and!; vm_compute; reflexivity. Qed.

(** C5, amended. The emitted code indexes the children of a node without
    looking at their number.  On a tree in which every node has a child at
    each position that the tests evaluated on it and the kid functions of
    the rules whose test it passes index, the label phase completes, every
    node of the result carries a state, and the result is the input tree
    up to the states.  (Acceptance functions are taken to return.)  In the
    matcher of a system built through the construction API the two tables
    have an entry for the rule of every case, so that only a missing child
    can keep a tree from being well shaped. *)
Theorem labelling_completes_on_well_shaped code (A : nat → Tree.t → bool) t :
  Labelling.well_shaped code t = true →
  (∃ t', Matcher.burm_label code A t = Ok t'
         ∧ Tree.labelled t'
         ∧ Tree.forget t' = Tree.forget t)
  ∧ (∀ header calls system c,
       BurgParser.parse header calls = Ok system →
       BurgGenerator.generate system = Ok code →
       c ∈ Py.burm_state code →
       is_Some (Matcher.nts_map code !! Rule.nr (Py.rule (Py.body c)))
       ∧ is_Some (Matcher.kid_functions code !! Rule.nr (Py.rule (Py.body c)))).
Proof.
  intros Hshape. split.
  - destruct (burm_label_total code A t Hshape) as [t' Ht'].
    exists t'. split; [done|]. by apply burm_label_Ok in Ht'.
  - intros header calls system c Hparse Hgen Hc.
    pose proof (parse_built _ _ _ Hparse) as Hbuilt.
    destruct (case_facts system code Hbuilt Hgen c Hc) as (Hr & _).
    destruct Hbuilt as (_ & Hnum & _).
    rewrite (nts_map_lookup system code Hnum Hgen _ Hr).
    rewrite (kid_functions_lookup system code Hnum Hgen _ Hr).
    by split; eexists.
Qed.

Lemma labelling_completes_on_well_shaped_witness :
  ∃ t', Matcher.burm_label Example.code Example.A Example.input = Ok t'
        ∧ Tree.labelled t'
        ∧ Tree.forget t' = Tree.forget Example.input.
Proof.
  exact (proj1 (labelling_completes_on_well_shaped Example.code Example.A
                  Example.input eq_refl)).
Defined.

End LabelPhase.

(** ** The lexer *)

Section Strings.

Implicit Types (c : Ascii.ascii) (s : string).

Lemma split_no_sep c s :
  c ∉ String.list_ascii_of_string s → PyStr.split c s = [s].
Proof.
  induction s as [|a s IH]; simpl; [done|].
  intros [Hne Hs]%not_elem_of_cons.
  destruct (Ascii.eqb_spec a c) as [->|_]; [done|]. by rewrite IH.
Qed.

Lemma split_app_sep c s rest :
  c ∉ String.list_ascii_of_string s →
  PyStr.split c (s +:+ String c rest) = s :: PyStr.split c rest.
Proof.
  induction s as [|a s IH]; simpl.
  - intros _. by rewrite Ascii.eqb_refl.
  - intros [Hne Hs]%not_elem_of_cons.
    destruct (Ascii.eqb_spec a c) as [->|_]; [done|]. by rewrite IH.
Qed.

(** Cutting a text at the separator gives back the pieces it was joined
    from. *)
Lemma split_join c (l : list string) :
  l ≠ [] →
  Forall (λ s, c ∉ String.list_ascii_of_string s) l →
  PyStr.split c (PyStr.join (String c "") l) = l.
Proof.
  intros Hne Hl. induction Hl as [|s l Hs Hl IH]; [done|].
  destruct l as [|s' l]; [by apply split_no_sep|].
  change (PyStr.join (String c "") (s :: s' :: l))
    with (s +:+ String c (PyStr.join (String c "") (s' :: l))).
  rewrite split_app_sep by done. by rewrite IH.
Qed.

End Strings.

Section Lexer.

Variable filename : string.
Variable base_tokenize : string → BurgLexer.stream.

Abbreviation tokenize_lines := (BurgLexer.tokenize_lines filename base_tokenize).
Abbreviation rules_tokens := (BurgLexer.rules_tokens filename base_tokenize).

Lemma significant_cons line lines :
  BurgLexer.significant (line :: lines) =
  if PyStr.truthy (PyStr.strip line)
  then PyStr.strip line :: BurgLexer.significant lines
  else BurgLexer.significant lines.
Proof.
  unfold BurgLexer.significant. simpl. rewrite filter_cons.
  destruct (PyStr.truthy (PyStr.strip line)); by case_decide.
Qed.

Lemma significant_app l l' :
  BurgLexer.significant (l ++ l') =
  BurgLexer.significant l ++ BurgLexer.significant l'.
Proof. unfold BurgLexer.significant. by rewrite map_app, filter_app. Qed.

(** Past the first separator, the loop neither reads the header lines nor
    distinguishes the sections. *)
Lemma tokenize_lines_rules lines header_lines n :
  tokenize_lines lines header_lines (S n) =
  rules_tokens (BurgLexer.significant lines).
Proof.
  revert n. induction lines as [|line lines IH]; intros n; [done|].
  rewrite significant_cons. simpl.
  destruct (PyStr.truthy (PyStr.strip line)); simpl; [|by apply IH].
  destruct (String.eqb (PyStr.strip line) "%%").
  - by rewrite IH.
  - destruct (base_tokenize (PyStr.strip line)).2; [done|]. by rewrite IH.
Qed.

(** Without a separator, the loop comes to its end in section 0. *)
Lemma tokenize_lines_no_separator lines header_lines :
  "%%" ∉ BurgLexer.significant lines →
  tokenize_lines lines header_lines 0 = ([], None).
Proof.
  revert header_lines.
  induction lines as [|line lines IH]; intros header_lines; [done|].
  rewrite significant_cons. simpl.
  destruct (PyStr.truthy (PyStr.strip line)); simpl; [|by apply IH].
  intros [Hne Hin]%not_elem_of_cons.
  destruct (String.eqb_spec (PyStr.strip line) "%%") as [Heq|_]; [done|].
  by apply IH.
Qed.

Lemma tokenize_lines_header lines header_lines hdr body :
  BurgLexer.significant lines = hdr ++ "%%" :: body →
  "%%" ∉ hdr →
  tokenize_lines lines header_lines 0 =
  (BurgLexer.header_token filename (header_lines ++ hdr)
   :: BurgLexer.section_token filename :: (rules_tokens body).1,
   (rules_tokens body).2).
Proof.
  revert header_lines hdr.
  induction lines as [|line lines IH]; intros header_lines hdr.
  { by destruct hdr. }
  rewrite significant_cons. simpl.
  destruct (PyStr.truthy (PyStr.strip line)); simpl; [|by apply IH].
  destruct hdr as [|x hdr]; simpl.
  - intros [= -> <-] _. simpl. rewrite tokenize_lines_rules.
    by rewrite app_nil_r.
  - intros [= -> Hrest] [Hne Hin]%not_elem_of_cons.
    destruct (String.eqb_spec x "%%") as [Heq|_]; [done|].
    rewrite (IH _ hdr Hrest Hin). by rewrite <- app_assoc.
Qed.

(** X1. A grammar text in which no line is the separator [%%] gives no
    token at all: its lines are collected as header lines, and the header
    token, which is yielded at the first separator, is never yielded. *)
Theorem tokenize_without_separator txt :
  "%%" ∉ BurgLexer.significant (PyStr.split BurgLexer.newline txt) →
  BurgLexer.tokenize filename base_tokenize txt = ([], None).
Proof. apply tokenize_lines_no_separator. Qed.

(** X2. A text whose lines are header lines, a separator and further lines
    gives the header token, which carries the stripped header lines that
    are not empty, then the separator token, then the tokens of the rules
    sections: a token for every further separator, and the tokens of the
    base class for every other line that is not blank, stripped, up to the
    first line on which the base class raises. *)
Theorem tokenize_header_then_rules hdr sep body :
  Forall (λ s, BurgLexer.newline ∉ String.list_ascii_of_string s)
         (hdr ++ sep :: body) →
  "%%" ∉ BurgLexer.significant hdr →
  PyStr.strip sep = "%%" →
  BurgLexer.tokenize filename base_tokenize
    (PyStr.join (String BurgLexer.newline "") (hdr ++ sep :: body)) =
  (BurgLexer.header_token filename (BurgLexer.significant hdr)
   :: BurgLexer.section_token filename
   :: (rules_tokens (BurgLexer.significant body)).1,
   (rules_tokens (BurgLexer.significant body)).2).
Proof.
  intros Hnl Hhdr Hsep. unfold BurgLexer.tokenize.
  rewrite split_join; [|by destruct hdr|done].
  apply (tokenize_lines_header _ [] (BurgLexer.significant hdr)); [|done].
  rewrite significant_app, significant_cons, Hsep. done.
Qed.

(** X3. The tokens depend on the text only through its stripped lines that
    are not empty: blank lines, and white space around a line, change
    nothing. *)
Theorem tokenize_ignores_blank_lines txt txt' :
  BurgLexer.significant (PyStr.split BurgLexer.newline txt) =
  BurgLexer.significant (PyStr.split BurgLexer.newline txt') →
  BurgLexer.tokenize filename base_tokenize txt =
  BurgLexer.tokenize filename base_tokenize txt'.
Proof.
  intros Heq. unfold BurgLexer.tokenize.
  destruct (decide ("%%" ∈ BurgLexer.significant
                             (PyStr.split BurgLexer.newline txt)))
    as [Hin|Hnot].
  - apply list_elem_of_split_l in Hin as (hdr & body & Hsplit & Hhdr).
    rewrite (tokenize_lines_header _ [] hdr body Hsplit Hhdr).
    rewrite Heq in Hsplit.
    by rewrite (tokenize_lines_header _ [] hdr body Hsplit Hhdr).
  - rewrite tokenize_lines_no_separator by done.
    rewrite Heq in Hnot. by rewrite tokenize_lines_no_separator.
Qed.

End Lexer.

Lemma tokenize_without_separator_witness :
  BurgLexer.tokenize "x.brg" LexerExample.one_token
    (PyStr.join (String BurgLexer.newline "") LexerExample.header) = ([], None).
Proof.
  apply tokenize_without_separator.
  apply (bool_decide_unpack _). vm_compute. exact I.
Defined.

Lemma tokenize_header_then_rules_witness :
  BurgLexer.tokenize "x.brg" LexerExample.one_token
    (PyStr.join (String BurgLexer.newline "")
       (LexerExample.header ++ " %% " :: LexerExample.rules)) =
  ([BurgLexer.header_token "x.brg" ["import os"; "from a import b"];
    BurgLexer.section_token "x.brg";
    BurgLexer.mk_token "id" (BurgLexer.Text "%terminal ADD")
      (BurgLexer.mk_loc "x.brg" 0 0 0);
    BurgLexer.section_token "x.brg";
    BurgLexer.mk_token "id" (BurgLexer.Text "reg: ADD")
      (BurgLexer.mk_loc "x.brg" 0 0 0)], None).
Proof.
  apply (tokenize_header_then_rules "x.brg" LexerExample.one_token
           LexerExample.header " %% " LexerExample.rules).
  - apply (bool_decide_unpack _). vm_compute. exact I.
  - apply (bool_decide_unpack _). vm_compute. exact I.
  - vm_compute. reflexivity.
Defined.

Lemma tokenize_ignores_blank_lines_witness :
  BurgLexer.tokenize "x.brg" LexerExample.one_token
    (PyStr.join (String BurgLexer.newline "") ["a"; "%%"; "b"]) =
  BurgLexer.tokenize "x.brg" LexerExample.one_token
    (PyStr.join (String BurgLexer.newline "") [" a"; ""; "%% "; ""; "  b  "]).
Proof.
  apply tokenize_ignores_blank_lines. vm_compute. reflexivity.
Defined.

(** ** The symbol table and the numbers of the rules *)

Section Symbols.

Implicit Types (s : BurgSystem.t) (nm : string) (c : Symbol.cls).

Lemma symType_NoDup s c : Invariant.wf s → NoDup (BurgSystem.symType s c).
Proof.
  intros [Hkeys Hnames]. unfold BurgSystem.symType.
  induction (BurgSystem.symbols s) as [|[k v] d IH]; simpl; [constructor|].
  simpl in Hkeys. apply NoDup_cons in Hkeys as [Hk Hkeys].
  apply Forall_cons in Hnames as [Hv Hnames]. simpl in Hv.
  specialize (IH Hkeys Hnames). rewrite filter_cons.
  case_decide; [|done]. simpl. apply NoDup_cons. split; [|done].
  change (map Symbol.name ?l) with (Symbol.name <$> l).
  intros (sy & Hsy & Hin)%list_elem_of_fmap.
  apply list_elem_of_filter in Hin as [_ Hin].
  change (map snd d) with (d.*2) in Hin.
  apply list_elem_of_fmap in Hin as ([k' v'] & -> & Hin). simpl in Hsy.
  rewrite Forall_forall in Hnames. specialize (Hnames _ Hin). simpl in Hnames.
  apply Hk. apply list_elem_of_fmap. exists (k', v'). split; [|done].
  simpl. congruence.
Qed.

(** X4. In a system built through the construction API, no name is listed
    twice among the terminals or among the non-terminals, and no name is
    both a terminal and a non-terminal. *)
Theorem symbol_classes_disjoint header calls s :
  BurgParser.parse header calls = Ok s →
  NoDup (BurgSystem.terminals s)
  ∧ NoDup (BurgSystem.non_terminals s)
  ∧ ∀ nm, nm ∈ BurgSystem.terminals s → nm ∉ BurgSystem.non_terminals s.
Proof.
  intros [Hwf _]%parse_inv. split_and!; [by apply symType_NoDup..|].
  intros nm Ht Hn.
  apply elem_of_symType_kind in Ht; [|done].
  apply elem_of_symType_kind in Hn; [|done]. congruence.
Qed.

Lemma symbol_classes_disjoint_witness :
  ∃ s, BurgParser.parse [] Example.two_hop_calls = Ok s
       ∧ BurgSystem.terminals s = ["CONST"]
       ∧ BurgSystem.non_terminals s = ["reg"; "rc"; "mem"]
       ∧ NoDup (BurgSystem.non_terminals s).
Proof.
  exists Example.two_hop_system.
  assert (BurgParser.parse [] Example.two_hop_calls = Ok Example.two_hop_system)
    as Hparse by (vm_compute; reflexivity).
  split_and!; [done|vm_compute; reflexivity..|].
  apply (symbol_classes_disjoint _ _ _ Hparse).
Defined.

Lemma symType_app_new r d g h nm c c' :
  BurgSystem.symType (BurgSystem.mk r (d ++ [(nm, Symbol.new c nm)]) g h) c' =
  BurgSystem.symType (BurgSystem.mk r d g h) c'
  ++ (if Symbol.cls_eqb c c' then [nm] else []).
Proof.
  unfold BurgSystem.symType. simpl.
  rewrite map_app, filter_app, map_app. f_equal. simpl.
  rewrite filter_cons. destruct c, c'; simpl; try case_decide; done.
Qed.

Lemma add_terminal_cases s nm :
  (Invariant.kind s nm = Some Symbol.NontermC →
     BurgSystem.add_terminal s nm = Raise AssertionError)
  ∧ (Invariant.kind s nm = Some Symbol.TermC →
     BurgSystem.add_terminal s nm = Ok s)
  ∧ (Invariant.kind s nm = None →
     ∃ s', BurgSystem.add_terminal s nm = Ok s'
           ∧ BurgSystem.terminals s' = BurgSystem.terminals s ++ [nm]
           ∧ BurgSystem.non_terminals s' = BurgSystem.non_terminals s
           ∧ BurgSystem.rules s' = BurgSystem.rules s
           ∧ BurgSystem.goal s' = BurgSystem.goal s
           ∧ BurgSystem.header_lines s' = BurgSystem.header_lines s).
Proof.
  unfold Invariant.kind, BurgSystem.add_terminal, BurgSystem.install.
  destruct (BurgSystem.lookup nm (BurgSystem.symbols s)) as [sy|]; simpl.
  - split_and!; [| |done]; intros [= Hty]; by rewrite Hty.
  - split_and!; [done..|]. intros _. eexists. split; [done|]. simpl.
    destruct s as [r d g h]. unfold BurgSystem.terminals, BurgSystem.non_terminals.
    simpl. rewrite !(symType_app_new r d g h nm Symbol.TermC). simpl.
    by rewrite app_nil_r.
Qed.

(** X5. Declaring a terminal: a name that the table holds as a
    non-terminal makes the assertion of [install] fail; a name that is a
    terminal already leaves the system as it is; a new name is appended to
    the terminals, and nothing else changes. *)
Theorem add_terminal_outcomes s nm :
  (Invariant.kind s nm = Some Symbol.NontermC →
     BurgSystem.add_terminal s nm = Raise AssertionError)
  ∧ (Invariant.kind s nm = Some Symbol.TermC →
     BurgSystem.add_terminal s nm = Ok s)
  ∧ (Invariant.kind s nm = None →
     ∃ s', BurgSystem.add_terminal s nm = Ok s'
           ∧ BurgSystem.terminals s' = BurgSystem.terminals s ++ [nm]
           ∧ BurgSystem.non_terminals s' = BurgSystem.non_terminals s
           ∧ BurgSystem.rules s' = BurgSystem.rules s
           ∧ BurgSystem.goal s' = BurgSystem.goal s
           ∧ BurgSystem.header_lines s' = BurgSystem.header_lines s).
Proof. apply add_terminal_cases. Qed.

Lemma add_terminal_outcomes_witness :
  BurgSystem.add_terminal Example.system "reg" = Raise AssertionError
  ∧ BurgSystem.add_terminal Example.system "ADD" = Ok Example.system
  ∧ ∃ s', BurgSystem.add_terminal Example.system "MUL" = Ok s'
          ∧ BurgSystem.terminals s' = ["CONST"; "ADD"; "MUL"].
Proof.
  destruct (add_terminal_outcomes Example.system "reg") as (H & _).
  destruct (add_terminal_outcomes Example.system "ADD") as (_ & H' & _).
  destruct (add_terminal_outcomes Example.system "MUL") as (_ & _ & H'').
  split_and!; [by apply H|by apply H'|].
  destruct (H'' eq_refl) as (s' & Hs' & Hterm & _). by exists s'.
Defined.

(** X6. The order of the declarations matters: a rule whose pattern is a
    leaf with a name that has not been declared as a terminal yet is taken
    as a chain rule, which makes that name a non-terminal; when the name is
    declared as a terminal later on, the declaration fails with an
    assertion error, and so does the whole construction. *)
Theorem terminal_declared_after_use_raises header pre nt tree cost acceptance
    template mid post s :
  Tree.children tree = [] →
  BurgParser.Add_terminal (Tree.name tree) ∉ pre →
  BurgParser.parse header
    (pre ++ BurgParser.Add_rule nt tree cost acceptance template :: mid) = Ok s →
  BurgSystem.add_terminal s (Tree.name tree) = Raise AssertionError
  ∧ BurgParser.parse header
      (pre ++ BurgParser.Add_rule nt tree cost acceptance template :: mid
           ++ BurgParser.Add_terminal (Tree.name tree) :: post)
    = Raise AssertionError.
Proof.
  intros Hleaf Hnew Hparse.
  assert (BurgSystem.add_terminal s (Tree.name tree) = Raise AssertionError)
    as Hraise.
  { unfold BurgParser.parse in Hparse. rewrite run_app in Hparse.
    apply bind_Ok in Hparse as (s0 & Hpre & Hrest). simpl in Hrest.
    apply bind_Ok in Hrest as (s1 & Hadd & Hmid).
    pose proof (parse_inv _ _ _ Hpre) as Hinv0.
    assert (Invariant.is_chain s0 tree = true) as Hchain.
    { unfold Invariant.is_chain. rewrite Hleaf. simpl.
      apply negb_true_iff, mem_false.
      by rewrite (parse_terminals _ _ _ _ Hpre). }
    rewrite add_rule_cases in Hadd by apply Hinv0.
    destruct (BurgSystem.mem nt (BurgSystem.terminals s0)) eqn:Hnt; [done|].
    injection Hadd as <-.
    assert (Invariant.kind
              (Invariant.add_rule_result s0 nt tree cost acceptance template)
              (Tree.name tree) = Some Symbol.NontermC) as Hkind.
    { eapply chain_rules_kind.
      rewrite add_rule_result_chain_rules by (done || apply Hinv0).
      apply elem_of_app. right. left. }
    assert (Invariant.inv
              (Invariant.add_rule_result s0 nt tree cost acceptance template))
      as Hinv1.
    { eapply (step_inv s0 (BurgParser.Add_rule nt tree cost acceptance template));
        [done|]. simpl. rewrite add_rule_cases by apply Hinv0.
      by rewrite Hnt. }
    destruct (run_inv _ _ _ Hinv1 Hmid) as (_ & Hext & _).
    by apply add_terminal_cases, (extends_kind _ _ _ _ Hext). }
  split; [done|].
  unfold BurgParser.parse in *.
  rewrite app_comm_cons, app_assoc, run_app, Hparse. simpl. by rewrite Hraise.
Qed.

Lemma terminal_declared_after_use_raises_witness :
  BurgParser.parse []
    [BurgParser.Add_rule "reg" (BurgSystem.tree "CONST" []) 1 None "";
     BurgParser.Add_terminal "CONST"]
  = Raise AssertionError.
Proof.
  assert (BurgParser.parse [] MoreExamples.leaf_first_calls
          = Ok MoreExamples.leaf_first_system) as Hparse
    by (vm_compute; reflexivity).
  assert (BurgParser.Add_terminal "CONST" ∉ @nil BurgParser.call) as Hnew
    by apply not_elem_of_nil.
  exact (proj2 (terminal_declared_after_use_raises [] [] "reg"
                  (BurgSystem.tree "CONST" []) 1 None "" [] []
                  MoreExamples.leaf_first_system eq_refl Hnew Hparse)).
Defined.

Lemma rules_nr_seq header calls s :
  BurgParser.parse header calls = Ok s →
  map Rule.nr (BurgSystem.rules s) = seq 1 (length (BurgSystem.rules s)).
Proof.
  intros (_ & Hnum & _)%parse_built. apply list_eq. intros i.
  change (map Rule.nr ?l) with (Rule.nr <$> l). rewrite list_lookup_fmap.
  destruct (BurgSystem.rules s !! i) as [r|] eqn:Hr; simpl.
  - rewrite (Hnum _ _ Hr). symmetry. apply lookup_seq. split; [done|].
    by eapply lookup_lt_Some.
  - symmetry. apply lookup_seq_ge. by apply lookup_ge_None.
Qed.

(** X7. The rules of a system built through the construction API carry
    the numbers 1, 2, ... in the order in which they were added. *)
Theorem rules_numbered header calls s :
  BurgParser.parse header calls = Ok s →
  map Rule.nr (BurgSystem.rules s) = seq 1 (length (BurgSystem.rules s)).
Proof. apply rules_nr_seq. Qed.

Lemma rules_numbered_witness :
  map Rule.nr (BurgSystem.rules Example.two_hop_system) = [1; 2; 3]%nat.
Proof.
  assert (BurgParser.parse [] Example.two_hop_calls = Ok Example.two_hop_system)
    as Hparse by (vm_compute; reflexivity).
  exact (rules_numbered _ _ _ Hparse).
Defined.

End Symbols.

Section TableLookup.

Context {R W : Type}.
Variable P : nat → Tree.t → list R → W → R * W.

(** X8. The three tables of the emitted class, for a system built through
    the construction API: the number of a rule leads to the kid paths, the
    hole categories and the action of that rule, and a number that no rule
    carries has no entry. *)
Theorem tables_hold_every_rule header calls system code :
  BurgParser.parse header calls = Ok system →
  BurgGenerator.generate system = Ok code →
  (∀ i rule,
     BurgSystem.rules system !! i = Some rule →
     Rule.nr rule = S i
     ∧ Matcher.kid_functions code !! S i
       = Some (BurgGenerator.compute_kids system (Rule.tree rule) (Py.Var "t")).1
     ∧ Matcher.nts_map code !! S i
       = Some (BurgGenerator.compute_kids system (Rule.tree rule) (Py.Var "t")).2
     ∧ Matcher.pat_f code P !! S i = Some (P (S i)))
  ∧ (∀ n, (n = 0 ∨ length (BurgSystem.rules system) < n)%nat →
          Matcher.kid_functions code !! n = None
          ∧ Matcher.nts_map code !! n = None
          ∧ Matcher.pat_f code P !! n = None).
Proof.
  intros Hparse Hgen. pose proof (parse_built _ _ _ Hparse) as (_ & Hnum & _).
  split.
  - intros i rule Hi. pose proof (Hnum _ _ Hi) as Hnr.
    apply list_elem_of_lookup_2 in Hi. rewrite <- Hnr.
    split_and!; [done| | |].
    + by apply (kid_functions_lookup system code Hnum Hgen).
    + by apply (nts_map_lookup system code Hnum Hgen).
    + by apply (pat_f_lookup system code P Hnum Hgen).
  - intros n Hn.
    assert (n ∉ map (λ e, Rule.nr (Py.entry_rule e)) (Py.entries code)) as Hnot.
    { pose proof Hgen as (_ & _ & ->)%generate_Ok. rewrite map_map.
      change (n ∉ map Rule.nr (BurgSystem.rules system)).
      rewrite (rules_nr_seq _ _ _ Hparse). rewrite elem_of_seq. lia. }
    unfold Matcher.kid_functions, Matcher.nts_map, Matcher.pat_f.
    rewrite (foldl_insert_notin (λ e, Rule.nr (Py.entry_rule e)) Py.kids) by done.
    rewrite (foldl_insert_notin (λ e, Rule.nr (Py.entry_rule e)) Py.nts) by done.
    rewrite (foldl_insert_notin (λ e, Rule.nr (Py.entry_rule e))
               (λ e, P (Rule.nr (Py.entry_rule e)))) by done.
    by rewrite !lookup_empty.
Qed.

End TableLookup.

Lemma tables_hold_every_rule_witness :
  Matcher.kid_functions Example.code !! 2%nat
  = Some [Py.Child (Py.Var "t") 0; Py.Child (Py.Var "t") 1]
  ∧ Matcher.nts_map Example.code !! 2%nat = Some ["reg"; "reg"]
  ∧ Matcher.kid_functions Example.code !! 3%nat = None.
Proof.
  assert (BurgParser.parse [] Example.calls = Ok Example.system) as Hparse
    by (vm_compute; reflexivity).
  assert (BurgGenerator.generate Example.system = Ok Example.code) as Hgen
    by (vm_compute; reflexivity).
  destruct (tables_hold_every_rule Example.P [] Example.calls Example.system
              Example.code Hparse Hgen) as [Hhit Hmiss].
  destruct (Hhit 1%nat (Rule.mk "reg"
              (BurgSystem.tree "ADD" [Example.reg; Example.reg]) 2 None
              "emit_add(c0, c1)" 2) eq_refl) as (_ & Hk & Hn & _).
  destruct (Hmiss 3%nat) as (Hnone & _); [right; simpl; lia|].
  split_and!; [exact Hk|exact Hn|exact Hnone].
Defined.

(** ** What a failing call of [add_rule] leaves behind *)

Section MutationLemmas.

Implicit Types (s : BurgSystem.t) (nm nt : string) (d : list (string * Symbol.t)).

Lemma mutation_non_term_raise s nm :
  BurgSystem.mem nm (BurgSystem.terminals s) = true →
  Mutation.non_term s nm = (s, Raise (BurgError "Cannot redefine terminal")).
Proof. intros H. unfold Mutation.non_term. by rewrite H. Qed.

Lemma mutation_non_term_Ok s nm :
  Invariant.wf s →
  BurgSystem.mem nm (BurgSystem.terminals s) = false →
  ∃ sy,
    Mutation.non_term s nm =
    (BurgSystem.mk (BurgSystem.rules s)
       (Invariant.ensure nm (BurgSystem.symbols s))
       (if BurgSystem.goal_unset s then Some nm else BurgSystem.goal s)
       (BurgSystem.header_lines s), Ok sy).
Proof.
  intros Hwf Hmem. destruct (non_term_Ok s nm Hwf Hmem) as [sy Hsy].
  exists sy. unfold BurgSystem.non_term in Hsy. rewrite Hmem in Hsy.
  unfold Mutation.non_term. rewrite Hmem. simpl in Hsy. by rewrite Hsy.
Qed.

Lemma number_filed_append nm n r0 d :
  Mutation.number_filed nm n (BurgSystem.append_chain_rule nm r0 d) =
  BurgSystem.append_chain_rule nm (Mutation.set_nr r0 n) d.
Proof.
  induction d as [|[k v] d IH]; simpl; [done|].
  destruct (String.eqb k nm) eqn:E; simpl; rewrite E; [|by rewrite IH].
  f_equal. destruct v as [x|x crs]; [done|]. do 2 f_equal.
  replace (pred (length (crs ++ [r0]))) with (length crs + 0)%nat
    by (rewrite length_app; simpl; lia).
  by rewrite alter_app_r.
Qed.

Lemma number_filed_app nm n d tail sy :
  BurgSystem.lookup nm d = Some sy →
  Mutation.number_filed nm n (d ++ tail) = Mutation.number_filed nm n d ++ tail.
Proof.
  induction d as [|[k v] d IH]; simpl; [done|].
  destruct (String.eqb k nm); [done|]. intros H. by rewrite IH.
Qed.

Lemma number_filed_ensure nm nt n r0 d sy :
  BurgSystem.lookup nm d = Some sy →
  Mutation.number_filed nm n
    (Invariant.ensure nt (BurgSystem.append_chain_rule nm r0 d)) =
  Invariant.ensure nt (BurgSystem.append_chain_rule nm (Mutation.set_nr r0 n) d).
Proof.
  intros Hsy. unfold Invariant.ensure. rewrite !lookup_append_chain_rule.
  destruct (decide (nt = nm)) as [->|Hne].
  - rewrite Hsy. simpl. apply number_filed_append.
  - destruct (BurgSystem.lookup nt d); [apply number_filed_append|].
    erewrite number_filed_app.
    + by rewrite number_filed_append.
    + rewrite lookup_append_chain_rule, decide_True by done. by rewrite Hsy.
Qed.

(** The two outcomes of [add_rule] on a well-formed table. *)
Lemma mutation_add_rule_cases s nt tree cost acceptance template :
  Invariant.wf s →
  Mutation.add_rule s nt tree cost acceptance template =
  if BurgSystem.mem nt (BurgSystem.terminals s)
  then (if Invariant.is_chain s tree
        then BurgSystem.mk (BurgSystem.rules s)
               (BurgSystem.append_chain_rule (Tree.name tree)
                  (Mutation.set_nr
                     (Invariant.new_rule s nt tree cost acceptance template) 0)
                  (Invariant.ensure (Tree.name tree) (BurgSystem.symbols s)))
               (if BurgSystem.goal_unset s then Some (Tree.name tree)
                else BurgSystem.goal s)
               (BurgSystem.header_lines s)
        else s,
        Some (BurgError "Cannot redefine terminal"))
  else (Invariant.add_rule_result s nt tree cost acceptance template, None).
Proof.
  intros Hwf. unfold Mutation.add_rule, Invariant.add_rule_result.
  fold (Invariant.is_chain s tree).
  assert ((if negb (PyStr.truthy (PyStr.strip template)) then "pass"
           else PyStr.strip template) =
          (if PyStr.truthy (PyStr.strip template) then PyStr.strip template
           else "pass")) as -> by by destruct (PyStr.truthy _).
  change (Rule.mk nt tree cost acceptance _ 0)
    with (Mutation.set_nr
            (Invariant.new_rule s nt tree cost acceptance template) 0).
  set (rule := Invariant.new_rule _ _ _ _ _ _).
  destruct (Invariant.is_chain s tree) eqn:Hch; simpl.
  - unfold Invariant.is_chain in Hch.
    apply andb_true_iff in Hch as [_ Hnt%negb_true_iff].
    destruct (mutation_non_term_Ok s (Tree.name tree) Hwf Hnt) as [sy ->]. simpl.
    set (s1 := BurgSystem.mk _ _ _ _).
    assert (BurgSystem.terminals s1 = BurgSystem.terminals s) as Hterm.
    { unfold s1. by rewrite terminals_append_chain_rule, terminals_ensure,
        terminals_symbols. }
    destruct (BurgSystem.mem nt (BurgSystem.terminals s)) eqn:Hmem.
    + rewrite mutation_non_term_raise; [done|]. by rewrite Hterm.
    + assert (Invariant.wf s1) as Hwf1
        by (by apply append_chain_rule_wf, ensure_wf).
      assert (BurgSystem.mem nt (BurgSystem.terminals s1) = false) as Hmem1
        by by rewrite Hterm.
      destruct (mutation_non_term_Ok s1 nt Hwf1 Hmem1) as [sy1 ->]. simpl.
      assert (Mutation.set_nr (Mutation.set_nr rule 0)
                (S (length (BurgSystem.rules s))) = rule) as Hrule by done.
      assert (∃ sy', BurgSystem.lookup (Tree.name tree)
                (Invariant.ensure (Tree.name tree) (BurgSystem.symbols s))
              = Some sy') as [sy' Hl].
      { rewrite lookup_ensure.
        destruct (BurgSystem.lookup _ (BurgSystem.symbols s)); [by eexists|].
        rewrite decide_True by done. by eexists. }
      rewrite (number_filed_ensure _ _ _ _ _ _ Hl), Hrule.
      do 2 f_equal. clear. subst s1. unfold BurgSystem.goal_unset. simpl.
      destruct (BurgSystem.goal s) as [g|]; simpl.
      * destruct (PyStr.truthy g) eqn:Hg; simpl; [by rewrite Hg|].
        by destruct (PyStr.truthy (Tree.name tree)).
      * by destruct (PyStr.truthy (Tree.name tree)).
  - destruct (BurgSystem.mem nt (BurgSystem.terminals s)) eqn:Hmem.
    + by rewrite mutation_non_term_raise.
    + by destruct (mutation_non_term_Ok s nt Hwf Hmem) as [sy ->].
Qed.

End MutationLemmas.

Section MutationClaim.

(** X9. [add_rule] is not atomic.  On a system built through the
    construction API, a call whose left-hand side is a declared terminal
    raises [BurgError]; when the pattern of that call is a leaf that is not
    a terminal, the call has by then made the name of the pattern a
    non-terminal (and the goal, if there was none) and has filed the rule
    under it, with the number 0 and without adding it to the rules.  In
    every other case the failing call leaves the system as it was.  A call
    that returns leaves the system that [add_rule] is modelled to return. *)
Theorem failed_add_rule_leaves_chain_rule header calls s nt tree cost acceptance
    template :
  BurgParser.parse header calls = Ok s →
  (BurgSystem.mem nt (BurgSystem.terminals s) = false →
     ∃ s', BurgSystem.add_rule s nt tree cost acceptance template = Ok s'
           ∧ Mutation.add_rule s nt tree cost acceptance template = (s', None))
  ∧ (BurgSystem.mem nt (BurgSystem.terminals s) = true →
     ∃ s_left,
       BurgSystem.add_rule s nt tree cost acceptance template
       = Raise (BurgError "Cannot redefine terminal")
       ∧ Mutation.add_rule s nt tree cost acceptance template
         = (s_left, Some (BurgError "Cannot redefine terminal"))
       ∧ BurgSystem.rules s_left = BurgSystem.rules s
       ∧ BurgSystem.terminals s_left = BurgSystem.terminals s
       ∧ (Invariant.is_chain s tree = false → s_left = s)
       ∧ (Invariant.is_chain s tree = true →
          let rule0 :=
            Mutation.set_nr
              (Invariant.new_rule s nt tree cost acceptance template) 0 in
          Invariant.chain_rules s_left (Tree.name tree)
          = Invariant.chain_rules s (Tree.name tree) ++ [rule0]
          ∧ rule0 ∉ BurgSystem.rules s_left
          ∧ Invariant.kind s_left (Tree.name tree) = Some Symbol.NontermC
          ∧ BurgSystem.goal s_left
            = if BurgSystem.goal_unset s then Some (Tree.name tree)
              else BurgSystem.goal s)).
Proof.
  intros Hparse. pose proof (parse_built _ _ _ Hparse) as ((Hwf & _) & Hnum & _).
  rewrite add_rule_cases, mutation_add_rule_cases by done.
  split; intros Hmem; rewrite Hmem; [by eexists|].
  eexists. split_and!; [done|done|..].
  - by destruct (Invariant.is_chain s tree).
  - destruct (Invariant.is_chain s tree); [|done].
    by rewrite terminals_append_chain_rule, terminals_ensure, terminals_symbols.
  - by intros ->.
  - intros Hch. rewrite Hch. simpl. split_and!; [| |
      eapply chain_rules_kind|done].
    + unfold Invariant.chain_rules. simpl.
      rewrite lookup_append_chain_rule, decide_True by done.
      rewrite lookup_ensure, decide_True by done.
      destruct (BurgSystem.lookup (Tree.name tree) (BurgSystem.symbols s))
        as [[n|n crs]|] eqn:Hl; simpl; [|done..].
      apply andb_true_iff in Hch as [_ Hnt%negb_true_iff].
      apply mem_false in Hnt. destruct Hnt.
      apply elem_of_symType_kind; [done|]. unfold Invariant.kind. by rewrite Hl.
    + intros (i & Hi)%list_elem_of_lookup_1. by apply Hnum in Hi.
    + unfold Invariant.chain_rules. simpl.
      rewrite lookup_append_chain_rule, decide_True by done.
      rewrite lookup_ensure, decide_True by done.
      destruct (BurgSystem.lookup (Tree.name tree) (BurgSystem.symbols s))
        as [[n|n crs]|] eqn:Hl; simpl.
      * apply andb_true_iff in Hch as [_ Hnt%negb_true_iff].
        apply mem_false in Hnt. destruct Hnt.
        apply elem_of_symType_kind; [done|]. unfold Invariant.kind.
        by rewrite Hl.
      * apply elem_of_app. right. left.
      * left.
Qed.

Lemma failed_add_rule_leaves_chain_rule_witness :
  ∃ s_left,
    Mutation.add_rule Example.chain_pre_system "CONST" Example.reg 0 None ""
    = (s_left, Some (BurgError "Cannot redefine terminal"))
    ∧ BurgSystem.rules s_left = BurgSystem.rules Example.chain_pre_system
    ∧ Invariant.chain_rules s_left "reg"
      = [Rule.mk "CONST" Example.reg 0 None "pass" 0].
Proof.
  assert (BurgParser.parse [] Example.chain_pre = Ok Example.chain_pre_system)
    as Hparse by (vm_compute; reflexivity).
  destruct (failed_add_rule_leaves_chain_rule [] Example.chain_pre
              Example.chain_pre_system "CONST" Example.reg 0 None "" Hparse)
    as [_ Hfail].
  destruct (Hfail eq_refl) as (s_left & _ & Hleft & Hrules & _ & _ & Hchain).
  exists s_left. split_and!; [exact Hleft|exact Hrules|].
  exact (proj1 (Hchain eq_refl)).
Defined.

End MutationClaim.

(** ** The generator on arbitrary systems *)

Section GeneratorLemmas.

Lemma mapM_Raise {A B} (f : A → Res B) l e :
  mapM f l = Raise e → ∃ x, x ∈ l ∧ f x = Raise e.
Proof.
  induction l as [|x l IH]; simpl; [done|].
  intros [Hx|(y & Hy & Hrest)]%bind_Raise.
  - exists x. split; [left|done].
  - apply bind_Raise in Hrest as [Hl|(ys & _ & ?)]; [|done].
    destruct (IH Hl) as (x' & Hin & Hx'). exists x'. split; [by right|done].
Qed.

Lemma mapM_Ok_elem {A B} (f : A → Res B) l l' x :
  mapM f l = Ok l' → x ∈ l → ∃ y, f x = Ok y.
Proof.
  intros H%mapM_Ok (i & Hi)%list_elem_of_lookup_1.
  destruct (Forall2_lookup_l _ _ _ _ _ H Hi) as (y & _ & Hy). by exists y.
Qed.

Lemma emit_record_kind system rule r :
  BurgGenerator.emit_record system rule = Ok r →
  Invariant.kind system (Rule.non_term rule) = Some Symbol.NontermC.
Proof.
  unfold BurgGenerator.emit_record, Invariant.kind.
  by destruct (BurgSystem.lookup _ _) as [[n|n crs]|].
Qed.

Lemma emit_record_Raise system rule e :
  BurgGenerator.emit_record system rule = Raise e →
  e = KeyError ∨ e = AttributeError.
Proof.
  unfold BurgGenerator.emit_record.
  destruct (BurgSystem.lookup _ _) as [[n|n crs]|]; simpl;
    [intros [= <-]; by right|done|intros [= <-]; by left].
Qed.

Lemma emitcase_rules system term cs :
  BurgGenerator.emitcase system term = Ok cs →
  map (λ c, Py.rule (Py.body c)) cs
  = filter (λ rule, Tree.name (Rule.tree rule) = term) (BurgSystem.rules system).
Proof.
  unfold BurgGenerator.emitcase.
  generalize (filter (λ rule, Tree.name (Rule.tree rule) = term)
                     (BurgSystem.rules system)).
  intros l H%mapM_Ok.
  induction H as [|rule c rules cs Hc _ IH]; simpl; [done|].
  apply bind_Ok in Hc as (r & [Hr _]%emit_record_Ok & [= <-]). simpl.
  by rewrite Hr, IH.
Qed.

Lemma emit_state_rules system cases :
  BurgGenerator.emit_state system = Ok cases →
  map (λ c, Py.rule (Py.body c)) cases
  = concat (map (λ term,
                   filter (λ rule, Tree.name (Rule.tree rule) = term)
                          (BurgSystem.rules system))
                (BurgSystem.terminals system)).
Proof.
  unfold BurgGenerator.emit_state.
  intros (css & Hcss%mapM_Ok & [= <-])%bind_Ok.
  rewrite concat_map. f_equal.
  induction Hcss as [|term cs terms css Hcs _ IH]; simpl; [done|].
  by rewrite (emitcase_rules _ _ _ Hcs), IH.
Qed.

Lemma filter_disjoint_app {A} (P Q : A → Prop)
    `{∀ x, Decision (P x)} `{∀ x, Decision (Q x)} (l : list A) :
  (∀ x, P x → Q x → False) →
  filter P l ++ filter Q l ≡ₚ filter (λ x, P x ∨ Q x) l.
Proof.
  intros Hdis. induction l as [|x l IH]; [done|].
  rewrite !filter_cons.
  destruct (decide (P x)) as [HP|HP], (decide (Q x)) as [HQ|HQ].
  - by destruct (Hdis x).
  - rewrite decide_True by by left. simpl. by f_equiv.
  - rewrite decide_True by by right. rewrite <- Permutation_middle. by f_equiv.
  - rewrite decide_False by by intros [|]. done.
Qed.

Lemma groups_Permutation {A} (f : A → string) (ts : list string) (rs : list A) :
  NoDup ts →
  concat (map (λ t, filter (λ r, f r = t) rs) ts)
  ≡ₚ filter (λ r, f r ∈ ts) rs.
Proof.
  induction 1 as [|t ts Ht _ IH]; simpl.
  - induction rs as [|r rs IHrs]; [done|]. rewrite filter_cons.
    rewrite decide_False by apply not_elem_of_nil. done.
  - rewrite IH, filter_disjoint_app by (by intros r <-).
    erewrite list_filter_iff; [done|]. intros r. simpl.
    rewrite elem_of_cons. naive_solver.
Qed.

End GeneratorLemmas.

Section GeneratorClaims.

(** X10. When [generate] fails.  It returns exactly when the left-hand
    side of every rule whose pattern is rooted at a terminal is a
    non-terminal of the symbol table; otherwise the lookup of the chain
    rules in [emit_record] raises [KeyError] or [AttributeError], and
    nothing else is ever raised.  For a system built through the
    construction API it returns. *)
Theorem generate_raises_only_for_unknown_lhs system :
  ((∃ code, BurgGenerator.generate system = Ok code) ↔
   ∀ rule, rule ∈ BurgSystem.rules system →
           Tree.name (Rule.tree rule) ∈ BurgSystem.terminals system →
           Invariant.kind system (Rule.non_term rule) = Some Symbol.NontermC)
  ∧ (∀ e, BurgGenerator.generate system = Raise e →
          e = KeyError ∨ e = AttributeError)
  ∧ (∀ header calls, BurgParser.parse header calls = Ok system →
                     ∃ code, BurgGenerator.generate system = Ok code).
Proof.
  split_and!.
  - split.
    + intros [code (Hcases & _)%generate_Ok] rule Hin Hterm.
      unfold BurgGenerator.emit_state in Hcases.
      apply bind_Ok in Hcases as (css & Hcss & _).
      destruct (mapM_Ok_elem _ _ _ _ Hcss Hterm) as [cs Hcs].
      unfold BurgGenerator.emitcase in Hcs.
      assert (rule ∈ filter (λ r, Tree.name (Rule.tree r)
                                  = Tree.name (Rule.tree rule))
                            (BurgSystem.rules system)) as Hin'
        by by apply list_elem_of_filter.
      destruct (mapM_Ok_elem _ _ _ _ Hcs Hin') as [c Hc].
      apply bind_Ok in Hc as (r & Hr & _). by eapply emit_record_kind.
    + intros Hall. unfold BurgGenerator.generate, BurgGenerator.emit_state.
      destruct (mapM_total (BurgGenerator.emitcase system)
                  (BurgSystem.terminals system)) as [css Hcss].
      { apply Forall_forall. intros term Hterm. apply mapM_total.
        apply Forall_forall. intros rule [Hname Hin]%list_elem_of_filter.
        destruct (emit_record_total system rule) as [r ->]; [|by eexists].
        apply Hall; [done|]. by rewrite Hname. }
      rewrite Hcss. simpl. by eexists.
  - intros e. unfold BurgGenerator.generate, BurgGenerator.emit_state.
    intros [[H|(? & _ & ?)]%bind_Raise|(? & _ & ?)]%bind_Raise; [|done..].
    apply mapM_Raise in H as (term & _ & H).
    apply mapM_Raise in H as (rule & _ & H).
    apply bind_Raise in H as [H|(? & _ & ?)]; [|done].
    by eapply emit_record_Raise.
  - intros header calls Hparse. by apply generate_total, (parse_inv header calls).
Qed.

Lemma generate_raises_only_for_unknown_lhs_witness :
  BurgGenerator.generate
    (BurgSystem.mk [Rule.mk "reg" (BurgSystem.tree "CONST" []) 1 None "pass" 1]
                   [("CONST", Symbol.Term "CONST")] None [])
  = Raise KeyError
  ∧ ∃ code, BurgGenerator.generate Example.system = Ok code.
Proof.
  split; [vm_compute; reflexivity|].
  assert (BurgParser.parse [] Example.calls = Ok Example.system) as Hparse
    by (vm_compute; reflexivity).
  exact (proj2 (proj2 (generate_raises_only_for_unknown_lhs Example.system))
           [] Example.calls Hparse).
Defined.

(** X11. The cases of [burm_state], for a system built through the
    construction API: every rule whose pattern is rooted at a declared
    terminal is compiled into one case, no other rule is compiled, and no
    rule is compiled twice. *)
Theorem one_case_per_compiled_rule header calls system code :
  BurgParser.parse header calls = Ok system →
  BurgGenerator.generate system = Ok code →
  map (λ c, Py.rule (Py.body c)) (Py.burm_state code)
  ≡ₚ filter (λ r, Tree.name (Rule.tree r) ∈ BurgSystem.terminals system)
            (BurgSystem.rules system)
  ∧ NoDup (map (λ c, Rule.nr (Py.rule (Py.body c))) (Py.burm_state code)).
Proof.
  intros Hparse (Hcases & _)%generate_Ok.
  pose proof (parse_built _ _ _ Hparse) as ((Hwf & _) & Hnum & _).
  assert (map (λ c, Py.rule (Py.body c)) (Py.burm_state code)
          ≡ₚ filter (λ r, Tree.name (Rule.tree r) ∈ BurgSystem.terminals system)
                    (BurgSystem.rules system)) as Hperm.
  { rewrite (emit_state_rules _ _ Hcases).
    apply (groups_Permutation (λ r, Tree.name (Rule.tree r))).
    by apply symType_NoDup. }
  split; [done|].
  change (NoDup (map (λ c, Rule.nr (Py.rule (Py.body c))) (Py.burm_state code)))
    with (NoDup ((Rule.nr ∘ (λ c, Py.rule (Py.body c))) <$> Py.burm_state code)).
  rewrite list_fmap_compose.
  change ((λ c, Py.rule (Py.body c)) <$> Py.burm_state code)
    with (map (λ c, Py.rule (Py.body c)) (Py.burm_state code)).
  rewrite Hperm.
  apply (sublist_NoDup _ (map Rule.nr (BurgSystem.rules system)));
    [by apply numbered_NoDup|].
  apply (fmap_sublist Rule.nr), sublist_filter.
Qed.

Lemma one_case_per_compiled_rule_witness :
  map (λ c, Rule.nr (Py.rule (Py.body c))) (Py.burm_state Example.two_hop_code)
  = [1%nat]
  ∧ NoDup (map (λ c, Rule.nr (Py.rule (Py.body c)))
               (Py.burm_state Example.two_hop_code)).
Proof.
  assert (BurgParser.parse [] Example.two_hop_calls = Ok Example.two_hop_system)
    as Hparse by (vm_compute; reflexivity).
  assert (BurgGenerator.generate Example.two_hop_system = Ok Example.two_hop_code)
    as Hgen by (vm_compute; reflexivity).
  split; [vm_compute; reflexivity|].
  exact (proj2 (one_case_per_compiled_rule _ _ _ _ Hparse Hgen)).
Defined.

End GeneratorClaims.

(** ** Nodes that no rule is rooted at, and labelling again *)

Section Uncovered.

Context {R W : Type}.
Variable A : nat → Tree.t → bool.
Variable P : nat → Tree.t → list R → W → R * W.

Lemma emittest_eq system t prefix :
  BurgGenerator.emittest system t prefix =
  Py.Test prefix (Tree.name t)
    (BurgGenerator.child_tests system (BurgGenerator.emittest system) prefix
       (Tree.children t) 0%nat).
Proof. by destruct t. Qed.

Lemma run_cases_no_match code cases tree :
  Forall (λ c, Py.eval_cond (Py.condition c) tree = Ok false) cases →
  Matcher.run_cases code A cases tree = Ok tree.
Proof.
  induction 1 as [|c cases Hc _ IH]; simpl; [done|].
  unfold Matcher.run_case. rewrite Hc. simpl. done.
Qed.

Lemma burm_state_no_rule system code n :
  BurgGenerator.generate system = Ok code →
  (∀ rule, rule ∈ BurgSystem.rules system →
           Tree.name (Rule.tree rule) ≠ Tree.name n) →
  Matcher.burm_state code A n = Ok (Tree.set_state n ∅).
Proof.
  intros (Hcases & _)%generate_Ok Hnone. unfold Matcher.burm_state.
  apply run_cases_no_match, Forall_forall. intros c Hc.
  destruct (emit_state_cases _ _ _ Hcases Hc) as (Hr & _ & -> & _).
  rewrite emittest_eq. simpl.
  destruct (String.eqb_spec (Tree.name n)
              (Tree.name (Rule.tree (Py.rule (Py.body c))))) as [Heq|]; [|done].
  by destruct (Hnone _ Hr).
Qed.

Lemma gen_no_rule system code tree tree' depth w :
  BurgGenerator.generate system = Ok code →
  (∀ rule, rule ∈ BurgSystem.rules system →
           Tree.name (Rule.tree rule) ≠ Tree.name tree) →
  Matcher.burm_label code A tree = Ok tree' →
  Tree.state tree' = Some ∅
  ∧ Matcher.gen code A P depth tree w = Raise (Exception_not_covered tree').
Proof.
  intros Hgen Hnone Hlabel.
  assert (Tree.state tree' = Some ∅) as Hst.
  { rewrite burm_label_eq in Hlabel.
    apply bind_Ok in Hlabel as (cs & _ & Hstate).
    rewrite (burm_state_no_rule system) in Hstate by done.
    by injection Hstate as <-. }
  split; [done|]. unfold Matcher.gen. rewrite Hlabel. simpl. by rewrite Hst.
Qed.

(** X12. A node whose name is not the name at the root of the pattern of
    any rule passes no test of [burm_state]: its state stays empty, and no
    child of it is indexed.  When such a node is the root of the tree and
    labelling returns, [gen] reports the tree as not covered. *)
Theorem node_without_rule_is_not_covered system code tree :
  BurgGenerator.generate system = Ok code →
  (∀ rule, rule ∈ BurgSystem.rules system →
           Tree.name (Rule.tree rule) ≠ Tree.name tree) →
  Matcher.burm_state code A tree = Ok (Tree.set_state tree ∅)
  ∧ ∀ tree' depth w,
      Matcher.burm_label code A tree = Ok tree' →
      Tree.state tree' = Some ∅
      ∧ Matcher.gen code A P depth tree w = Raise (Exception_not_covered tree').
Proof.
  intros Hgen Hnone. split; [by eapply burm_state_no_rule|].
  intros tree' depth w Hlabel. by eapply gen_no_rule.
Qed.

Lemma well_shaped_no_cases code t :
  Py.burm_state code = [] → Labelling.well_shaped code t = true.
Proof.
  intros Hnil. induction t as [nm v cs st IH] using Tree.ind'.
  rewrite well_shaped_eq, Hnil. simpl.
  apply forallb_forall. intros c Hc%list_elem_of_In.
  rewrite Forall_forall in IH. by apply IH.
Qed.

Lemma run_add_terminals_rules calls s s' :
  forallb Invariant.is_add_terminal calls = true →
  BurgParser.run calls s = Ok s' → BurgSystem.rules s' = BurgSystem.rules s.
Proof.
  revert s. induction calls as [|c calls IH]; intros s; simpl.
  - by intros _ [= <-].
  - intros [Hc Hcs]%andb_true_iff (s1 & Hs1 & Hrun)%bind_Ok.
    rewrite (IH _ Hcs Hrun). destruct c as [x|]; [|done]. simpl in Hs1.
    unfold BurgSystem.add_terminal in Hs1.
    by apply bind_Ok in Hs1 as (r & Hr%install_rules & [= <-]).
Qed.

(** X13. A grammar that declares terminals and has no rule: [generate]
    returns a class whose [burm_state] has no case and whose [gen] asks
    for the category [None], the text of the goal that was never set; on
    every tree, labelling returns and [gen] reports the tree as not
    covered. *)
Theorem gen_of_grammar_without_rules header calls system :
  BurgParser.parse header calls = Ok system →
  forallb Invariant.is_add_terminal calls = true →
  ∃ code,
    BurgGenerator.generate system = Ok code
    ∧ Py.goal code = "None"
    ∧ Py.burm_state code = []
    ∧ ∀ tree depth w,
        ∃ tree', Matcher.burm_label code A tree = Ok tree'
                 ∧ Matcher.gen code A P depth tree w
                   = Raise (Exception_not_covered tree').
Proof.
  intros Hparse Hcalls.
  pose proof (run_add_terminals_rules _ _ _ Hcalls Hparse) as Hrules.
  pose proof (run_add_terminals_goal _ _ _ Hcalls Hparse) as Hgoal.
  simpl in Hrules, Hgoal.
  destruct (generate_total system (parse_inv _ _ _ Hparse)) as [code Hgen].
  exists code. pose proof Hgen as (Hcases & Hg & _)%generate_Ok.
  assert (Py.burm_state code = []) as Hnil.
  { apply emit_state_rules in Hcases. rewrite Hrules in Hcases.
    destruct (Py.burm_state code) as [|c cs]; [done|]. exfalso.
    assert (Py.rule (Py.body c)
            ∈ map (λ c, Py.rule (Py.body c)) (c :: cs)) as Hin by left.
    rewrite Hcases in Hin.
    apply elem_of_concat in Hin as (l & Hin & Hl).
    change (map ?f ?x) with (f <$> x) in Hl.
    apply list_elem_of_fmap in Hl as (term & -> & _).
    by apply elem_of_nil in Hin. }
  split_and!; [done| |done|].
  - rewrite Hg. unfold BurgGenerator.goal_str. by rewrite Hgoal.
  - intros tree depth w.
    destruct (burm_label_total code A tree (well_shaped_no_cases code tree Hnil))
      as [tree' Hlabel].
    exists tree'. split; [done|].
    eapply gen_no_rule; [done| |done].
    intros rule Hin. rewrite Hrules in Hin. by apply elem_of_nil in Hin.
Qed.

End Uncovered.

Section Relabel.

Variable code : Py.matcher.
Variable A : nat → Tree.t → bool.

Lemma burm_label_forget t :
  Matcher.burm_label code A t = Matcher.burm_label code A (Tree.forget t).
Proof.
  induction t as [nm v cs st IH] using Tree.ind'.
  rewrite (burm_label_eq code A (Tree.mk nm v cs st)).
  rewrite (burm_label_eq code A (Tree.forget (Tree.mk nm v cs st))). simpl.
  assert (mapM (Matcher.burm_label code A) (map Tree.forget cs)
          = mapM (Matcher.burm_label code A) cs) as ->.
  { induction IH as [|c cs Hc _ IHcs]; simpl; [done|]. by rewrite <- Hc, IHcs. }
  done.
Qed.

(** X14. Labelling starts from a fresh state at every node, so the states
    that a tree carries already have no influence on the result, and
    labelling a labelled tree again gives the same labelled tree. *)
Theorem relabelling_ignores_old_states t :
  Matcher.burm_label code A t = Matcher.burm_label code A (Tree.forget t)
  ∧ ∀ t', Matcher.burm_label code A t = Ok t' →
          Matcher.burm_label code A t' = Ok t'.
Proof.
  split; [apply burm_label_forget|].
  intros t' Hlabel. pose proof (burm_label_Ok code A t t' Hlabel) as [_ Hforget].
  by rewrite (burm_label_forget t'), Hforget, <- burm_label_forget.
Qed.

End Relabel.

Lemma node_without_rule_is_not_covered_witness :
  Matcher.gen Example.code Example.A Example.P 5 MoreExamples.sub_tree []
  = Raise (Exception_not_covered MoreExamples.labelled_sub_tree)
  ∧ Tree.state MoreExamples.labelled_sub_tree = Some ∅.
Proof.
  assert (BurgGenerator.generate Example.system = Ok Example.code) as Hgen
    by (vm_compute; reflexivity).
  assert (∀ rule, rule ∈ BurgSystem.rules Example.system →
                  Tree.name (Rule.tree rule) ≠ Tree.name MoreExamples.sub_tree)
    as Hnone.
  { apply Forall_forall. apply (bool_decide_unpack _). vm_compute. exact I. }
  assert (Matcher.burm_label Example.code Example.A MoreExamples.sub_tree
          = Ok MoreExamples.labelled_sub_tree) as Hlabel
    by (vm_compute; reflexivity).
  destruct (node_without_rule_is_not_covered Example.A Example.P Example.system
              Example.code MoreExamples.sub_tree Hgen Hnone) as [_ H].
  destruct (H MoreExamples.labelled_sub_tree 5%nat [] Hlabel) as [Hst Hraise].
  split; [exact Hraise|exact Hst].
Defined.

Lemma gen_of_grammar_without_rules_witness :
  ∃ code,
    BurgGenerator.generate MoreExamples.terminals_only_system = Ok code
    ∧ Py.goal code = "None"
    ∧ ∃ tree', Matcher.gen code Example.A Example.P 5 Example.input []
               = Raise (Exception_not_covered tree').
Proof.
  assert (BurgParser.parse [] MoreExamples.terminals_only_calls
          = Ok MoreExamples.terminals_only_system) as Hparse
    by (vm_compute; reflexivity).
  destruct (gen_of_grammar_without_rules Example.A Example.P []
              MoreExamples.terminals_only_calls
              MoreExamples.terminals_only_system Hparse eq_refl)
    as (code & Hgen & Hgoal & _ & Hall).
  exists code. split_and!; [exact Hgen|exact Hgoal|].
  destruct (Hall Example.input 5%nat []) as (tree' & _ & Hraise).
  by exists tree'.
Defined.

Lemma relabelling_ignores_old_states_witness :
  Matcher.burm_label Example.code Example.A MoreExamples.labelled_input
  = Ok MoreExamples.labelled_input.
Proof.
  assert (Matcher.burm_label Example.code Example.A Example.input
          = Ok MoreExamples.labelled_input) as Hlabel
    by (vm_compute; reflexivity).
  exact (proj2 (relabelling_ignores_old_states Example.code Example.A
                  Example.input) _ Hlabel).
Defined.

(** ** The emitted test on patterns whose holes come last *)

Section EmittedTest.

Variable system : BurgSystem.t.

Implicit Types (p pattern n node tree : Tree.t) (prefix : Py.expr).

Lemma structural_test_eq pattern node :
  PatternSpec.structural_test system pattern node =
  String.eqb (Tree.name node) (Tree.name pattern)
  && PatternSpec.children_match system
       (PatternSpec.structural_test system) node (Tree.children pattern) 0%nat.
Proof. by destruct pattern. Qed.

Lemma holes_last_eq pattern :
  PatternShape.holes_last system pattern =
  PatternShape.terminals_first system (PatternShape.holes_last system)
    (Tree.children pattern).
Proof. by destruct pattern. Qed.

Lemma eval_cond_error (c : Py.cond) tree e :
  Py.eval_cond c tree = Raise e → e = IndexError.
Proof.
  induction c as [prefix nm cts IH] using Py.cond_ind'. simpl.
  intros [H|(n & _ & H)]%bind_Raise; [by eapply eval_expr_error|].
  destruct (String.eqb _ _); [|done].
  induction IH as [|ct cts Hct _ IHcts]; simpl in H; [done|].
  apply bind_Raise in H as [H|(b & _ & H)]; [by apply Hct|].
  destruct b; [by apply IHcts|done].
Qed.

(** Children that are all holes give no test and match any node. *)
Lemma all_holes (rec : Tree.t → Py.expr → Py.cond) (rec' : Tree.t → Tree.t → bool)
    prefix node ps i j :
  forallb (PatternSpec.is_hole system) ps = true →
  BurgGenerator.child_tests system rec prefix ps i = []
  ∧ PatternSpec.children_match system rec' node ps j = true.
Proof.
  revert i j. induction ps as [|p ps IH]; intros i j; simpl; [done|].
  intros [Hp Hps]%andb_true_iff. unfold PatternSpec.is_hole in Hp.
  rewrite Hp. fold (PatternSpec.is_hole system p).
  unfold PatternSpec.is_hole at 1. rewrite Hp. simpl. by apply IH.
Qed.

Lemma child_tests_cons (rec : Tree.t → Py.expr → Py.cond) prefix p ps i :
  BurgGenerator.child_tests system rec prefix (p :: ps) i =
  if PatternSpec.is_hole system p
  then BurgGenerator.child_tests system rec prefix ps i
  else rec p (Py.Child prefix i)
       :: BurgGenerator.child_tests system rec prefix ps (S i).
Proof. done. Qed.

Lemma children_match_cons (rec : Tree.t → Tree.t → bool) node p ps i :
  PatternSpec.children_match system rec node (p :: ps) i =
  (if PatternSpec.is_hole system p then true
   else match Tree.children node !! i with
        | Some child => rec p child
        | None => false
        end)
  && PatternSpec.children_match system rec node ps (S i).
Proof. done. Qed.

Lemma eval_and_cons (f : Py.cond → Res bool) ct cts :
  Py.eval_and f (ct :: cts) =
  do b <- f ct; if b then Py.eval_and f cts else Ok false.
Proof. done. Qed.

Lemma emittest_children prefix tree n ps :
  Py.eval_expr prefix tree = Ok n →
  Forall (λ p, ∀ prefix' n',
            PatternShape.holes_last system p = true →
            Py.eval_expr prefix' tree = Ok n' →
            Py.eval_cond (BurgGenerator.emittest system p prefix') tree = Ok true
            ↔ PatternSpec.structural_test system p n' = true) ps →
  ∀ i,
    PatternShape.terminals_first system (PatternShape.holes_last system) ps
    = true →
    Py.eval_and (λ ct, Py.eval_cond ct tree)
      (BurgGenerator.child_tests system (BurgGenerator.emittest system)
         prefix ps i) = Ok true
    ↔ PatternSpec.children_match system (PatternSpec.structural_test system)
        n ps i = true.
Proof.
  intros Hn. induction 1 as [|p ps Hp _ IH]; intros i; [done|].
  rewrite child_tests_cons, children_match_cons.
  change (PatternShape.terminals_first system (PatternShape.holes_last system)
            (p :: ps))
    with (if PatternSpec.is_hole system p
          then forallb (PatternSpec.is_hole system) ps
          else PatternShape.holes_last system p
               && PatternShape.terminals_first system
                    (PatternShape.holes_last system) ps).
  destruct (PatternSpec.is_hole system p) eqn:Hhole.
  - intros Hps.
    destruct (all_holes (BurgGenerator.emittest system)
                (PatternSpec.structural_test system) prefix n ps i (S i) Hps)
      as [-> ->]. done.
  - intros [Hlast Hps]%andb_true_iff. specialize (IH (S i) Hps).
    rewrite eval_and_cons.
    destruct (Tree.children n !! i) as [child|] eqn:Hchild.
    + assert (Py.eval_expr (Py.Child prefix i) tree = Ok child) as Hprefix
        by (simpl; by rewrite Hn; simpl; rewrite Hchild).
      specialize (Hp _ _ Hlast Hprefix).
      destruct (Py.eval_cond (BurgGenerator.emittest system p
                                (Py.Child prefix i)) tree) as [[]|e]; simpl.
      * rewrite (proj1 Hp eq_refl). simpl. exact IH.
      * destruct (PatternSpec.structural_test system p child); [|done].
        by destruct Hp as [_ Hp]; specialize (Hp eq_refl).
      * destruct (PatternSpec.structural_test system p child); [|done].
        by destruct Hp as [_ Hp]; specialize (Hp eq_refl).
    + rewrite emittest_eq. simpl. rewrite Hn. simpl. rewrite Hchild. simpl.
      done.
Qed.

Lemma emittest_holes_last pattern :
  ∀ prefix tree n,
    PatternShape.holes_last system pattern = true →
    Py.eval_expr prefix tree = Ok n →
    Py.eval_cond (BurgGenerator.emittest system pattern prefix) tree = Ok true
    ↔ PatternSpec.structural_test system pattern n = true.
Proof.
  induction pattern as [nm v cs st IH] using Tree.ind'.
  intros prefix tree n Hlast Hn.
  rewrite emittest_eq, structural_test_eq. rewrite holes_last_eq in Hlast.
  simpl in *. rewrite Hn. simpl.
  destruct (String.eqb (Tree.name n) nm); simpl; [|done].
  apply emittest_children; [done| |done].
  eapply Forall_impl; [exact IH|]. intros p Hp prefix' n' Hl Hn'.
  by apply Hp.
Qed.

(** X15. For a pattern in which, at every node, the children that are
    rooted at a terminal come before the children that are non-terminals,
    the emitted test is true on a node exactly when the node matches the
    pattern: the names agree at the root and, at every child position
    whose pattern is rooted at a terminal, the child at that position
    matches.  The only exception that the emitted test can raise is
    [IndexError], when it indexes a child that the node does not have. *)
Theorem emittest_right_when_holes_come_last pattern node :
  PatternShape.holes_last system pattern = true →
  (Py.eval_cond (BurgGenerator.emittest system pattern (Py.Var "tree")) node
   = Ok true
   ↔ PatternSpec.structural_test system pattern node = true)
  ∧ (∀ e, Py.eval_cond (BurgGenerator.emittest system pattern (Py.Var "tree"))
                       node = Raise e → e = IndexError).
Proof.
  intros Hlast. split; [by apply emittest_holes_last|].
  intros e. apply eval_cond_error.
Qed.

End EmittedTest.

Lemma emittest_right_when_holes_come_last_witness :
  Py.eval_cond
    (BurgGenerator.emittest MoreExamples.muladd_system MoreExamples.mul_add
       (Py.Var "tree")) MoreExamples.mul_add_input = Ok true
  ∧ Py.eval_cond
      (BurgGenerator.emittest MoreExamples.muladd_system MoreExamples.mul_add
         (Py.Var "tree")) Example.bare_add = Raise IndexError.
Proof.
  destruct (emittest_right_when_holes_come_last MoreExamples.muladd_system
              MoreExamples.mul_add MoreExamples.mul_add_input eq_refl)
    as [Hiff _].
  split; [exact (proj2 Hiff eq_refl)|vm_compute; reflexivity].
Defined.

(** ** How a construction fails, and what it keeps *)

Section ConstructionErrors.

Lemma run_Raise calls s e :
  BurgParser.run calls s = Raise e →
  ∃ pre c post s',
    calls = pre ++ c :: post
    ∧ BurgParser.run pre s = Ok s'
    ∧ BurgParser.step s' c = Raise e.
Proof.
  revert s. induction calls as [|c calls IH]; intros s; simpl; [done|].
  intros [Hstep|(s1 & Hstep & Hrun)]%bind_Raise.
  - by exists [], c, calls, s.
  - destruct (IH _ Hrun) as (pre & c' & post & s' & -> & Hpre & Hfail).
    exists (c :: pre), c', post, s'. split_and!; [done| |done].
    simpl. by rewrite Hstep.
Qed.

Lemma step_Raise s c e :
  Invariant.wf s →
  BurgParser.step s c = Raise e ↔
  match c with
  | BurgParser.Add_rule nt _ _ _ _ =>
      nt ∈ BurgSystem.terminals s ∧ e = BurgError "Cannot redefine terminal"
  | BurgParser.Add_terminal x =>
      x ∈ BurgSystem.non_terminals s ∧ e = AssertionError
  end.
Proof.
  intros Hwf. destruct c as [x|nt tree cost acceptance template]; simpl.
  - unfold BurgSystem.non_terminals.
    rewrite elem_of_symType_kind by done.
    destruct (add_terminal_cases s x) as (Hn & Ht & Hnew).
    destruct (Invariant.kind s x) as [[]|] eqn:Hkind.
    + rewrite Ht by done. naive_solver.
    + rewrite Hn by done. naive_solver.
    + destruct Hnew as (s' & -> & _); [done|]. naive_solver.
  - rewrite add_rule_cases by done.
    destruct (BurgSystem.mem nt (BurgSystem.terminals s)) eqn:Hmem.
    + apply mem_true in Hmem. naive_solver.
    + apply mem_false in Hmem. naive_solver.
Qed.

(** X16. The only ways in which the construction of a system fails: a
    rule whose left-hand side has been declared as a terminal raises
    [BurgError], and the declaration of a terminal whose name is in use as
    a non-terminal fails the assertion of [install].  The first such call
    ends the construction; [main] fails exactly when the construction
    does, since the generator returns on every system that has been
    built. *)
Theorem construction_fails_in_two_ways (tree_str : Tree.t → string) header
    calls e :
  (BurgParser.parse header calls = Raise e ↔
   ∃ pre c post s,
     calls = pre ++ c :: post
     ∧ BurgParser.parse header pre = Ok s
     ∧ match c with
       | BurgParser.Add_rule nt _ _ _ _ =>
           nt ∈ BurgSystem.terminals s
           ∧ e = BurgError "Cannot redefine terminal"
       | BurgParser.Add_terminal x =>
           x ∈ BurgSystem.non_terminals s ∧ e = AssertionError
       end)
  ∧ (main tree_str header calls = Raise e ↔
     BurgParser.parse header calls = Raise e).
Proof.
  split.
  - split.
    + intros (pre & c & post & s & -> & Hpre & Hfail)%run_Raise.
      exists pre, c, post, s. split_and!; [done..|].
      apply step_Raise; [|done]. by apply (parse_inv header pre).
    + intros (pre & c & post & s & -> & Hpre & Hfail).
      unfold BurgParser.parse in *. rewrite run_app, Hpre. simpl.
      apply step_Raise in Hfail; [|by apply (parse_inv header pre)].
      by rewrite Hfail.
  - unfold main.
    destruct (BurgParser.parse header calls) as [s|e'] eqn:Hparse; simpl;
      [|by split; intros [= ->]].
    destruct (generate_total s (parse_inv _ _ _ Hparse)) as [m ->]. simpl.
    by split.
Qed.

Lemma construction_fails_in_two_ways_witness :
  main (λ _, "") [] [BurgParser.Add_terminal "CONST";
                     BurgParser.Add_rule "CONST" Example.reg 1 None ""]
  = Raise (BurgError "Cannot redefine terminal").
Proof.
  destruct (construction_fails_in_two_ways (λ _, "") []
              [BurgParser.Add_terminal "CONST";
               BurgParser.Add_rule "CONST" Example.reg 1 None ""]
              (BurgError "Cannot redefine terminal")) as [Hparse Hmain].
  apply Hmain, Hparse.
  exists [BurgParser.Add_terminal "CONST"],
         (BurgParser.Add_rule "CONST" Example.reg 1 None ""), [],
         (BurgSystem.mk [] [("CONST", Symbol.Term "CONST")] None []).
  split_and!; [reflexivity|reflexivity| |reflexivity].
  apply (bool_decide_unpack _). vm_compute. exact I.
Defined.

(** X17. Construction only adds.  When further calls are made on a system
    that has been built, its rules stay, in their order, at the front of
    the rules; its terminals stay terminals and its non-terminals stay
    non-terminals; the chain rules filed under a name stay at the front of
    the chain rules of that name; and the header lines are the same. *)
Theorem construction_only_adds header calls more s s' :
  BurgParser.parse header calls = Ok s →
  BurgParser.parse header (calls ++ more) = Ok s' →
  BurgSystem.rules s `prefix_of` BurgSystem.rules s'
  ∧ (∀ nm, nm ∈ BurgSystem.terminals s → nm ∈ BurgSystem.terminals s')
  ∧ (∀ nm, nm ∈ BurgSystem.non_terminals s → nm ∈ BurgSystem.non_terminals s')
  ∧ (∀ nm, Invariant.chain_rules s nm `prefix_of` Invariant.chain_rules s' nm)
  ∧ BurgSystem.header_lines s' = BurgSystem.header_lines s.
Proof.
  intros Hparse Hmore. pose proof (parse_inv _ _ _ Hparse) as Hinv.
  pose proof (parse_inv _ _ _ Hmore) as [Hwf' _].
  unfold BurgParser.parse in Hmore, Hparse.
  rewrite run_app, Hparse in Hmore. simpl in Hmore.
  destruct (run_inv _ _ _ Hinv Hmore) as (_ & Hext & Hhdr & added & Hrules).
  destruct Hinv as [Hwf _].
  assert (∀ c nm, nm ∈ BurgSystem.symType s c → nm ∈ BurgSystem.symType s' c)
    as Hkinds.
  { intros c nm. rewrite !elem_of_symType_kind by done.
    by apply extends_kind. }
  split_and!; [by exists added|by apply Hkinds|by apply Hkinds| |done].
  intros nm. unfold Invariant.chain_rules.
  destruct (BurgSystem.lookup nm (BurgSystem.symbols s)) as [sy|] eqn:Hl;
    [|apply prefix_nil].
  destruct (Hext _ _ Hl) as (sy' & -> & Hgrows).
  destruct sy as [n|n crs], sy' as [n'|n' crs']; simpl in Hgrows;
    try done; try apply prefix_nil.
  destruct Hgrows as (_ & extra & ->). by exists extra.
Qed.

Lemma construction_only_adds_witness :
  BurgSystem.rules Example.chain_system
  `prefix_of` BurgSystem.rules Example.two_hop_system
  ∧ Invariant.chain_rules Example.chain_system "reg"
    `prefix_of` Invariant.chain_rules Example.two_hop_system "reg".
Proof.
  assert (BurgParser.parse [] Example.chain_calls = Ok Example.chain_system)
    as Hparse by (vm_compute; reflexivity).
  assert (BurgParser.parse []
            (Example.chain_calls
               ++ [BurgParser.Add_rule "mem" (BurgSystem.tree "rc" []) 0 None ""])
          = Ok Example.two_hop_system) as Hmore by (vm_compute; reflexivity).
  destruct (construction_only_adds _ _ _ _ _ Hparse Hmore)
    as (Hrules & _ & _ & Hchain & _).
  split; [exact Hrules|exact (Hchain "reg")].
Defined.

End ConstructionErrors.

(** ** The paths of the kid functions *)

Section KidPaths.

Variable system : BurgSystem.t.

Implicit Types (p q e : Py.expr) (t c : Tree.t).

Lemma reaches_refl e : Path.reaches e e.
Proof. destruct e; by left. Qed.

Lemma reaches_trans p q e :
  Path.reaches p q → Path.reaches q e → Path.reaches p e.
Proof.
  intros Hpq. induction e as [x|e IH i]; simpl.
  - by intros [->|[]].
  - intros [->|He]; [done|]. right. by apply IH.
Qed.

Lemma reaches_depth q e : Path.reaches q e → (Path.depth q ≤ Path.depth e)%nat.
Proof.
  induction e as [x|e IH i]; simpl.
  - by intros [->|[]].
  - intros [->|He]; [done|]. specialize (IH He). lia.
Qed.

Lemma reaches_child p i : Path.reaches p (Py.Child p i).
Proof. right. apply reaches_refl. Qed.

Lemma not_reaches_child p i : ¬ Path.reaches (Py.Child p i) p.
Proof. intros H%reaches_depth. simpl in H. lia. Qed.

(** A path goes through one child of [p] at most. *)
Lemma reaches_index p i j e :
  Path.reaches (Py.Child p i) e → Path.reaches (Py.Child p j) e → i = j.
Proof.
  induction e as [x|e IH k]; simpl.
  - by intros [?|[]].
  - intros [Heq|Hi] [Heq'|Hj].
    + congruence.
    + injection Heq as -> ->. by apply not_reaches_child in Hj.
    + injection Heq' as -> ->. by apply not_reaches_child in Hi.
    + by apply IH.
Qed.

Lemma holes_of_children_reach p cs :
  Forall (λ c, ∀ q, Forall (Path.reaches q) (PatternSpec.holes system c q).*1) cs →
  ∀ i, Forall (λ e, ∃ j, (i ≤ j)%nat ∧ Path.reaches (Py.Child p j) e)
         (PatternSpec.holes_of_children (PatternSpec.holes system) p cs i).*1.
Proof.
  induction 1 as [|c cs Hc _ IH]; intros i; simpl; [done|].
  rewrite fmap_app. apply Forall_app. split.
  - eapply Forall_impl; [apply Hc|]. intros e He. by exists i.
  - eapply Forall_impl; [apply (IH (S i))|]. intros e (j & Hj & He).
    exists j. split; [lia|done].
Qed.

Lemma holes_reach t : ∀ q, Forall (Path.reaches q) (PatternSpec.holes system t q).*1.
Proof.
  induction t as [nm v cs st IH] using Tree.ind'. intros q.
  rewrite holes_eq. destruct (PatternSpec.is_hole _ _); simpl.
  - constructor; [apply reaches_refl|done].
  - eapply Forall_impl; [by apply (holes_of_children_reach q cs IH 0%nat)|].
    intros e (j & _ & He). eapply reaches_trans; [apply reaches_child|done].
Qed.

Lemma holes_of_children_NoDup p cs :
  Forall (λ c, ∀ q, NoDup (PatternSpec.holes system c q).*1) cs →
  ∀ i, NoDup
         (PatternSpec.holes_of_children (PatternSpec.holes system) p cs i).*1.
Proof.
  induction 1 as [|c cs Hc _ IH]; intros i; simpl; [constructor|].
  rewrite fmap_app. apply NoDup_app. split_and!; [apply Hc| |apply IH].
  intros e He Hrest.
  pose proof (holes_reach c (Py.Child p i)) as Hreach.
  rewrite Forall_forall in Hreach. specialize (Hreach _ He).
  pose proof (holes_of_children_reach p cs
                (proj2 (Forall_forall _ _) (λ c' _, holes_reach c')) (S i))
    as Hreach'.
  rewrite Forall_forall in Hreach'.
  destruct (Hreach' _ Hrest) as (j & Hj & Hej).
  pose proof (reaches_index _ _ _ _ Hreach Hej). lia.
Qed.

Lemma holes_NoDup t : ∀ q, NoDup (PatternSpec.holes system t q).*1.
Proof.
  induction t as [nm v cs st IH] using Tree.ind'. intros q.
  rewrite holes_eq. destruct (PatternSpec.is_hole _ _); simpl.
  - apply NoDup_singleton.
  - by apply holes_of_children_NoDup.
Qed.

(** X18. The paths that [compute_kids] gives for a pattern are pairwise
    different and all go through the root path.  For a pattern that is a
    non-terminal, the only path is the root path itself; for any other
    pattern, every path leads strictly below the root, so that a kid of a
    node is never the node itself. *)
Theorem kid_paths_are_distinct pattern root_name :
  NoDup (BurgGenerator.compute_kids system pattern root_name).1
  ∧ Forall (Path.reaches root_name)
           (BurgGenerator.compute_kids system pattern root_name).1
  ∧ (PatternSpec.is_hole system pattern = true →
     (BurgGenerator.compute_kids system pattern root_name).1 = [root_name])
  ∧ (PatternSpec.is_hole system pattern = false →
     Forall (λ e, e ≠ root_name ∧ Selection.is_child e)
            (BurgGenerator.compute_kids system pattern root_name).1).
Proof.
  rewrite compute_kids_holes. simpl.
  split_and!; [apply holes_NoDup|apply holes_reach|..].
  - intros Hhole. by rewrite holes_eq, Hhole.
  - intros Hhole. rewrite holes_eq, Hhole.
    pose proof (holes_of_children_reach root_name (Tree.children pattern)
                  (proj2 (Forall_forall _ _) (λ c' _, holes_reach c')) 0%nat)
      as Hreach.
    eapply Forall_impl; [exact Hreach|]. intros e (j & _ & He). split.
    + intros ->. by apply not_reaches_child in He.
    + destruct e as [x|e k]; [|done]. simpl in He. by destruct He as [?|[]].
Qed.

End KidPaths.

(** ** Templates that hold no statement *)

Section BlankTemplate.

Abbreviation chars := String.list_ascii_of_string.

Implicit Types (s t : string) (c : Ascii.ascii).

Lemma chars_rev_app s t :
  chars (String.rev_app s t) = rev (chars s) ++ chars t.
Proof.
  revert t. induction s as [|a s IH]; intros t; simpl; [done|].
  rewrite IH. simpl. by rewrite <- app_assoc.
Qed.

Lemma chars_rev s : chars (String.rev s) = rev (chars s).
Proof. unfold String.rev. by rewrite chars_rev_app, app_nil_r. Qed.

Lemma lstrip_chars s :
  ∃ ws, chars s = ws ++ chars (PyStr.lstrip s)
        ∧ Forall (λ c, PyStr.isspace c = true) ws.
Proof.
  induction s as [|a s (ws & Hs & Hws)]; simpl.
  - by exists [].
  - destruct (PyStr.isspace a) eqn:Ha.
    + exists (a :: ws). split; [by rewrite Hs|by constructor].
    + by exists [].
Qed.

(** [strip] removes white space at both ends, and nothing else. *)
Lemma strip_chars s :
  ∃ ws1 ws2,
    chars s = ws1 ++ chars (PyStr.strip s) ++ ws2
    ∧ Forall (λ c, PyStr.isspace c = true) ws1
    ∧ Forall (λ c, PyStr.isspace c = true) ws2.
Proof.
  destruct (lstrip_chars s) as (ws1 & Hs & Hws1).
  destruct (lstrip_chars (String.rev (PyStr.lstrip s))) as (ws & Ht & Hws).
  exists ws1, (rev ws). split_and!; [|done|by apply Forall_rev].
  rewrite Hs. f_equal. unfold PyStr.strip, PyStr.rstrip.
  rewrite chars_rev in Ht. rewrite chars_rev.
  apply (f_equal (@rev _)) in Ht. rewrite rev_involutive, rev_app_distr in Ht.
  done.
Qed.

Lemma separators_space (ws : list Ascii.ascii) :
  Forall (λ c, PyStr.isspace c = true) ws →
  filter (λ c, c = PyStr.semicolon) ws = [].
Proof.
  induction 1 as [|c ws Hc _ IH]; [done|].
  rewrite filter_cons, decide_False; [done|]. by intros ->.
Qed.

Lemma strip_separators s :
  Template.separators (PyStr.strip s) = Template.separators s.
Proof.
  unfold Template.separators.
  destruct (strip_chars s) as (ws1 & ws2 & -> & H1 & H2).
  rewrite !filter_app, (separators_space ws1), (separators_space ws2) by done.
  by rewrite app_nil_r.
Qed.

Lemma strip_only_separators s :
  Template.only_separators s = true →
  Template.only_separators (PyStr.strip s) = true.
Proof.
  unfold Template.only_separators.
  destruct (strip_chars s) as (ws1 & ws2 & -> & _ & _).
  rewrite !forallb_app. intros [_ H]%andb_true_iff.
  by apply andb_true_iff in H as [-> _].
Qed.

(** The pieces between the separators are blank. *)
Lemma split_only_separators s :
  Template.only_separators s = true →
  Forall (λ piece, PyStr.all_space piece = true)
         (PyStr.split PyStr.semicolon s)
  ∧ length (PyStr.split PyStr.semicolon s) = S (Template.separators s).
Proof.
  unfold Template.only_separators, Template.separators.
  induction s as [|a s IH]; simpl.
  - intros _. split; [by constructor|done].
  - intros [Ha Hs]%andb_true_iff. destruct (IH Hs) as [Hall Hlen].
    rewrite filter_cons.
    destruct (Ascii.eqb_spec a PyStr.semicolon) as [->|Hne].
    + rewrite decide_True by done. simpl. split; [by constructor|by rewrite Hlen].
    + rewrite decide_False by done. rewrite orb_false_r in Ha.
      destruct (PyStr.split PyStr.semicolon s) as [|piece pieces]; [done|].
      apply Forall_cons in Hall as [Hpiece Hall]. split; [|done].
      constructor; [|done]. simpl. by rewrite Ha.
Qed.

Lemma body_lines_only_separators s :
  Template.only_separators s = true →
  Output.body_lines s = replicate (S (Template.separators s)) "        ".
Proof.
  intros [Hall Hlen]%split_only_separators. unfold Output.body_lines.
  rewrite <- Hlen. clear Hlen.
  induction Hall as [|piece pieces Hpiece _ IH]; simpl; [done|].
  by rewrite strip_all_space, IH.
Qed.

(** X19. A template that consists of separators and white space only, with
    one separator at least, is not replaced by [pass]: it is kept, and the
    body of the action that is printed for it consists of blank lines
    only, one more than there are separators. *)
Theorem template_of_separators_gives_blank_body (system : BurgSystem.t) nt tree
    cost acceptance template (system' : BurgSystem.t) :
  BurgSystem.add_rule system nt tree cost acceptance template = Ok system' →
  Template.only_separators template = true →
  (0 < Template.separators template)%nat →
  ∃ rule,
    BurgSystem.rules system' = BurgSystem.rules system ++ [rule]
    ∧ Rule.template rule = PyStr.strip template
    ∧ Rule.template rule ≠ "pass"
    ∧ Output.body_lines (Rule.template rule)
      = replicate (S (Template.separators template)) "        ".
Proof.
  intros Hadd Honly Hsep. apply add_rule_rules in Hadd. eexists.
  split; [exact Hadd|]. simpl.
  assert (PyStr.truthy (PyStr.strip template) = true) as ->.
  { rewrite <- strip_separators in Hsep. unfold Template.separators in Hsep.
    destruct (PyStr.strip template); [simpl in Hsep; lia|done]. }
  split_and!; [done| |].
  - intros Hpass. apply strip_only_separators in Honly.
    rewrite Hpass in Honly. by vm_compute in Honly.
  - rewrite body_lines_only_separators by by apply strip_only_separators.
    by rewrite strip_separators.
Qed.

Lemma template_of_separators_gives_blank_body_witness :
  ∃ rule,
    BurgSystem.rules
      (Invariant.add_rule_result BurgSystem.init "reg"
         (BurgSystem.tree "CONST" []) 1 None " ; ") = [rule]
    ∧ Rule.template rule = ";"
    ∧ Output.body_lines (Rule.template rule) = ["        "; "        "].
Proof.
  destruct (template_of_separators_gives_blank_body BurgSystem.init "reg"
              (BurgSystem.tree "CONST" []) 1 None " ; "
              (Invariant.add_rule_result BurgSystem.init "reg"
                 (BurgSystem.tree "CONST" []) 1 None " ; ")
              eq_refl eq_refl) as (rule & Hrules & Htemplate & _ & Hbody).
  { vm_compute. lia. }
  exists rule. split_and!; [exact Hrules|exact Htemplate|exact Hbody].
Defined.

End BlankTemplate.

(** ** What the labels of a tree say *)

Section LabelInvariant.

Variable code : Py.matcher.
Variable A : nat → Tree.t → bool.

Implicit Types (tree : Tree.t) (st : State.t) (r : Py.record).

(** A record either leaves the node as it is or offers its candidate. *)
Lemma run_record_shape r tree st tree' :
  Tree.state tree = Some st →
  Matcher.run_record code A r tree = Ok tree' →
  tree' = tree
  ∨ ∃ cost, tree' = Tree.set_state tree (Labelling.record_state r cost st).
Proof.
  intros Hst. unfold Matcher.run_record.
  intros (ns & _ & (ks & _ & (ok & _ & H)%bind_Ok)%bind_Ok)%bind_Ok.
  destruct (ok && _).
  - apply bind_Ok in H as (s & _ & H).
    rewrite (set_cost_Ok _ _ _ _ _ Hst) in H. simpl in H.
    erewrite run_chain_Ok in H by done. injection H as <-. right. by eexists.
  - injection H as <-. by left.
Qed.

Lemma run_cases_invariant (I : State.t → Prop) cases :
  (∀ c cost st, c ∈ cases → I st →
                I (Labelling.record_state (Py.body c) cost st)) →
  ∀ tree st tree',
    Tree.state tree = Some st → I st →
    Matcher.run_cases code A cases tree = Ok tree' →
    ∃ st', tree' = Tree.set_state tree st' ∧ I st'.
Proof.
  induction cases as [|c cases IH]; intros Hstep tree st tree' Hst HI; simpl.
  - intros [= <-]. exists st. by rewrite set_state_id.
  - intros (tree1 & H1 & Hrest)%bind_Ok.
    assert (∃ st1, tree1 = Tree.set_state tree st1 ∧ I st1) as (st1 & -> & HI1).
    { unfold Matcher.run_case in H1. apply bind_Ok in H1 as ([] & _ & H1).
      - destruct (run_record_shape _ _ _ _ Hst H1) as [->|[cost ->]].
        + exists st. by rewrite set_state_id.
        + eexists. split; [done|]. apply Hstep; [left|done].
      - injection H1 as <-. exists st. by rewrite set_state_id. }
    destruct (IH (λ c' cost st' Hc', Hstep c' cost st' (list_elem_of_further _ _ _ Hc'))
                 (Tree.set_state tree st1) st1 tree' eq_refl HI1 Hrest)
      as (st' & -> & HI').
    exists st'. by rewrite set_state_set_state.
Qed.

Lemma run_cases_app cases1 cases2 tree :
  Matcher.run_cases code A (cases1 ++ cases2) tree =
  do tree1 <- Matcher.run_cases code A cases1 tree;
  Matcher.run_cases code A cases2 tree1.
Proof.
  revert tree. induction cases1 as [|c cases1 IH]; intros tree; simpl; [done|].
  destruct (Matcher.run_case code A c tree); simpl; [apply IH|done].
Qed.

Lemma record_state_mono r cost st Y c0 (nr0 : nat) :
  st !! Y = Some (c0, nr0) →
  ∃ c1 (nr1 : nat),
    Labelling.record_state r cost st !! Y = Some (c1, nr1) ∧ c1 ≤ c0.
Proof.
  intros HY. unfold Labelling.record_state.
  destruct (set_cost_mono st (Rule.non_term (Py.rule r)) cost
              (Rule.nr (Py.rule r)) _ _ _ HY) as (c1 & nr1 & H1 & Hle1).
  destruct (offer_chain_mono (Py.chain_rules r) cost _ _ _ _ H1)
    as (c2 & nr2 & H2 & Hle2).
  exists c2, nr2. split; [done|lia].
Qed.

Lemma hole_cost_functional (l : list (Tree.t * string)) costs costs' :
  Forall2 Labelling.hole_cost l costs → Forall2 Labelling.hole_cost l costs' →
  costs = costs'.
Proof.
  intros H. revert costs'.
  induction H as [|kg c l costs (st & n & Hst & Hc) _ IH]; intros costs' H';
    inversion H' as [|? c' ? costs'' (st' & n' & Hst' & Hc') Hrest]; subst;
    [done|].
  f_equal; [|by apply IH]. congruence.
Qed.

Lemma all_has_goal_of_costs (l : list (Tree.t * string)) costs :
  Forall2 Labelling.hole_cost l costs → Matcher.all_has_goal l = Ok true.
Proof.
  induction 1 as [|[x y] c l costs (st & n & Hst & Hc) _ IH]; simpl; [done|].
  simpl in Hst, Hc. rewrite Hst. simpl.
  assert (State.has_goal st y = true) as -> by (apply has_goal_true; eauto).
  done.
Qed.

End LabelInvariant.

Section LabelClaims.

Variable A : nat → Tree.t → bool.

Implicit Types (system : BurgSystem.t) (code : Py.matcher) (st : State.t).

Lemma tree_sound_eq system t :
  Labels.tree_sound system t ↔
  (∃ st, Tree.state t = Some st ∧ Labels.state_sound system st)
  ∧ Forall (Labels.tree_sound system) (Tree.children t).
Proof.
  destruct t as [nm v cs st]. simpl.
  assert ((fix all (l : list Tree.t) : Prop :=
             match l with
             | [] => True
             | c :: l' => Labels.tree_sound system c ∧ all l'
             end) cs ↔ Forall (Labels.tree_sound system) cs) as ->; [|done].
  induction cs as [|c cs IH]; [by split|].
  rewrite Forall_cons, IH. done.
Qed.

Lemma set_cost_sound system st rule c :
  Labels.state_sound system st →
  rule ∈ BurgSystem.rules system →
  Labels.state_sound system
    (State.set_cost st (Rule.non_term rule) c (Rule.nr rule)).
Proof.
  intros Hst Hr.
  assert (Labels.state_sound system
            (<[Rule.non_term rule := (c, Rule.nr rule)]> st)) as Hins.
  { intros Y c' nr. destruct (decide (Y = Rule.non_term rule)) as [->|Hne].
    - rewrite lookup_insert_eq. intros [= <- <-]. by exists rule.
    - rewrite lookup_insert_ne by done. apply Hst. }
  unfold State.set_cost.
  destruct (st !! Rule.non_term rule) as [[old n]|]; [|done].
  by destruct (c <? old).
Qed.

Lemma offer_chain_sound system crs c st :
  Forall (λ cr, cr ∈ BurgSystem.rules system) crs →
  Labels.state_sound system st →
  Labels.state_sound system (Labelling.offer_chain crs c st).
Proof.
  intros Hcrs. revert st. induction Hcrs as [|cr crs Hcr _ IH]; intros st Hst;
    simpl; [done|].
  apply IH. by apply set_cost_sound.
Qed.

(** X20. After labelling, every entry of the state of every node names a
    rule of the grammar whose left-hand side is the category of the entry:
    the rule that selection applies for a category is a rule for that
    category. *)
Theorem labels_name_rules_of_their_category header calls system code tree tree' :
  BurgParser.parse header calls = Ok system →
  BurgGenerator.generate system = Ok code →
  Matcher.burm_label code A tree = Ok tree' →
  Labels.tree_sound system tree'.
Proof.
  intros Hparse Hgen. pose proof (parse_built _ _ _ Hparse) as Hbuilt.
  revert tree'. induction tree as [nm v cs st IH] using Tree.ind'.
  intros tree'. rewrite burm_label_eq. simpl.
  intros (cs' & Hcs%mapM_Ok & Hst)%bind_Ok.
  assert (Forall (Labels.tree_sound system) cs') as Hcs'.
  { clear -Hcs IH. induction Hcs as [|c c' cs cs' Hc _ IHcs]; [done|].
    apply Forall_cons in IH as [IHc IH].
    constructor; [by apply IHc|by apply IHcs]. }
  unfold Matcher.burm_state in Hst.
  eapply (run_cases_invariant code A (Labels.state_sound system)) in Hst
    as (st' & -> & Hsound); [| |done|].
  - apply tree_sound_eq. simpl. split; [|done]. by exists st'.
  - intros c cost st1 Hc Hst1.
    destruct (case_facts system code Hbuilt Hgen c Hc) as (Hr & _ & Hchain).
    unfold Labelling.record_state. apply offer_chain_sound.
    + rewrite Hchain. apply Forall_forall. intros cr Hcr.
      destruct Hbuilt as (_ & _ & Hch). by destruct (Hch _ _ Hcr).
    + by apply set_cost_sound.
  - by intros Y c nr H.
Qed.

(** X21. The state that [burm_state] leaves at a node is at least as good
    as the offer of every rule that matches there.  When the test of a
    case holds on the node, the kids of its rule are found and have the
    categories of the holes, and its acceptance function agrees, then the
    state holds for the left-hand side of the rule a cost that is not
    above the sum of the costs of the kids plus the cost of the rule, and
    for the left-hand side of every chain rule filed under that category a
    cost that is not above that sum plus the cost of the chain rule. *)
Theorem label_is_at_most_every_offer header calls system code tree tree' c ks
    costs :
  BurgParser.parse header calls = Ok system →
  BurgGenerator.generate system = Ok code →
  Matcher.burm_state code A tree = Ok tree' →
  c ∈ Py.burm_state code →
  Py.eval_cond (Py.condition c) tree = Ok true →
  mapM (λ e, Py.eval_expr e tree)
       (Selection.kids_of system (Py.rule (Py.body c))) = Ok ks →
  Forall2 Labelling.hole_cost
          (zip ks (Selection.nts_of system (Py.rule (Py.body c)))) costs →
  (Rule.has_acceptance (Py.rule (Py.body c)) = true →
   ∀ st, A (Rule.nr (Py.rule (Py.body c))) (Tree.set_state tree st) = true) →
  ∃ st',
    Tree.state tree' = Some st'
    ∧ (∃ c' nr',
         st' !! Rule.non_term (Py.rule (Py.body c)) = Some (c', nr')
         ∧ c' ≤ Labelling.total costs + Rule.cost (Py.rule (Py.body c)))
    ∧ ∀ cr,
        cr ∈ Invariant.chain_rules system (Rule.non_term (Py.rule (Py.body c))) →
        ∃ c' nr',
          st' !! Rule.non_term cr = Some (c', nr')
          ∧ c' ≤ Labelling.total costs + Rule.cost (Py.rule (Py.body c))
                 + Rule.cost cr.
Proof.
  intros Hparse Hgen Hstate Hc Hcond Hks Hcosts Hacc.
  pose proof (parse_built _ _ _ Hparse) as Hbuilt.
  destruct (case_facts system code Hbuilt Hgen c Hc) as (Hr & Hroot & Hchain).
  pose proof Hbuilt as (_ & Hnum & _).
  set (rule := Py.rule (Py.body c)) in *.
  set (cand := Labelling.total costs + Rule.cost rule).
  apply list_elem_of_split in Hc as (pre & post & Hsplit).
  unfold Matcher.burm_state in Hstate. rewrite Hsplit, run_cases_app in Hstate.
  apply bind_Ok in Hstate as (tree1 & Hpre & Hrest).
  apply run_cases_Ok in Hpre as [st1 ->]; [|by eexists].
  rewrite set_state_set_state in Hrest. simpl in Hrest.
  apply bind_Ok in Hrest as (tree2 & Hcase & Hpost).
  (* the case of the rule runs on the node with the state [st1] *)
  destruct (run_case_match code A c (Tree.set_state tree st1) st1
              (Selection.nts_of system rule) ks) as (costs' & Hcosts' & Hrun).
  { rewrite <- Hcond. apply eval_cond_shape, forget_set_state. }
  { done. }
  { unfold BaseMatcher.nts. fold rule.
    by rewrite (nts_map_lookup system code Hnum Hgen rule Hr). }
  { unfold BaseMatcher.kids. fold rule.
    rewrite (kid_functions_lookup system code Hnum Hgen rule Hr). simpl.
    fold (Selection.kids_of system rule).
    rewrite mapM_eval_set_state; [done|]. by apply (kids_of_is_child system). }
  { by eapply all_has_goal_of_costs. }
  { intros Hhas. by apply Hacc. }
  rewrite (hole_cost_functional _ _ _ Hcosts' Hcosts) in Hrun. fold rule in Hrun.
  fold cand in Hrun. rewrite Hrun in Hcase. injection Hcase as <-.
  rewrite set_state_set_state in Hpost.
  set (st2 := Labelling.record_state (Py.body c) cand st1) in *.
  (* what the state holds once the case has run *)
  assert (∃ c2 nr2, st2 !! Rule.non_term rule = Some (c2, nr2) ∧ c2 ≤ cand)
    as Hdirect.
  { unfold st2, Labelling.record_state. fold rule.
    destruct (set_cost_lookup st1 (Rule.non_term rule) cand (Rule.nr rule))
      as (c1 & nr1 & H1 & Hle1).
    destruct (offer_chain_mono (Py.chain_rules (Py.body c)) cand _ _ _ _ H1)
      as (c2 & nr2 & H2 & Hle2).
    exists c2, nr2. split; [done|lia]. }
  assert (∀ cr, cr ∈ Invariant.chain_rules system (Rule.non_term rule) →
                ∃ c2 nr2, st2 !! Rule.non_term cr = Some (c2, nr2)
                          ∧ c2 ≤ cand + Rule.cost cr) as Hchains.
  { intros cr Hcr. unfold st2, Labelling.record_state. fold rule.
    apply offer_chain_offered. by rewrite Hchain. }
  (* the cases that follow do not raise a cost *)
  assert (∀ Y bound,
            (∃ c2 nr2, st2 !! Y = Some (c2, nr2) ∧ c2 ≤ bound) →
            ∃ st', tree' = Tree.set_state tree st'
                   ∧ ∃ c' nr', st' !! Y = Some (c', nr') ∧ c' ≤ bound) as Hkeep.
  { intros Y bound HY.
    eapply (run_cases_invariant code A
              (λ st, ∃ c' nr', st !! Y = Some (c', nr') ∧ c' ≤ bound))
      in Hpost as (st' & -> & HI); [| |done|exact HY].
    - exists st'. split; [by rewrite set_state_set_state|done].
    - intros c0 cost st0 _ (c1 & nr1 & H1 & Hle1).
      destruct (record_state_mono (Py.body c0) cost _ _ _ _ H1)
        as (c2 & nr2 & H2 & Hle2).
      exists c2, nr2. split; [done|lia]. }
  destruct (Hkeep _ _ Hdirect) as (st' & -> & Hlhs).
  exists st'. split_and!; [done|done|].
  intros cr Hcr. destruct (Hkeep _ _ (Hchains cr Hcr)) as (st'' & Heq & Hcr').
  assert (st'' = st') as -> by (by injection Heq).
  done.
Qed.

End LabelClaims.

Lemma labels_name_rules_of_their_category_witness :
  Labels.tree_sound Example.system MoreExamples.labelled_input.
Proof.
  assert (BurgParser.parse [] Example.calls = Ok Example.system) as Hparse
    by (vm_compute; reflexivity).
  assert (BurgGenerator.generate Example.system = Ok Example.code) as Hgen
    by (vm_compute; reflexivity).
  assert (Matcher.burm_label Example.code Example.A Example.input
          = Ok MoreExamples.labelled_input) as Hlabel
    by (vm_compute; reflexivity).
  exact (labels_name_rules_of_their_category Example.A _ _ _ _ _ _
           Hparse Hgen Hlabel).
Defined.

Lemma label_is_at_most_every_offer_witness :
  ∃ st', Tree.state MoreExamples.labelled_root = Some st'
         ∧ ∃ c' nr', st' !! "reg" = Some (c', nr') ∧ c' ≤ 4.
Proof.
  assert (BurgParser.parse [] Example.calls = Ok Example.system) as Hparse
    by (vm_compute; reflexivity).
  assert (BurgGenerator.generate Example.system = Ok Example.code) as Hgen
    by (vm_compute; reflexivity).
  assert (Matcher.burm_state Example.code Example.A Example.root_before
          = Ok MoreExamples.labelled_root) as Hstate
    by (vm_compute; reflexivity).
  assert (Example.add_case ∈ Py.burm_state Example.code) as Hc.
  { apply (list_elem_of_lookup_2 _ 1%nat). vm_compute. reflexivity. }
  assert (Forall2 Labelling.hole_cost
            (zip [Example.labelled_leaf 2; Example.labelled_leaf 3]
                 (Selection.nts_of Example.system
                    (Py.rule (Py.body Example.add_case)))) [1; 1]) as Hcosts.
  { change (Forall2 Labelling.hole_cost
              [(Example.labelled_leaf 2, "reg"); (Example.labelled_leaf 3, "reg")]
              [1; 1]).
    repeat constructor;
      (exists {[ "reg" := (1, 1%nat) ]}, 1%nat; split;
       [reflexivity|vm_compute; reflexivity]). }
  destruct (label_is_at_most_every_offer Example.A [] Example.calls
              Example.system Example.code Example.root_before
              MoreExamples.labelled_root Example.add_case
              [Example.labelled_leaf 2; Example.labelled_leaf 3] [1; 1]
              Hparse Hgen Hstate Hc eq_refl eq_refl Hcosts)
    as (st' & Hst' & Hlhs & _).
  { intros Hhas. vm_compute in Hhas. discriminate Hhas. }
  exists st'. split; [exact Hst'|exact Hlhs].
Defined.

(** ** The candidate cost of a rule *)

Section CandidateCost.

Variable A : nat → Tree.t → bool.

(** Every rule whose pattern is rooted at a declared terminal has its case
    in [burm_state]. *)
Lemma case_of_rule header calls system code rule :
  BurgParser.parse header calls = Ok system →
  BurgGenerator.generate system = Ok code →
  rule ∈ BurgSystem.rules system →
  Tree.name (Rule.tree rule) ∈ BurgSystem.terminals system →
  ∃ c, c ∈ Py.burm_state code ∧ Py.rule (Py.body c) = rule.
Proof.
  intros Hparse Hgen Hin Hterm.
  pose proof (parse_built _ _ _ Hparse) as ((Hwf & _) & _).
  pose proof Hgen as (Hcases & _)%generate_Ok.
  assert (rule ∈ map (λ c, Py.rule (Py.body c)) (Py.burm_state code)) as Hrule.
  { rewrite (emit_state_rules _ _ Hcases).
    rewrite (groups_Permutation (λ r, Tree.name (Rule.tree r)))
      by by apply symType_NoDup.
    by apply list_elem_of_filter. }
  change (map ?f ?l) with (f <$> l) in Hrule.
  apply list_elem_of_fmap in Hrule as (c & -> & Hc). by exists c.
Qed.

(** Where the emitted test is the structural test, the record of a rule
    that matches the node offers the cost of the rule plus the costs of the
    kids. *)
Lemma candidate_of_matching_rule header calls system code rule tree st ks costs :
  BurgParser.parse header calls = Ok system →
  BurgGenerator.generate system = Ok code →
  rule ∈ BurgSystem.rules system →
  Tree.name (Rule.tree rule) ∈ BurgSystem.terminals system →
  PatternShape.holes_last system (Rule.tree rule) = true →
  PatternSpec.structural_test system (Rule.tree rule) tree = true →
  (Rule.has_acceptance rule = true → A (Rule.nr rule) tree = true) →
  Tree.state tree = Some st →
  mapM (λ e, Py.eval_expr e tree) (Selection.kids_of system rule) = Ok ks →
  Forall2 Labelling.hole_cost (zip ks (Selection.nts_of system rule)) costs →
  ∃ c,
    c ∈ Py.burm_state code
    ∧ Py.rule (Py.body c) = rule
    ∧ Py.eval_cond (Py.condition c) tree = Ok true
    ∧ Matcher.run_case code A c tree
      = Ok (Tree.set_state tree
              (Labelling.offer_chain
                 (Invariant.chain_rules system (Rule.non_term rule))
                 (Labelling.total costs + Rule.cost rule)
                 (State.set_cost st (Rule.non_term rule)
                    (Labelling.total costs + Rule.cost rule) (Rule.nr rule)))).
Proof.
  intros Hparse Hgen Hin Hterm Hlast Hmatch Hacc Hst Hks Hcosts.
  destruct (case_of_rule _ _ _ _ _ Hparse Hgen Hin Hterm) as (c & Hc & Hrule).
  pose proof (parse_built _ _ _ Hparse) as Hbuilt.
  pose proof Hbuilt as (_ & Hnum & _).
  pose proof Hgen as (Hcases & _)%generate_Ok.
  destruct (emit_state_cases _ _ _ Hcases Hc) as (_ & _ & Hcond & Hchain).
  rewrite Hrule in Hcond, Hchain.
  assert (Py.eval_cond (Py.condition c) tree = Ok true) as Htest.
  { rewrite Hcond. by apply (emittest_holes_last system (Rule.tree rule)
                               (Py.Var "tree") tree tree Hlast). }
  exists c. split_and!; [done..|].
  destruct (run_case_match code A c tree st (Selection.nts_of system rule) ks)
    as (costs' & Hcosts' & Hrun); try done.
  - unfold BaseMatcher.nts. rewrite Hrule.
    by rewrite (nts_map_lookup system code Hnum Hgen rule Hin).
  - unfold BaseMatcher.kids. rewrite Hrule.
    by rewrite (kid_functions_lookup system code Hnum Hgen rule Hin).
  - by eapply all_has_goal_of_costs.
  - by rewrite Hrule.
  - rewrite (hole_cost_functional _ _ _ Hcosts' Hcosts) in Hrun.
    rewrite Hrun. unfold Labelling.record_state. by rewrite Hchain, Hrule.
Qed.

(** C1. The code does not do what the claim says for every rule: the test
    that [emittest] prints numbers the terminal-rooted children of a
    pattern after the non-terminal children have been left out, so for
    [reg -> ADD(reg, MUL(reg, reg)) 4] it looks for [MUL] at position 0.
    On [ADD(CONST, MUL(CONST, CONST))] the pattern matches the node
    structurally, the three kids that [compute_kids] addresses all have
    [reg] at cost 1, the rule has no acceptance function, and yet
    [burm_state] records nothing at the root, where the claim has [reg]
    at cost 7.  Where the defect cannot show, namely for a pattern in
    which, at every node, the terminal-rooted children come before the
    non-terminals, the claim holds: when the pattern matches the node
    structurally, the acceptance function (if any) accepts it, and the
    kids have the categories of the holes, the record of the rule offers
    for its left-hand side the cost of the rule plus the sum of the best
    costs of the kids.  For the grammar [reg -> CONST 1],
    [reg -> ADD(reg, reg) 2] with goal [reg], the tree
    [ADD(CONST(2), CONST(3))] is labelled [reg] at cost 1 on both leaves
    and [reg] at cost 4 at the root, and selection produces the two loads
    and then the add of the two. *)
Theorem candidate_cost_of_rule :
  (BurgParser.parse [] Example.muladd_calls = Ok MoreExamples.muladd_system
   ∧ BurgGenerator.generate MoreExamples.muladd_system
     = Ok MoreExamples.muladd_code
   ∧ MoreExamples.muladd_rule ∈ BurgSystem.rules MoreExamples.muladd_system
   ∧ Rule.has_acceptance MoreExamples.muladd_rule = false
   ∧ PatternSpec.structural_test MoreExamples.muladd_system
       (Rule.tree MoreExamples.muladd_rule) MoreExamples.muladd_root = true
   ∧ mapM (Matcher.burm_label MoreExamples.muladd_code A)
          (Tree.children Example.muladd_input)
     = Ok (Tree.children MoreExamples.muladd_root)
   ∧ (∃ ks,
        mapM (λ e, Py.eval_expr e MoreExamples.muladd_root)
             (Selection.kids_of MoreExamples.muladd_system
                MoreExamples.muladd_rule) = Ok ks
        ∧ Forall2 Labelling.hole_cost
            (zip ks (Selection.nts_of MoreExamples.muladd_system
                       MoreExamples.muladd_rule)) [1; 1; 1])
   ∧ Matcher.burm_state MoreExamples.muladd_code A MoreExamples.muladd_root
     = Ok (Tree.set_state MoreExamples.muladd_root ∅)
   ∧ Matcher.burm_label MoreExamples.muladd_code A Example.muladd_input
     = Ok (Tree.set_state MoreExamples.muladd_root ∅))
  ∧ (∀ header calls system code rule tree st ks costs,
       BurgParser.parse header calls = Ok system →
       BurgGenerator.generate system = Ok code →
       rule ∈ BurgSystem.rules system →
       Tree.name (Rule.tree rule) ∈ BurgSystem.terminals system →
       PatternShape.holes_last system (Rule.tree rule) = true →
       PatternSpec.structural_test system (Rule.tree rule) tree = true →
       (Rule.has_acceptance rule = true → A (Rule.nr rule) tree = true) →
       Tree.state tree = Some st →
       mapM (λ e, Py.eval_expr e tree) (Selection.kids_of system rule) = Ok ks →
       Forall2 Labelling.hole_cost
               (zip ks (Selection.nts_of system rule)) costs →
       ∃ c,
         c ∈ Py.burm_state code
         ∧ Py.rule (Py.body c) = rule
         ∧ Py.eval_cond (Py.condition c) tree = Ok true
         ∧ Matcher.run_case code A c tree
           = Ok (Tree.set_state tree
                   (Labelling.offer_chain
                      (Invariant.chain_rules system (Rule.non_term rule))
                      (Labelling.total costs + Rule.cost rule)
                      (State.set_cost st (Rule.non_term rule)
                         (Labelling.total costs + Rule.cost rule)
                         (Rule.nr rule)))))
  ∧ (∀ code c tree st ns ks,
       Py.eval_cond (Py.condition c) tree = Ok true →
       Tree.state tree = Some st →
       BaseMatcher.nts (Matcher.nts_map code) (Rule.nr (Py.rule (Py.body c)))
       = Ok ns →
       BaseMatcher.kids (Matcher.kid_functions code) tree
                        (Rule.nr (Py.rule (Py.body c))) = Ok ks →
       Matcher.all_has_goal (zip ks ns) = Ok true →
       (Rule.has_acceptance (Py.rule (Py.body c)) = true →
        A (Rule.nr (Py.rule (Py.body c))) tree = true) →
       ∃ costs,
         Forall2 Labelling.hole_cost (zip ks ns) costs
         ∧ Matcher.run_case code A c tree
           = Ok (Tree.set_state tree
                   (Labelling.offer_chain (Py.chain_rules (Py.body c))
                      (Labelling.total costs + Rule.cost (Py.rule (Py.body c)))
                      (State.set_cost st (Rule.non_term (Py.rule (Py.body c)))
                         (Labelling.total costs
                          + Rule.cost (Py.rule (Py.body c)))
                         (Rule.nr (Py.rule (Py.body c)))))))
  ∧ BurgParser.parse [] Example.calls = Ok Example.system
  ∧ BurgSystem.goal Example.system = Some "reg"
  ∧ BurgGenerator.generate Example.system = Ok Example.code
  ∧ Matcher.burm_label Example.code Example.A Example.input
    = Ok (Tree.mk "ADD" None [Example.labelled_leaf 2; Example.labelled_leaf 3]
                  (Some {[ "reg" := (4, 2%nat) ]}))
  ∧ Matcher.gen Example.code Example.A Example.P 2 Example.input []
    = Ok (Example.emit_add (Example.emit_load (Some 2))
                           (Example.emit_load (Some 3)),
          [ Example.emit_load (Some 2); Example.emit_load (Some 3);
            Example.emit_add (Example.emit_load (Some 2))
                             (Example.emit_load (Some 3)) ]).
Proof.
  assert (BurgGenerator.generate MoreExamples.muladd_system
          = Ok MoreExamples.muladd_code) as Hgen by (vm_compute; reflexivity).
  split_and!.
  - vm_compute. reflexivity.
  - exact Hgen.
  - right. left.
  - reflexivity.
  - vm_compute. reflexivity.
  - vm_compute. reflexivity.
  - exists [Example.labelled_leaf 1; Example.labelled_leaf 2;
            Example.labelled_leaf 3].
    split; [vm_compute; reflexivity|].
    change (Forall2 Labelling.hole_cost
              [(Example.labelled_leaf 1, "reg"); (Example.labelled_leaf 2, "reg");
               (Example.labelled_leaf 3, "reg")] [1; 1; 1]).
    repeat constructor;
      (exists {[ "reg" := (1, 1%nat) ]}, 1%nat; split;
       [reflexivity|vm_compute; reflexivity]).
  - vm_compute. reflexivity.
  - vm_compute. reflexivity.
  - intros. by eapply candidate_of_matching_rule.
  - intros code c tree st ns ks Hcond Hst Hns Hks Hall Hacc.
    by apply run_case_match.
  - apply example_parse.
  - reflexivity.
  - apply example_generate.
  - vm_compute. reflexivity.
  - vm_compute. reflexivity.
Qed.

End CandidateCost.

Lemma candidate_cost_of_rule_witness :
  ∃ c,
    c ∈ Py.burm_state Example.code
    ∧ Py.eval_cond (Py.condition c) Example.root_before = Ok true
    ∧ Matcher.run_case Example.code Example.A c Example.root_before
      = Ok (Tree.set_state Example.root_before {[ "reg" := (4, 2%nat) ]}).
Proof.
  assert (Tree.name (BurgSystem.tree "ADD" [Example.reg; Example.reg])
          ∈ BurgSystem.terminals Example.system) as Hterm by (right; left).
  assert (Forall2 Labelling.hole_cost
            [(Example.labelled_leaf 2, "reg"); (Example.labelled_leaf 3, "reg")]
            [1; 1]) as Hcosts.
  { repeat constructor;
      (exists {[ "reg" := (1, 1%nat) ]}, 1%nat; split;
       [reflexivity|vm_compute; reflexivity]). }
  destruct (proj1 (proj2 (candidate_cost_of_rule Example.A))
              [] Example.calls Example.system Example.code
              (Rule.mk "reg" (BurgSystem.tree "ADD" [Example.reg; Example.reg])
                       2 None "emit_add(c0, c1)" 2)
              Example.root_before ∅
              [Example.labelled_leaf 2; Example.labelled_leaf 3] [1; 1]
              example_parse example_generate
              (list_elem_of_further _ _ _ (list_elem_of_here _ _))
              Hterm eq_refl eq_refl (λ H, eq_refl) eq_refl eq_refl Hcosts)
    as (c & Hc & _ & Htest & Hrun).
  exists c. split_and!; [exact Hc|exact Htest|exact Hrun].
Defined.

(** ** The driver *)

Section LabelErrors.

Variable system : BurgSystem.t.
Variable code : Py.matcher.
Variable A : nat → Tree.t → bool.

Hypothesis Hbuilt : Invariant.built system.
Hypothesis Hgen : BurgGenerator.generate system = Ok code.

Lemma run_record_IndexError c tree st e :
  c ∈ Py.burm_state code →
  Tree.state tree = Some st → Tree.labelled tree →
  Matcher.run_record code A (Py.body c) tree = Raise e → e = IndexError.
Proof.
  intros Hc Hst Hlab Hrun.
  destruct (case_facts system code Hbuilt Hgen c Hc) as (Hr & _ & _).
  destruct Hbuilt as (_ & Hnum & _).
  pose proof (nts_map_lookup system code Hnum Hgen _ Hr) as Hnts.
  pose proof (kid_functions_lookup system code Hnum Hgen _ Hr) as Hkids.
  destruct (BaseMatcher.kids (Matcher.kid_functions code) tree
              (Rule.nr (Py.rule (Py.body c)))) as [ks|e'] eqn:Hks.
  - destruct (run_record_total code A (Py.body c) tree st _ ks Hst Hlab
                (f_equal (λ o, of_option o KeyError) Hnts) Hks) as [st' Hok].
    congruence.
  - unfold Matcher.run_record in Hrun. unfold BaseMatcher.nts in Hrun.
    rewrite Hnts, Hks in Hrun. simpl in Hrun. injection Hrun as <-.
    unfold BaseMatcher.kids in Hks. rewrite Hkids in Hks. simpl in Hks.
    apply mapM_Raise in Hks as (p & _ & Hp). by eapply eval_expr_error.
Qed.

Lemma run_cases_IndexError cases :
  Forall (λ c, c ∈ Py.burm_state code) cases →
  ∀ tree st e,
    Tree.state tree = Some st → Forall Tree.labelled (Tree.children tree) →
    Matcher.run_cases code A cases tree = Raise e → e = IndexError.
Proof.
  induction 1 as [|c cases Hc _ IH]; intros tree st e Hst Hcs; simpl; [done|].
  intros [Hcase|(tree1 & Hcase & Hrest)]%bind_Raise.
  - unfold Matcher.run_case in Hcase.
    apply bind_Raise in Hcase as [Hcond|(b & _ & Hrec)].
    + by eapply eval_cond_error.
    + destruct b; [|done]. eapply run_record_IndexError; [done..| |done].
      apply labelled_eq. split; [by eexists|done].
  - destruct (run_cases_Ok code A [c] tree tree1) as [st1 ->].
    + by eexists.
    + simpl. by rewrite Hcase.
    + by eapply (IH (Tree.set_state tree st1) st1).
Qed.

(** Labelling with the class of a system that was built through the
    construction API fails in one way only: a child that the emitted code
    indexes is missing. *)
Lemma burm_label_IndexError tree :
  ∀ e, Matcher.burm_label code A tree = Raise e → e = IndexError.
Proof.
  induction tree as [nm v cs st IH] using Tree.ind'. intros e.
  rewrite burm_label_eq. simpl.
  intros [Hcs|(cs' & Hcs & Hstate)]%bind_Raise.
  - apply mapM_Raise in Hcs as (x & Hx & Hraise).
    rewrite Forall_forall in IH. by eapply IH.
  - unfold Matcher.burm_state in Hstate.
    apply (run_cases_IndexError (Py.burm_state code)
             (proj2 (Forall_forall _ _) (λ c H, H))
             (Tree.set_state (Tree.mk nm v cs' st) ∅) ∅ e eq_refl);
      [|exact Hstate].
    simpl. apply mapM_Ok in Hcs. clear -Hcs.
    induction Hcs as [|x y l l' Hxy _ IHl]; constructor; [|done].
    by apply burm_label_Ok in Hxy as [? _].
Qed.

End LabelErrors.

Section DriverClaim.

(** C8, as the spec states it, fails: labelling does not complete on every
    tree.  On [ADD()] the kid function of [reg -> ADD(reg, reg)] indexes a
    child that is not there, and [gen] ends with that [IndexError]: it
    neither raises the failure that names the tree nor returns a result. *)
Lemma gen_raises_index_error_on_missing_children :
  BurgParser.parse [] Example.calls = Ok Example.system
  ∧ BurgGenerator.generate Example.system = Ok Example.code
  ∧ Matcher.burm_label Example.code Example.A Example.bare_add = Raise IndexError
  ∧ Matcher.gen Example.code Example.A Example.P 5 Example.bare_add []
    = Raise IndexError
  ∧ (∀ t, Matcher.gen Example.code Example.A Example.P 5 Example.bare_add []
          ≠ Raise (Exception_not_covered t))
  ∧ (∀ res, Matcher.gen Example.code Example.A Example.P 5 Example.bare_add []
            ≠ Ok res).
Proof.
  assert (Matcher.gen Example.code Example.A Example.P 5 Example.bare_add []
          = Raise IndexError) as Hgen by (vm_compute; reflexivity).
  split_and!; [vm_compute; reflexivity..|exact Hgen| |]; intros x; by rewrite Hgen.
Qed.

(** C8, amended.  [gen] labels the tree first, and a failure of labelling
    is the outcome of [gen].  Labelling returns on every tree in which
    each node has the children that the emitted code indexes on it; with
    the class of a system that was built through the construction API it
    fails in no other way than by the [IndexError] of a missing child.
    When labelling has returned, the root has a state; [gen] raises the
    failure that carries the tree (the tree it was given, now with its
    labels) exactly when that state has no entry for the goal, and
    otherwise returns what [apply_rules] returns for the goal at the
    root.  The goal of the emitted driver is the goal of the system.  For
    the class of a system that was built through the construction API and
    whose costs are not negative, [apply_rules] does return: a bound on
    the depth of the recursion exists from which on [gen] gives a result
    whenever the root has the goal. *)
Theorem gen_covers_or_fails :
  (∀ (R W : Type) code A (P : nat → Tree.t → list R → W → R * W)
     depth tree w tree',
     Matcher.burm_label code A tree = Ok tree' →
     Tree.forget tree' = Tree.forget tree
     ∧ ∃ st,
         Tree.state tree' = Some st
         ∧ (State.has_goal st (Py.goal code) = false ↔
            Matcher.gen code A P depth tree w
            = Raise (Exception_not_covered tree'))
         ∧ (State.has_goal st (Py.goal code) = false ↔
            ∃ t, Matcher.gen code A P depth tree w
                 = Raise (Exception_not_covered t))
         ∧ (State.has_goal st (Py.goal code) = true →
            Matcher.gen code A P depth tree w
            = Matcher.apply_rules code P depth tree' (Py.goal code) w)
         ∧ (∀ system, BurgGenerator.generate system = Ok code →
                      Py.goal code = BurgGenerator.goal_str system))
  ∧ (∀ (R W : Type) code A (P : nat → Tree.t → list R → W → R * W)
       depth tree w e,
       Matcher.burm_label code A tree = Raise e →
       Matcher.gen code A P depth tree w = Raise e)
  ∧ (∀ code A tree,
       Labelling.well_shaped code tree = true →
       ∃ tree', Matcher.burm_label code A tree = Ok tree')
  ∧ (∀ header calls system code A tree e,
       BurgParser.parse header calls = Ok system →
       BurgGenerator.generate system = Ok code →
       Matcher.burm_label code A tree = Raise e → e = IndexError)
  ∧ (∀ (R W : Type) header calls system code A
       (P : nat → Tree.t → list R → W → R * W) tree tree' st,
       BurgParser.parse header calls = Ok system →
       Selection.costs_ok system →
       BurgGenerator.generate system = Ok code →
       Matcher.burm_label code A tree = Ok tree' →
       Tree.state tree' = Some st →
       State.has_goal st (Py.goal code) = true →
       ∃ d0 : nat, ∀ (depth : nat) (w : W),
         (d0 ≤ depth)%nat →
         ∃ res, Matcher.gen code A P depth tree w = Ok res
                ∧ Matcher.apply_rules code P depth tree' (Py.goal code) w
                  = Ok res).
Proof.
  split_and!.
  - intros R W code A P depth tree w tree'. apply gen_after_label.
  - intros R W code A P depth tree w e Hlabel. unfold Matcher.gen.
    by rewrite Hlabel.
  - intros code A tree. apply burm_label_total.
  - intros header calls system code A tree e Hparse Hgen.
    by apply (burm_label_IndexError system code A (parse_built _ _ _ Hparse)).
  - intros R W header calls system code A P tree tree' st
           Hparse Hcosts Hgen Hlabel Hst Hgoal.
    destruct (apply_rules_total system code P (parse_built _ _ _ Hparse) Hgen
                A tree tree' st (Py.goal code) Hcosts Hlabel Hst Hgoal)
      as [d0 Hd0].
    exists d0. intros depth w Hdepth. destruct (Hd0 depth w Hdepth) as [res Hres].
    exists res. split; [|done].
    unfold Matcher.gen. rewrite Hlabel. simpl. rewrite Hst. simpl.
    by rewrite Hgoal.
Qed.

Lemma gen_covers_or_fails_witness :
  ∃ st,
    Tree.state (Tree.mk "ADD" None [] (Some ∅)) = Some st
    ∧ State.has_goal st "reg" = false
    ∧ Matcher.gen Example.two_hop_code Example.A Example.P 2 Example.bare_add []
      = Raise (Exception_not_covered (Tree.mk "ADD" None [] (Some ∅))).
Proof.
  assert (Matcher.burm_label Example.two_hop_code Example.A Example.bare_add
          = Ok (Tree.mk "ADD" None [] (Some ∅))) as Hlabel
    by (vm_compute; reflexivity).
  destruct (proj1 gen_covers_or_fails _ _ Example.two_hop_code Example.A
              Example.P 2%nat Example.bare_add [] _ Hlabel)
    as (_ & st & Hst & Hiff & _).
  exists st. split; [exact Hst|].
  assert (State.has_goal st "reg" = false) as Hno.
  { simpl in Hst. injection Hst as <-. reflexivity. }
  split; [exact Hno|]. exact (proj1 Hiff Hno).
Defined.

End DriverClaim.
